(** * LSB steganography and document binding: a shallow embedding

    The development follows two modules of the repository:

    - [lsb_steganography.py]: the bit codec, the capacity planner and the
      embed / extract drivers ([Module Lsb]);
    - [document_security.py], with the compact fallback of
      [secure_qr_utils.py]: fingerprinting, binding tokens and the secure
      envelope ([Module Binder]).

    Python values are modelled as the code uses them: integers as [Z] / [nat],
    channel samples as [Z] in [0, 256), the strings of ['0'] / ['1'] characters
    as [list ascii], paths and texts as [string], byte strings as
    [list byte], dicts as association lists in insertion order, rasters as a
    size and a row-major pixel list, the directory of image files as a
    [gmap]. A call returns a value or raises ([outcome]); the clock and the
    UUID generator are inputs of the functions that read them.

    The libraries the code calls (Pillow, [json], [base64], [hmac],
    [hashlib], [os.path]) are parameters of the model. [Module Reference]
    implements them, to run the model on concrete inputs
    ([Module Concrete]). The facts proved about the two modules are in
    [Module LsbFacts] and [Module BinderFacts]. *)

From Stdlib Require Import ZArith NArith List Ascii String Lia Bool.
From Stdlib.Strings Require Import Byte.
From stdpp Require Import base option list strings gmap pretty.

Set Default Proof Using "Type".
Local Open Scope nat_scope.

(** ** Outcomes of a Python call: a value or a raised exception *)

Inductive outcome (E A : Type) : Type :=
| Return (a : A)
| Raise (e : E).
Arguments Return {E A} a.
Arguments Raise {E A} e.

Global Instance outcome_ret {E} : MRet (outcome E) := fun A a => Return a.
Global Instance outcome_bind {E} : MBind (outcome E) := fun A B k m =>
  match m with
  | Return a => k a
  | Raise e => Raise e
  end.

(** [try: m except Exception as e: h e]. *)
Definition try_except {E A} (m : outcome E A) (h : E -> outcome E A) : outcome E A :=
  match m with
  | Return a => Return a
  | Raise e => h e
  end.

(** Python's exception classes that the modelled code raises or catches. *)
Inductive py_class :=
| FileNotFoundError
| ValueError
| IndexError
| UnidentifiedImageError
| KeyError
| TypeError
| AttributeError
| JSONDecodeError
| BinasciiError
| UnicodeEncodeError
| UnicodeDecodeError
| RecursionError
| DocumentSecurityError.

Global Instance py_class_eq_dec : EqDecision py_class.
Proof. solve_decision. Defined.

(** [s.lower()] on the ASCII letters, and [s.endswith(t)] on strings. *)
Definition ascii_lower (c : ascii) : ascii :=
  let n := nat_of_ascii c in
  if decide (65 <= n <= 90) then ascii_of_nat (n + 32) else c.

Fixpoint lower (s : string) : string :=
  match s with
  | EmptyString => EmptyString
  | String c s' => String (ascii_lower c) (lower s')
  end.

Definition str_endswith (s t : string) : bool :=
  bool_decide (String.length t <= String.length s /\
               substring (String.length s - String.length t) (String.length t) s = t).

Module Lsb.

(** *** Rasters *)

(** A PIL image: its [size] and its pixels in row-major order. *)
Record image (A : Type) := Image {
  width : nat;
  height : nat;
  pixels : list A
}.
Arguments Image {A} _ _ _.
Arguments width {A} _.
Arguments height {A} _.
Arguments pixels {A} _.

(** An ['RGB'] pixel and a mode ['1'] pixel (0 is black, 255 is white). *)
Abbreviation rgb := (Z * Z * Z)%type.
Abbreviation bilevel := Z.

Definition wf_image {A} (img : image A) : Prop :=
  length (pixels img) = height img * width img.

Definition channel_ok (v : Z) : Prop := (0 <= v < 256)%Z.

Definition rgb_ok (p : rgb) : Prop :=
  let '(r, g, b) := p in channel_ok r /\ channel_ok g /\ channel_ok b.

(** A well-formed 8-bit colour raster. *)
Definition wf_rgb (img : image rgb) : Prop :=
  wf_image img /\ Forall rgb_ok (pixels img).

(** A well-formed 1-bit raster: every pixel is 0 or 255. *)
Definition wf_bilevel (img : image bilevel) : Prop :=
  wf_image img /\ Forall (fun v => v = 0%Z \/ v = 255%Z) (pixels img).

(** [img.getpixel((x, y))]; [None] stands for PIL's [IndexError]. *)
Definition getpixel {A} (img : image A) (x y : nat) : option A :=
  if decide (x < width img) then pixels img !! (y * width img + x) else None.

(** [img.putpixel((x, y), v)] on the (copied) image. *)
Definition putpixel {A} (img : image A) (x y : nat) (v : A) : image A :=
  Image (width img) (height img) (<[y * width img + x := v]> (pixels img)).

(** [[(x, y) for y in range(y0, h) for x in range(w)]]: the order in which
    the nested [for y ... for x ...] loops visit the pixels. *)
Definition scan (y0 h w : nat) : list (nat * nat) :=
  y ← seq y0 (h - y0); (fun x => (x, y)) <$> seq 0 w.

(** *** Bit strings *)

Abbreviation bitstr := (list ascii).

Definition HEADER_TERMINATOR_BIN : bitstr := list_ascii_of_string "00000000".
Definition HEADER_TERMINATOR_LEN : nat := length HEADER_TERMINATOR_BIN.

(** The binary digits of a positive number, most significant first. *)
Fixpoint pos_digits (p : positive) (acc : bitstr) : bitstr :=
  match p with
  | xH => "1"%char :: acc
  | xO q => pos_digits q ("0"%char :: acc)
  | xI q => pos_digits q ("1"%char :: acc)
  end.

(** [format(n, 'b')] for a non-negative integer. *)
Definition format_b (n : N) : bitstr :=
  match n with
  | N0 => ["0"%char]
  | Npos p => pos_digits p []
  end.

(** [format(integer, f'0{bits}b')]: zero padding on the left up to [bits]
    characters; a longer number is not truncated. *)
Definition _int_to_binary (integer : nat) (bits : nat) : bitstr :=
  let digits := format_b (N.of_nat integer) in
  replicate (bits - length digits) "0"%char ++ digits.

(** [int(binary_string, 2)]; [None] stands for the [ValueError] of an empty
    string or of a character that is no binary digit. *)
Fixpoint parse_bits (acc : N) (s : bitstr) : option N :=
  match s with
  | [] => Some acc
  | c :: s' =>
      if decide (c = "0"%char) then parse_bits (2 * acc)%N s'
      else if decide (c = "1"%char) then parse_bits (2 * acc + 1)%N s'
      else None
  end.

Definition _binary_to_int (binary_string : bitstr) : option nat :=
  match binary_string with
  | [] => None
  | _ => N.to_nat <$> parse_bits 0%N binary_string
  end.

Definition _embed_bit (pixel_value : Z) (bit : ascii) : Z :=
  if decide (bit = "0"%char) then Z.land pixel_value 254
  else Z.lor pixel_value 1.

Definition _extract_lsb (pixel_value : Z) : ascii :=
  if decide (pixel_value mod 2 = 1)%Z then "1"%char else "0"%char.

(** [s.endswith(t)] and [s[:-n]]. *)
Definition endswith (s t : bitstr) : bool :=
  bool_decide (length t <= length s /\ drop (length s - length t) s = t).

Definition drop_last (n : nat) (s : bitstr) : bitstr := take (length s - n) s.

(** *** Exceptions of the module, one constructor per [raise] site *)

Inductive lsb_error :=
| CoverNotFound (path : string)
| QrNotFound (path : string)
| OutputNotPng
| CoverTooSmallForHeader
| CapacityInsufficient (needed available : nat)
| CapacityInsufficientAfterResize (needed available : nat)
| StegoNotFound (path : string)
| HeaderLengthMismatch
| TerminatorNotFound
| HeaderNotFound
| InsufficientData (extracted expected : nat)
| BadBinary
| PixelOutOfRange
| NotAnImage (path : string)
| NoSuchFile (path : string)
| EmptyImage.

Definition error_class (e : lsb_error) : py_class :=
  match e with
  | CoverNotFound _ | QrNotFound _ | StegoNotFound _ | NoSuchFile _ => FileNotFoundError
  | PixelOutOfRange => IndexError
  | NotAnImage _ => UnidentifiedImageError
  | _ => ValueError
  end.

(** *** The directory of image files *)

Inductive picture :=
| PicRGB (img : image rgb)
| Pic1 (img : image bilevel).

Inductive file :=
| ImageFile (p : picture)
| OtherFile.

Abbreviation files := (gmap string file).

Definition path_exists (fs : files) (path : string) : bool :=
  bool_decide (is_Some (fs !! path)).

Definition Image_open (fs : files) (path : string) : outcome lsb_error picture :=
  match fs !! path with
  | Some (ImageFile p) => Return p
  | Some OtherFile => Raise (NotAnImage path)
  | None => Raise (NoSuchFile path)
  end.

Definition picture_size (p : picture) : nat * nat :=
  match p with
  | PicRGB img => (width img, height img)
  | Pic1 img => (width img, height img)
  end.

(** [img.save(path, "PNG")]: PNG is lossless, the raster is stored as it is.
    An image with a side of 0 pixels cannot be written, Pillow raises a
    [ValueError] for it. It does so after it has opened the file for
    writing: a file that was there is left empty, and a file that was
    created is removed again. *)
Definition save_png (fs : files) (path : string) (p : picture)
  : outcome lsb_error unit * files :=
  if decide ((picture_size p).1 = 0 \/ (picture_size p).2 = 0)
  then (Raise EmptyImage,
        match fs !! path with
        | Some _ => <[path := OtherFile]> fs
        | None => fs
        end)
  else (Return (), <[path := ImageFile p]> fs).

Inductive Resampling := NEAREST | BOX | BILINEAR | HAMMING | BICUBIC | LANCZOS.

Section Pillow.

(** Pillow's kernels and [os.path.splitext] are external to the repository:
    [resample] gives the pixel data of [img.resize((w, h), filter)], [dither]
    the pixel data of [img.convert('1')] for a colour image, [splitext_root]
    is [os.path.splitext(path)[0]]. *)
Variable resample : image bilevel -> nat -> nat -> Resampling -> list bilevel.
Variable dither : image rgb -> list bilevel.
Variable splitext_root : string -> string.

Definition resize (img : image bilevel) (w h : nat) (f : Resampling) : image bilevel :=
  Image w h (resample img w h f).

Definition convert_RGB (p : picture) : image rgb :=
  match p with
  | PicRGB img => img
  | Pic1 img => Image (width img) (height img) ((fun v => (v, v, v)) <$> pixels img)
  end.

Definition convert_1 (p : picture) : image bilevel :=
  match p with
  | Pic1 img => img
  | PicRGB img => Image (width img) (height img) (dither img)
  end.

(** *** Capacity planner *)

(** [int(math.sqrt(a))] is modelled by the integer square root, with which
    it agrees for every [a] below 2^52. *)
Definition _resize_qr_for_capacity (qr_img : image bilevel) (max_capacity : Z)
  : outcome lsb_error (image bilevel) :=
  let available_bits_for_qr :=
    (max_capacity - Z.of_nat (16 + 16 + HEADER_TERMINATOR_LEN))%Z in
  if decide (available_bits_for_qr <= 0)%Z then Raise CoverTooSmallForHeader
  else
    let new_dimension := Z.to_nat (Z.sqrt available_bits_for_qr) in
    if decide (width qr_img <= new_dimension /\ height qr_img <= new_dimension)
    then Return qr_img
    else
      let new_size := new_dimension `min` new_dimension in
      Return (resize qr_img new_size new_size NEAREST).

(** *** Embedding *)

(** ['1' if qr_img.getpixel((x, y)) == 0 else '0'], row by row. *)
Definition pixel_bit (v : bilevel) : ascii :=
  if decide (v = 0%Z) then "1"%char else "0"%char.

Definition qr_bit (qr_img : image bilevel) (c : nat * nat) : outcome lsb_error ascii :=
  match getpixel qr_img c.1 c.2 with
  | Some v => Return (pixel_bit v)
  | None => Raise PixelOutOfRange
  end.

Definition header (qr_width qr_height : nat) : bitstr :=
  _int_to_binary qr_width 16 ++ _int_to_binary qr_height 16 ++ HEADER_TERMINATOR_BIN.

(** How the two nested [for] loops of the embedding end: in the
    [except StopIteration] branch, which saves the image and returns, or by
    running out of pixels, after which only a warning is printed. *)
Inductive loop_exit :=
| Saved (stego_img : image rgb)
| Exhausted (stego_img : image rgb).

Fixpoint embed_loop (cs : list (nat * nat)) (data_bits_iterator : bitstr)
    (stego_img : image rgb) : outcome lsb_error loop_exit :=
  match cs with
  | [] => Return (Exhausted stego_img)
  | (x, y) :: cs' =>
      match data_bits_iterator with
      | [] => Return (Saved stego_img)
      | bit_to_embed :: rest =>
          match getpixel stego_img x y with
          | None => Raise PixelOutOfRange
          | Some (r, g, b) =>
              let new_b := _embed_bit b bit_to_embed in
              embed_loop cs' rest (putpixel stego_img x y (r, g, new_b))
          end
      end
  end.

(** The body of the [try] block, from the two opened images on, in its two
    steps: the capacity check with the optional resize of the payload ... *)
Definition fit_qr (cover_img : image rgb) (qr_img : image bilevel)
    (resize_qr_if_needed : bool) : outcome lsb_error (image bilevel) :=
  let max_capacity := width cover_img * height cover_img in
  let header_bits_len := 16 + 16 + HEADER_TERMINATOR_LEN in
  let qr_bits_len := width qr_img * height qr_img in
  let total_bits_needed := header_bits_len + qr_bits_len in
  if decide (max_capacity < total_bits_needed) then
    if resize_qr_if_needed
    then _resize_qr_for_capacity qr_img (Z.of_nat max_capacity)
    else Raise (CapacityInsufficient total_bits_needed max_capacity)
  else Return qr_img.

(** ... and the framing and writing of the bit stream. *)
Definition embed_stream (cover_img : image rgb) (qr_img : image bilevel)
  : outcome lsb_error loop_exit :=
  let cover_width := width cover_img in
  let cover_height := height cover_img in
  let max_capacity := cover_width * cover_height in
  let qr_width := width qr_img in
  let qr_height := height qr_img in
  qr_bits ← mapM (qr_bit qr_img) (scan 0 qr_height qr_width);
  let num_qr_bits := length qr_bits in
  let header_bits := header qr_width qr_height in
  let num_header_bits := length header_bits in
  let total_bits_to_embed := num_header_bits + num_qr_bits in
  if decide (max_capacity < total_bits_to_embed)
  then Raise (CapacityInsufficientAfterResize total_bits_to_embed max_capacity)
  else embed_loop (scan 0 cover_height cover_width) (header_bits ++ qr_bits) cover_img.

Definition embed_body (cover_img : image rgb) (qr_img : image bilevel)
    (resize_qr_if_needed : bool) : outcome lsb_error loop_exit :=
  qr_img ← fit_qr cover_img qr_img resize_qr_if_needed;
  embed_stream cover_img qr_img.

Definition embed_qr_to_image (fs : files)
    (cover_image_path qr_image_path output_stego_path : string)
    (resize_qr_if_needed : bool) : outcome lsb_error unit * files :=
  if negb (path_exists fs cover_image_path)
  then (Raise (CoverNotFound cover_image_path), fs)
  else if negb (path_exists fs qr_image_path)
  then (Raise (QrNotFound qr_image_path), fs)
  else if negb (str_endswith (lower output_stego_path) ".png")
  then (Raise OutputNotPng, fs)
  else
    let run :=
      cover ← Image_open fs cover_image_path;
      qr ← Image_open fs qr_image_path;
      embed_body (convert_RGB cover) (convert_1 qr) resize_qr_if_needed in
    match run with
    | Return (Saved stego_img) => save_png fs output_stego_path (PicRGB stego_img)
    | Return (Exhausted _) => (Return (), fs)
    | Raise e => (Raise e, fs)
    end.

(** *** Extraction *)

Definition num_header_bits : nat := 16 + 16 + HEADER_TERMINATOR_LEN.

(** The header scan; it returns the dimensions and the number of pixels
    processed when the [break] is taken. *)
Fixpoint header_loop (stego_img : image rgb) (cs : list (nat * nat))
    (extracted_bits : bitstr) (pixels_processed : nat)
  : outcome lsb_error (nat * nat * nat) :=
  match cs with
  | [] => Raise HeaderNotFound
  | (x, y) :: cs' =>
      match getpixel stego_img x y with
      | None => Raise PixelOutOfRange
      | Some (r, g, b) =>
          let extracted_bits := extracted_bits ++ [_extract_lsb b] in
          let pixels_processed := pixels_processed + 1 in
          if decide (num_header_bits <= length extracted_bits) then
            if endswith extracted_bits HEADER_TERMINATOR_BIN then
              let header_data := drop_last HEADER_TERMINATOR_LEN extracted_bits in
              if decide (length header_data = 32) then
                match _binary_to_int (take 16 header_data),
                      _binary_to_int (drop 16 header_data) with
                | Some qr_width, Some qr_height =>
                    Return (qr_width, qr_height, pixels_processed)
                | _, _ => Raise BadBinary
                end
              else Raise HeaderLengthMismatch
            else if decide (num_header_bits + 500 < length extracted_bits)
            then Raise TerminatorNotFound
            else header_loop stego_img cs' extracted_bits pixels_processed
          else header_loop stego_img cs' extracted_bits pixels_processed
      end
  end.

(** [itertools.islice(((x_, y_) for y_ in range(start_y, height)
    for x_ in range(width) if y_ > start_y or (y_ == start_y and
    x_ >= start_x)), n)]. *)
Definition pixel_iterator (width height start_x start_y n : nat) : list (nat * nat) :=
  take n (filter (fun c => start_y < c.2 \/ (c.2 = start_y /\ start_x <= c.1))
                 (scan start_y height width)).

Definition lsb_at (stego_img : image rgb) (c : nat * nat) : outcome lsb_error ascii :=
  match getpixel stego_img c.1 c.2 with
  | Some (r, g, b) => Return (_extract_lsb b)
  | None => Raise PixelOutOfRange
  end.

(** [Image.new('1', (w, h))]: a black raster. *)
Definition Image_new_1 (w h : nat) : image bilevel := Image w h (replicate (h * w) 0%Z).

(** A bit ['1'] is put back as black (0), any other as white (255). *)
Definition bit_pixel (c : ascii) : bilevel :=
  if decide (c = "1"%char) then 0%Z else 255%Z.

Fixpoint rebuild_loop (cs : list (nat * nat)) (qr_bits : bitstr) (bit_index : nat)
    (reconstructed_qr : image bilevel) : outcome lsb_error (image bilevel) :=
  match cs with
  | [] => Return reconstructed_qr
  | (x, y) :: cs' =>
      match qr_bits !! bit_index with
      | None => Raise PixelOutOfRange
      | Some c =>
          rebuild_loop cs' qr_bits (bit_index + 1)
                       (putpixel reconstructed_qr x y (bit_pixel c))
      end
  end.

(** The body of the [try] block, from the opened stego image on. *)
Definition extract_body (stego_img : image rgb) : outcome lsb_error (image bilevel) :=
  let width := width stego_img in
  let height := height stego_img in
  '(qr_width, qr_height, pixels_processed) ←
    header_loop stego_img (scan 0 height width) [] 0;
  let num_qr_bits_expected := qr_width * qr_height in
  let start_pixel_index := pixels_processed in
  let start_y := start_pixel_index / width in
  let start_x := start_pixel_index mod width in
  qr_bits_list ←
    mapM (lsb_at stego_img)
         (pixel_iterator width height start_x start_y num_qr_bits_expected);
  let bits_extracted_count := length qr_bits_list in
  if decide (bits_extracted_count < num_qr_bits_expected)
  then Raise (InsufficientData bits_extracted_count num_qr_bits_expected)
  else rebuild_loop (scan 0 qr_height qr_width) qr_bits_list 0
                    (Image_new_1 qr_width qr_height).

Definition extract_qr_from_image (fs : files) (stego_image_path output_qr_path : string)
  : outcome lsb_error unit * files :=
  if negb (path_exists fs stego_image_path)
  then (Raise (StegoNotFound stego_image_path), fs)
  else
    let output_qr_path :=
      if negb (str_endswith (lower output_qr_path) ".png")
      then (splitext_root output_qr_path ++ ".png")%string
      else output_qr_path in
    let run :=
      stego ← Image_open fs stego_image_path;
      extract_body (convert_RGB stego) in
    match run with
    | Return reconstructed_qr => save_png fs output_qr_path (Pic1 reconstructed_qr)
    | Raise e => (Raise e, fs)
    end.

End Pillow.

(** *** Flat views of the loops, used to state what they compute *)

(** The pixel list after the bits have been written into the blue channel
    of its first pixels, one bit per pixel. *)
Fixpoint write_bits (bits : bitstr) (px : list rgb) : list rgb :=
  match bits, px with
  | bit :: bits', (r, g, b) :: px' => (r, g, _embed_bit b bit) :: write_bits bits' px'
  | _, _ => px
  end.

(** The blue-channel LSBs of a pixel list, in order. *)
Definition lsbs (px : list rgb) : bitstr := (fun p : rgb => _extract_lsb p.2) <$> px.

(** The row-major position of a pixel index. *)
Definition coord (w i : nat) : nat * nat := (i mod w, i / w).

(** The two characters a bit string is made of. *)
Definition is_bit (c : ascii) : Prop := c = "0"%char \/ c = "1"%char.


(** Dimensions that fit the two 16-bit fields of the header. *)
Definition u16 (n : nat) : Prop := n < 2 ^ 16.

End Lsb.

Module Binder.

(** *** Python values *)

(** The values [json.loads] produces and [json.dumps] accepts. A float is
    kept as the dyadic number [m * 2^e]; a [dict] keeps its insertion order. *)
#[warnings="-register-all"] Inductive json :=
| JNull
| JBool (b : bool)
| JInt (n : Z)
| JFloat (m e : Z)
| JStr (s : string)
| JList (l : list json)
| JDict (d : list (string * json)).

Abbreviation dict := (list (string * json)).
Abbreviation bytes := (list byte).

Global Instance byte_eq_dec : EqDecision byte := Byte.byte_eq_dec.

Record exn := Exn { exn_class : py_class; exn_str : string }.

Abbreviation result := (outcome exn).

(** An exception of class [c] with the text the library gave. *)
Definition raising {A} (c : py_class) (m : outcome string A) : result A :=
  match m with
  | Return a => Return a
  | Raise msg => Raise (Exn c msg)
  end.

(** [k in d] is [is_Some (lookup d k)], [d.get(k)], [d.get(k, default)],
    [d[k]] and [d[k] = v] on a dict. *)
Fixpoint lookup_key (d : dict) (k : string) : option json :=
  match d with
  | [] => None
  | (k', v) :: d' => if decide (k' = k) then Some v else lookup_key d' k
  end.

Definition get (d : dict) (k : string) : json := default JNull (lookup_key d k).

Definition get_default (d : dict) (k : string) (dflt : json) : json :=
  default dflt (lookup_key d k).

Definition getitem (d : dict) (k : string) : result json :=
  match lookup_key d k with
  | Some v => Return v
  | None => Raise (Exn KeyError ("'" ++ k ++ "'"))
  end.

Fixpoint setitem (d : dict) (k : string) (v : json) : dict :=
  match d with
  | [] => [(k, v)]
  | (k', v') :: d' => if decide (k' = k) then (k, v) :: d' else (k', v') :: setitem d' k v
  end.

(** [d.update(other)]. *)
Definition update (d other : dict) : dict :=
  foldl (fun acc kv => setitem acc kv.1 kv.2) d other.

(** The value of a number, as [m * 2^e] with [e <= 0] made explicit:
    [(a, k)] stands for [a / 2^k]. *)
Definition number (v : json) : option (Z * Z) :=
  match v with
  | JBool b => Some (Z.b2z b, 0%Z)
  | JInt n => Some (n, 0%Z)
  | JFloat m e => if decide (0 <= e)%Z then Some ((m * 2 ^ e)%Z, 0%Z) else Some (m, (- e)%Z)
  | _ => None
  end.

(** Python's [a == b] on these values: numbers by value, strings, lists and
    [None] structurally, dicts key by key whatever their order. *)
Fixpoint py_eq (a b : json) : bool :=
  match a, b with
  | JNull, JNull => true
  | JStr s, JStr t => bool_decide (s = t)
  | JList l1, JList l2 =>
      (fix go (l1 l2 : list json) : bool :=
         match l1, l2 with
         | [], [] => true
         | x :: l1', y :: l2' => py_eq x y && go l1' l2'
         | _, _ => false
         end) l1 l2
  | JDict d1, JDict d2 =>
      bool_decide (length d1 = length d2) &&
      (fix go (d : dict) : bool :=
         match d with
         | [] => true
         | (k, v) :: d' =>
             match lookup_key d2 k with
             | Some v' => py_eq v v'
             | None => false
             end && go d'
         end) d1
  | _, _ =>
      match number a, number b with
      | Some (x, j), Some (y, k) => bool_decide (x * 2 ^ k = y * 2 ^ j)%Z
      | _, _ => false
      end
  end.

(** Two dicts with the same items, in whatever order. *)
Definition same_items (d1 d2 : dict) : Prop :=
  forall k, lookup_key d1 k = lookup_key d2 k.

(** The truth value of [v], as in [not v]. *)
Definition truthy (v : json) : bool :=
  match v with
  | JNull => false
  | JBool b => b
  | JInt n => negb (bool_decide (n = 0%Z))
  | JFloat m _ => negb (bool_decide (m = 0%Z))
  | JStr s => negb (bool_decide (s = EmptyString))
  | JList l => negb (bool_decide (l = []))
  | JDict d => negb (bool_decide (d = []))
  end.

(** [now > v] for an integer [now]; comparing with anything but a number is
    a [TypeError]. *)
Definition int_gt (now : Z) (v : json) : result bool :=
  match number v with
  | Some (x, k) => Return (bool_decide (x < now * 2 ^ k)%Z)
  | None => Raise (Exn TypeError "'>' not supported between instances of 'int' and another type")
  end.

(** [t in s] on strings. *)
Fixpoint str_contains (s t : string) : bool :=
  String.prefix t s ||
  match s with
  | EmptyString => false
  | String _ s' => str_contains s' t
  end.

(** [field in container]. *)
Definition contains (container : json) (field : string) : result bool :=
  match container with
  | JDict d => Return (bool_decide (is_Some (lookup_key d field)))
  | JList l => Return (existsb (fun x => py_eq x (JStr field)) l)
  | JStr s => Return (str_contains s field)
  | _ => Raise (Exn TypeError "argument is not iterable")
  end.

(** [container[key]] for a string key. *)
Definition subscript (container : json) (key : string) : result json :=
  match container with
  | JDict d => getitem d key
  | _ => Raise (Exn TypeError "indices must be integers")
  end.

(** [v.get(key)] and [v.get(key, default)]: an [AttributeError] unless [v]
    is a dict. *)
Definition attr_get (v : json) (key : string) (dflt : json) : result json :=
  match v with
  | JDict d => Return (get_default d key dflt)
  | _ => Raise (Exn AttributeError "object has no attribute 'get'")
  end.

(** The receiver of [v.encode(...)] must be a [str]. *)
Definition as_str (v : json) : result string :=
  match v with
  | JStr s => Return s
  | _ => Raise (Exn AttributeError "object has no attribute 'encode'")
  end.

(** *** The libraries the module calls *)

Inductive codec := ASCII | UTF8.

(** [json], [base64], [hashlib], [hmac], the text codecs, [os.path] and the
    document readers are external to the repository. [base64.b64decode]
    raises a [binascii.Error] and the codecs a [UnicodeEncodeError] /
    [UnicodeDecodeError], with the text given. [json.loads] raises a
    [JSONDecodeError] for text that is not JSON, and it can raise other
    exceptions: CPython raises a [ValueError] for an integer literal of more
    than 4300 digits and a [RecursionError] for deeply nested arrays; so
    [json_loads] gives the exception with its class.

    [json_dumps sort_keys compact v] is [json.dumps(v, sort_keys=...)],
    with [separators=(',', ':')] when [compact]; [docx_metadata] and
    [pdf_metadata] are the dicts [_extract_docx_metadata] and
    [_extract_pdf_metadata] return for a path and the content of the file
    there (both catch every exception themselves, and the dict of their
    [except] branch has the text of the exception, which can name the
    path). *)
Class Runtime := {
  json_dumps : bool -> bool -> json -> string;
  json_loads : string -> outcome exn json;
  b64encode : bytes -> bytes;
  b64decode : bytes -> outcome string bytes;
  str_encode : codec -> string -> outcome string bytes;
  bytes_decode : codec -> bytes -> outcome string string;
  sha256 : bytes -> bytes;
  hmac_sha256 : bytes -> bytes -> bytes;
  basename : string -> string;
  splitext_ext : string -> string;
  docx_metadata : string -> bytes -> dict;
  pdf_metadata : string -> bytes -> dict
}.

(** [digest.hex()]. *)
Definition hex_digit (n : N) : ascii :=
  ascii_of_N (if decide (n < 10)%N then 48 + n else 87 + n)%N.

Definition hexdigest (digest : bytes) : string :=
  string_of_list_ascii
    (b ← digest; [hex_digit (Byte.to_N b / 16); hex_digit (Byte.to_N b mod 16)]).

(** [hmac.compare_digest]: equality of the two byte strings (that it takes
    constant time is not modelled). *)
Definition compare_digest (a b : bytes) : bool := bool_decide (a = b).

Definition QR_BINDING_VERSION : string := "2.0".
Definition MAX_DOCUMENT_SIZE : Z := (50 * 1024 * 1024)%Z.

(** *** Documents on disk *)

Record document := Document { content : bytes; st_mtime : Z }.

Abbreviation documents := (gmap string document).

Section WithRuntime.
Context `{Runtime}.

(** *** DocumentBinder.generate_document_fingerprint *)

Definition _extract_document_metadata (doc : document) (document_path file_ext : string)
  : dict :=
  let metadata := [("type", JStr file_ext)] in
  if decide (file_ext = ".docx")
  then update metadata (docx_metadata document_path (content doc))
  else if decide (file_ext = ".pdf")
  then update metadata (pdf_metadata document_path (content doc))
  else setitem metadata "extraction_method" (JStr "basic").

(** The fingerprint before its hash is added (lines 120-133). *)
Definition fingerprint_fields (document_id : string) (timestamp : Z)
    (filename : string) (file_size : Z) (file_ext : string) (modified_time : Z)
    (file_hash : string) (doc_metadata : dict) : dict :=
  [("version", JStr QR_BINDING_VERSION);
   ("document_id", JStr document_id);
   ("timestamp", JInt timestamp);
   ("file_info", JDict [("name", JStr filename);
                        ("size", JInt file_size);
                        ("extension", JStr file_ext);
                        ("modified_time", JInt modified_time)]);
   ("content_hash", JStr file_hash);
   ("document_metadata", JDict doc_metadata);
   ("security_level", JStr "standard")].

(** The fingerprint of a readable document before its hash is added
    (lines 100-133). [uuid4] is the string of the UUID drawn by
    [uuid.uuid4()] in this call, [now] the reading of [int(time.time())].
    The file is hashed in chunks of 4096 bytes, which gives the hash of the
    whole content. *)
Definition document_fields (doc : document) (document_path : string)
    (uuid4 : string) (now : Z) : dict :=
  let file_size := Z.of_nat (length (content doc)) in
  let filename := basename document_path in
  let file_ext := lower (splitext_ext filename) in
  let file_hash := hexdigest (sha256 (content doc)) in
  let doc_metadata := _extract_document_metadata doc document_path file_ext in
  let document_id := uuid4 in
  fingerprint_fields document_id now filename file_size file_ext
                     (st_mtime doc) file_hash doc_metadata.

Definition generate_document_fingerprint (docs : documents) (document_path : string)
    (uuid4 : string) (now : Z) : result dict :=
  match docs !! document_path with
  | None => Raise (Exn DocumentSecurityError ("Document not found: " ++ document_path))
  | Some doc =>
      let file_size := Z.of_nat (length (content doc)) in
      if decide (MAX_DOCUMENT_SIZE < file_size)%Z
      then Raise (Exn DocumentSecurityError
                    ("Document too large: " ++ pretty file_size ++ " bytes (max: "
                     ++ pretty MAX_DOCUMENT_SIZE ++ ")"))
      else
        try_except
          (let fingerprint := document_fields doc document_path uuid4 now in
           fingerprint_data ←
             raising UnicodeEncodeError
               (str_encode UTF8 (json_dumps true false (JDict fingerprint)));
           let fingerprint_hash := hexdigest (sha256 fingerprint_data) in
           Return (setitem fingerprint "fingerprint_hash" (JStr fingerprint_hash)))
          (fun e => Raise (Exn DocumentSecurityError
                             ("Failed to fingerprint document: " ++ exn_str e)))
  end.

(** *** DocumentBinder.generate_binding_token *)

(** The binding payload (lines 244-251). The dict display reads the clock
    twice: [issued_clock] is the first reading of [int(time.time())],
    [expires_clock] the second. *)
Definition binding_payload (document_id fingerprint_hash : json) (qr_data : string)
    (expiry_hours issued_clock expires_clock : Z) : dict :=
  [("document_id", document_id);
   ("fingerprint_hash", fingerprint_hash);
   ("qr_data", JStr qr_data);
   ("issued_at", JInt issued_clock);
   ("expires_at", JInt (expires_clock + expiry_hours * 3600));
   ("version", JStr QR_BINDING_VERSION)].

(** [base64.b64encode(b).decode('ascii')]. *)
Definition b64_text (b : bytes) : result string :=
  raising UnicodeDecodeError (bytes_decode ASCII (b64encode b)).

(** The token around a payload and a signature (lines 264-273). *)
Definition token_data (payload64 signature64 : string) : dict :=
  [("payload", JStr payload64);
   ("signature", JStr signature64);
   ("version", JStr QR_BINDING_VERSION)].

Definition encode_token (payload_bytes hmac_digest : bytes) : result string :=
  payload64 ← b64_text payload_bytes;
  signature64 ← b64_text hmac_digest;
  let token_json := json_dumps false false (JDict (token_data payload64 signature64)) in
  token_utf8 ← raising UnicodeEncodeError (str_encode UTF8 token_json);
  b64_text token_utf8.

(** The serialized payload (lines 244-255) ... *)
Definition binding_payload_bytes (document_fingerprint : dict) (qr_data : string)
    (expiry_hours issued_clock expires_clock : Z) : result bytes :=
  document_id ← getitem document_fingerprint "document_id";
  fingerprint_hash ← getitem document_fingerprint "fingerprint_hash";
  let binding_payload :=
    binding_payload document_id fingerprint_hash qr_data
                    expiry_hours issued_clock expires_clock in
  let payload_json := json_dumps true false (JDict binding_payload) in
  raising UnicodeEncodeError (str_encode UTF8 payload_json).

(** ... signed and wrapped (lines 257-273). *)
Definition generate_binding_token (secret_key : bytes) (document_fingerprint : dict)
    (qr_data : string) (expiry_hours issued_clock expires_clock : Z) : result string :=
  try_except
    (payload_bytes ←
       binding_payload_bytes document_fingerprint qr_data
                             expiry_hours issued_clock expires_clock;
     let hmac_digest := hmac_sha256 secret_key payload_bytes in
     encode_token payload_bytes hmac_digest)
    (fun e => Raise (Exn DocumentSecurityError
                       ("Failed to generate binding token: " ++ exn_str e))).

(** *** DocumentBinder.verify_binding_token *)

(** [base64.b64decode(s.encode('ascii'))]. *)
Definition b64_bytes (s : string) : result bytes :=
  ascii_bytes ← raising UnicodeEncodeError (str_encode ASCII s);
  raising BinasciiError (b64decode ascii_bytes).

(** The first field of the list that is [not in token_data]. *)
Fixpoint first_missing (token_data : json) (fields : list string) : result (option string) :=
  match fields with
  | [] => Return None
  | field :: fields' =>
      contains token_data field ≫= fun present : bool =>
      if present then first_missing token_data fields' else Return (Some field)
  end.

Definition invalid (error : string) : dict :=
  [("valid", JBool false); ("error", JStr error)].

(** The body of the [try] block; [current_time] is the reading of
    [int(time.time())]. The token is whatever the caller passes: anything
    but a [str] has no [encode]. *)
Definition verify_body (secret_key : bytes) (token : json)
    (document_fingerprint : dict) (current_time : Z) : result dict :=
  token_bytes ← as_str token ≫= b64_bytes;
  token_json ← raising UnicodeDecodeError (bytes_decode UTF8 token_bytes);
  token_data ← json_loads token_json;
  missing ← first_missing token_data ["payload"; "signature"; "version"];
  match missing with
  | Some field => Return (invalid ("Missing token field: " ++ field))
  | None =>
      payload64 ← subscript token_data "payload" ≫= as_str;
      payload_bytes ← b64_bytes payload64;
      signature64 ← subscript token_data "signature" ≫= as_str;
      signature_bytes ← b64_bytes signature64;
      let expected_signature := hmac_sha256 secret_key payload_bytes in
      if negb (compare_digest signature_bytes expected_signature)
      then Return (invalid "Invalid token signature")
      else
        payload_json ← raising UnicodeDecodeError (bytes_decode UTF8 payload_bytes);
        payload ← json_loads payload_json;
        expires_at ← attr_get payload "expires_at" (JInt 0);
        int_gt current_time expires_at ≫= fun expired : bool =>
        if expired then Return (invalid "Token expired")
        else
          fingerprint_hash ← attr_get payload "fingerprint_hash" JNull;
          if negb (py_eq fingerprint_hash (get document_fingerprint "fingerprint_hash"))
          then Return [("valid", JBool false);
                       ("error", JStr "Document fingerprint mismatch");
                       ("expected_fingerprint", fingerprint_hash);
                       ("actual_fingerprint", get document_fingerprint "fingerprint_hash")]
          else
            qr_data ← attr_get payload "qr_data" JNull;
            issued_at ← attr_get payload "issued_at" JNull;
            expires_at ← attr_get payload "expires_at" JNull;
            document_uuid ← attr_get payload "document_id" JNull;
            let verification_result :=
              [("valid", JBool true);
               ("qr_data", qr_data);
               ("issued_at", issued_at);
               ("expires_at", expires_at);
               ("document_id", get document_fingerprint "document_id");
               ("document_uuid", document_uuid);
               ("verification_time", JInt current_time)] in
            (* the f-string of [logger.info] reads document_fingerprint['document_id'] *)
            _ ← getitem document_fingerprint "document_id";
            Return verification_result
  end.

Definition verify_binding_token (secret_key : bytes) (token : json)
    (document_fingerprint : dict) (current_time : Z) : result dict :=
  try_except (verify_body secret_key token document_fingerprint current_time)
    (fun e =>
       if decide (exn_class e = JSONDecodeError)
       then Return (invalid ("Invalid token format: " ++ exn_str e))
       else Return (invalid ("Verification failed: " ++ exn_str e))).

(** *** The secure envelope *)

Definition create_secure_qr_data (original_data binding_token : string) (now : Z)
  : result string :=
  try_except
    (let secure_data :=
       [("version", JStr QR_BINDING_VERSION);
        ("type", JStr "secure");
        ("data", JStr original_data);
        ("binding", JStr binding_token);
        ("created_at", JInt now)] in
     Return (json_dumps false true (JDict secure_data)))
    (fun e => Raise (Exn DocumentSecurityError
                       ("Failed to create secure QR data: " ++ exn_str e))).

Definition legacy (qr_data : string) : dict :=
  [("is_secure", JBool false);
   ("original_data", JStr qr_data);
   ("binding_token", JNull);
   ("version", JNull);
   ("created_at", JNull);
   ("is_uuid_based", JBool false)].

Definition secure (data : dict) : dict :=
  let version := get_default data "version" (JStr "1.0") in
  [("is_secure", JBool true);
   ("original_data", get data "data");
   ("binding_token", get data "binding");
   ("version", version);
   ("created_at", get data "created_at");
   ("is_uuid_based", JBool (py_eq version (JStr "2.0")))].

(** [isinstance(data, dict) and data.get("type") == "secure"]. *)
Definition is_secure_envelope (data : json) : bool :=
  match data with
  | JDict d => py_eq (get d "type") (JStr "secure")
  | _ => false
  end.

Definition parse_secure_qr_data (qr_data : string) : result dict :=
  try_except
    (match json_loads qr_data with
     | Return (JDict d) =>
         if is_secure_envelope (JDict d) then Return (secure d) else Return (legacy qr_data)
     | Return _ => Return (legacy qr_data)
     | Raise e =>
         if decide (exn_class e = JSONDecodeError) then Return (legacy qr_data)
         else Raise e
     end)
    (fun e => Raise (Exn DocumentSecurityError ("Failed to parse QR data: " ++ exn_str e))).

(** *** SecureQRGenerator.generate_bound_qr, lines 73-92 *)

(** [binding_token[:100]]. *)
Definition truncated (binding_token : string) : string := substring 0 100 binding_token.

Definition compact_secure_data (data binding_token : string) : string :=
  json_dumps false true
    (JDict [("v", JStr "1.0");
            ("t", JStr "s");
            ("d", JStr data);
            ("b", JStr (truncated binding_token))]).

(** The text put into the QR code; [fits s] says whether
    [analyze_qr_requirements(s)] has a ['recommended_version']. *)
Definition bound_qr_payload (fits : string -> bool) (data binding_token : string) (now : Z)
  : result string :=
  secure_qr_data ← create_secure_qr_data data binding_token now;
  if fits secure_qr_data then Return secure_qr_data
  else
    let compact_secure_data := compact_secure_data data binding_token in
    if fits compact_secure_data then Return compact_secure_data
    else Raise (Exn DocumentSecurityError "Document binding data too large for QR code").

(** *** quick_binding_verification *)

(** [secret_key] is the key [DocumentBinder()] loads; [uuid4] and
    [fingerprint_clock] are drawn and read by the fresh fingerprint,
    [verify_clock] is read by the verification. *)
Definition quick_binding_verification (secret_key : bytes) (docs : documents)
    (qr_data document_path : string) (uuid4 : string)
    (fingerprint_clock verify_clock : Z) : result dict :=
  try_except
    (qr_info ← parse_secure_qr_data qr_data;
     is_secure ← getitem qr_info "is_secure";
     if negb (truthy is_secure) then
       Return [("binding_verified", JBool false);
               ("is_legacy", JBool true);
               ("message", JStr "QR code is not bound to any document (legacy format)")]
     else
       fingerprint ← generate_document_fingerprint docs document_path uuid4 fingerprint_clock;
       binding_token ← getitem qr_info "binding_token";
       verification ← verify_binding_token secret_key binding_token fingerprint verify_clock;
       valid ← getitem verification "valid";
       document_id ← getitem fingerprint "document_id";
       Return [("binding_verified", valid);
               ("is_legacy", JBool false);
               ("verification_details", JDict verification);
               ("document_id", document_id)])
    (fun e => Return [("binding_verified", JBool false);
                      ("is_legacy", JBool false);
                      ("error", JStr (exn_str e))]).

(** *** What the module relies on from the libraries *)

(** The libraries undo on [token] what [encode_token] did: base64 and
    UTF-8 decoding and [json.loads] give back the token dict, whose two
    fields decode to the payload bytes and the signature. *)
Definition decodes_to (token : string) (payload_bytes signature : bytes) : Prop :=
  exists (token_utf8 : bytes) (token_json payload64 signature64 : string),
    b64_bytes token = Return token_utf8 /\
    raising UnicodeDecodeError (bytes_decode UTF8 token_utf8) = Return token_json /\
    json_loads token_json
      = Return (JDict (token_data payload64 signature64)) /\
    b64_bytes payload64 = Return payload_bytes /\
    b64_bytes signature64 = Return signature.

(** [json.loads(payload_bytes.decode('utf-8'))] gives back the payload. *)
Definition payload_decodes_to (payload_bytes : bytes) (payload : dict) : Prop :=
  exists payload_json : string,
    raising UnicodeDecodeError (bytes_decode UTF8 payload_bytes) = Return payload_json /\
    json_loads payload_json = Return (JDict payload).

End WithRuntime.

(** A result of the verification: the success dict, or a refusal with its
    reason. *)
Definition answer (d : dict) : Prop :=
  get d "valid" = JBool true \/
  (get d "valid" = JBool false /\ exists error, get d "error" = JStr error).

(** *** Tampering with a signature *)

(** The byte with bit [k] (0 to 7) flipped, and the byte string with bit
    [i] flipped, counting from the low bit of the first byte. *)
Definition flip_byte (k : nat) (b : byte) : byte :=
  default b (Byte.of_N (N.lxor (Byte.to_N b) (2 ^ N.of_nat k))).

Definition flip_bit (i : nat) (b : bytes) : bytes :=
  alter (flip_byte (i mod 8)) (i / 8) b.

End Binder.

(** ** Reference implementations of the external libraries

    Executable versions of the library operations, to run the model on
    concrete inputs: SHA-256 (FIPS 180-4), HMAC (RFC 2104), base64 as
    [binascii] computes it, a JSON printer and parser for the documents the
    module writes, the text codecs on Latin-1 characters, and simple
    stand-ins for Pillow's kernels. *)

Module Reference.
Import Binder.

Local Open Scope N_scope.

(** *** SHA-256 *)

Definition w32 (x : N) : N := x mod 2 ^ 32.
Definition rotr (n x : N) : N := N.lor (N.shiftr x n) (w32 (N.shiftl x (32 - n))).
Definition xor3 (x y z : N) : N := N.lxor (N.lxor x y) z.
Definition Ch (x y z : N) : N := N.lxor (N.land x y) (N.land (N.lnot x 32) z).
Definition Maj (x y z : N) : N := xor3 (N.land x y) (N.land x z) (N.land y z).
Definition Sigma0 (x : N) : N := xor3 (rotr 2 x) (rotr 13 x) (rotr 22 x).
Definition Sigma1 (x : N) : N := xor3 (rotr 6 x) (rotr 11 x) (rotr 25 x).
Definition sigma0 (x : N) : N := xor3 (rotr 7 x) (rotr 18 x) (N.shiftr x 3).
Definition sigma1 (x : N) : N := xor3 (rotr 17 x) (rotr 19 x) (N.shiftr x 10).

(** The constants of FIPS 180-4 are computed as the standard defines them:
    the first 32 bits of the fractional parts of the cube roots (round
    constants) and of the square roots (initial hash value) of the first
    primes. *)
Definition is_prime (n : N) : bool :=
  forallb (fun d => negb (n mod N.of_nat d =? 0)) (seq 2 (N.to_nat n - 2)).

Definition first_primes (count : nat) : list N :=
  take count (filter (fun n => is_prime n = true) (N.of_nat <$> seq 2 310)).

(** The integer cube root of a number below [2 ^ (3 * bits)], bit by bit. *)
Fixpoint cube_root_bits (bits : nat) (n root : N) : N :=
  match bits with
  | O => root
  | S bits' =>
      let candidate := root + 2 ^ N.of_nat bits' in
      cube_root_bits bits' n (if decide (candidate ^ 3 <= n) then candidate else root)
  end.

Definition K256 : list N :=
  Eval vm_compute in
    (fun p => w32 (cube_root_bits 36 (p * 2 ^ 96) 0)) <$> first_primes 64.

Definition H256 : list N :=
  Eval vm_compute in
    (fun p => w32 (N.sqrt (p * 2 ^ 64))) <$> first_primes 8.

Definition byte_of (n : N) : byte := default x00 (Byte.of_N (n mod 256)).

(** The big-endian bytes of a number, [len] of them. *)
Fixpoint be_bytes (len : nat) (n : N) : list N :=
  match len with
  | O => []
  | S len' => (n / 2 ^ (8 * N.of_nat len')) mod 256 :: be_bytes len' n
  end.

Definition be_word (bs : list N) : N := foldl (fun acc b => acc * 256 + b) 0 bs.

(** Padding: a 1 bit, zeros, and the length in bits on 64 bits. *)
Definition sha_pad (msg : list N) : list N :=
  let l := length msg in
  let zeros := ((119 - l mod 64) mod 64)%nat in
  msg ++ [0x80] ++ replicate zeros 0 ++ be_bytes 8 (8 * N.of_nat l).

Fixpoint chunks {A} (fuel size : nat) (l : list A) : list (list A) :=
  match fuel with
  | O => []
  | S fuel' =>
      match l with
      | [] => []
      | _ => take size l :: chunks fuel' size (drop size l)
      end
  end.

Fixpoint schedule (n : nat) (w : list N) : list N :=
  match n with
  | O => w
  | S n' =>
      let t := length w in
      let x := w32 (sigma1 (nth (t - 2) w 0) + nth (t - 7) w 0
                    + sigma0 (nth (t - 15) w 0) + nth (t - 16) w 0) in
      schedule n' (w ++ [x])
  end.

Definition sha_round (st : list N) (kw : N * N) : list N :=
  match st with
  | [a; b; c; d; e; f; g; h] =>
      let t1 := h + Sigma1 e + Ch e f g + kw.1 + kw.2 in
      let t2 := Sigma0 a + Maj a b c in
      [w32 (t1 + t2); a; b; c; w32 (d + t1); e; f; g]
  | _ => st
  end.

Definition sha_block (hs : list N) (block : list N) : list N :=
  let w := schedule 48 (be_word <$> chunks 16 4 block) in
  let st := foldl sha_round hs (zip K256 w) in
  zip_with (fun x y => w32 (x + y)) hs st.

Definition sha256 (msg : bytes) : bytes :=
  let padded := sha_pad (Byte.to_N <$> msg) in
  let hs := foldl sha_block H256 (chunks (length padded) 64 padded) in
  byte_of <$> (hs ≫= be_bytes 4).

(** *** HMAC-SHA256 *)

Definition hmac_sha256 (key msg : bytes) : bytes :=
  let key := if decide (64 < length key)%nat then sha256 key else key in
  let block := (Byte.to_N <$> key) ++ replicate (64 - length key)%nat 0 in
  let ipad := (fun k => byte_of (N.lxor k 0x36)) <$> block in
  let opad := (fun k => byte_of (N.lxor k 0x5c)) <$> block in
  sha256 (opad ++ sha256 (ipad ++ msg)).

Definition bytes_of_string (s : string) : bytes := list_byte_of_string s.

(** *** base64 *)

Definition b64_char (i : N) : N :=
  if decide (i < 26) then 65 + i
  else if decide (i < 52) then 71 + i
  else if decide (i < 62) then i - 4
  else if decide (i = 62) then 43 else 47.

Definition b64_index (c : N) : option N :=
  if decide (65 <= c <= 90) then Some (c - 65)
  else if decide (97 <= c <= 122) then Some (c - 71)
  else if decide (48 <= c <= 57) then Some (c + 4)
  else if decide (c = 43) then Some 62
  else if decide (c = 47) then Some 63
  else None.

Fixpoint b2a_base64 (bs : list N) : list N :=
  match bs with
  | a :: b :: c :: rest =>
      b64_char (a / 4) :: b64_char (a mod 4 * 16 + b / 16)
      :: b64_char (b mod 16 * 4 + c / 64) :: b64_char (c mod 64) :: b2a_base64 rest
  | [a; b] => [b64_char (a / 4); b64_char (a mod 4 * 16 + b / 16); b64_char (b mod 16 * 4); 61]
  | [a] => [b64_char (a / 4); b64_char (a mod 4 * 16); 61; 61]
  | [] => []
  end.

Definition b64encode (b : bytes) : bytes := byte_of <$> b2a_base64 (Byte.to_N <$> b).

(** [binascii.a2b_base64] without [strict_mode]: characters outside the
    alphabet are skipped, a complete run of padding ends the input, and an
    unfinished quad is an error. [out] is the output so far, reversed. *)
Fixpoint a2b_base64 (data : list N) (quad_pos leftchar pads : N) (out : list N)
  : outcome string (list N) :=
  match data with
  | [] =>
      if decide (quad_pos = 0) then Return (reverse out)
      else if decide (quad_pos = 1)
      then Raise ("Invalid base64-encoded string: number of data characters ("
                  ++ pretty (N.of_nat (length out) / 3 * 4 + 1)
                  ++ ") cannot be 1 more than a multiple of 4")%string
      else Raise "Incorrect padding"%string
  | c :: rest =>
      if decide (c = 61) then
        if decide (2 <= quad_pos) then
          if decide (4 <= quad_pos + (pads + 1)) then Return (reverse out)
          else a2b_base64 rest quad_pos leftchar (pads + 1) out
        else a2b_base64 rest quad_pos leftchar pads out
      else
        match b64_index c with
        | None => a2b_base64 rest quad_pos leftchar pads out
        | Some v =>
            if decide (quad_pos = 0) then a2b_base64 rest 1 v 0 out
            else if decide (quad_pos = 1)
            then a2b_base64 rest 2 (v mod 16) 0 ((leftchar * 4 + v / 16) mod 256 :: out)
            else if decide (quad_pos = 2)
            then a2b_base64 rest 3 (v mod 4) 0 ((leftchar * 16 + v / 4) mod 256 :: out)
            else a2b_base64 rest 0 0 0 ((leftchar * 64 + v) mod 256 :: out)
        end
  end.

Definition b64decode (s : bytes) : outcome string bytes :=
  match a2b_base64 (Byte.to_N <$> s) 0 0 0 [] with
  | Return out => Return (byte_of <$> out)
  | Raise e => Raise e
  end.

(** *** Text codecs, on the characters below 256 *)

Definition str_encode (c : codec) (s : string) : outcome string bytes :=
  let cs := N_of_ascii <$> list_ascii_of_string s in
  match c with
  | ASCII =>
      if forallb (fun n => bool_decide (n < 128)) cs then Return (byte_of <$> cs)
      else Raise "'ascii' codec can't encode character: ordinal not in range(128)"%string
  | UTF8 =>
      Return (byte_of <$> (n ← cs; if decide (n < 128) then [n]
                                   else [192 + n / 64; 128 + n mod 64]))
  end.

Fixpoint utf8_chars (bs : list N) : outcome string (list N) :=
  match bs with
  | [] => Return []
  | b :: rest =>
      if decide (b < 128) then cs ← utf8_chars rest; Return (b :: cs)
      else
        match rest with
        | b2 :: rest' =>
            if decide (194 <= b <= 195 /\ 128 <= b2 < 192)
            then cs ← utf8_chars rest'; Return ((b - 192) * 64 + (b2 - 128) :: cs)
            else Raise "'utf-8' codec can't decode byte"%string
        | [] => Raise "'utf-8' codec can't decode byte: unexpected end of data"%string
        end
  end.

Definition bytes_decode (c : codec) (b : bytes) : outcome string string :=
  let bs := Byte.to_N <$> b in
  match c with
  | ASCII =>
      if forallb (fun n => bool_decide (n < 128)) bs
      then Return (string_of_list_ascii (ascii_of_N <$> bs))
      else Raise "'ascii' codec can't decode byte: ordinal not in range(128)"%string
  | UTF8 =>
      match utf8_chars bs with
      | Return cs => Return (string_of_list_ascii (ascii_of_N <$> cs))
      | Raise e => Raise e
      end
  end.

(** *** JSON *)

Local Open Scope nat_scope.
Local Open Scope char_scope.

Definition hex4 (n : N) : list ascii :=
  [hex_digit (n / 4096 mod 16); hex_digit (n / 256 mod 16);
   hex_digit (n / 16 mod 16); hex_digit (n mod 16)]%N.

(** [json.dumps] with [ensure_ascii]: the quote, the backslash and every
    character outside [' '..'~'] are escaped. *)
Definition escape_char (c : ascii) : list ascii :=
  let n := N_of_ascii c in
  if decide (n = 34)%N then ["\"; "034"]
  else if decide (n = 92)%N then ["\"; "\"]
  else if decide (n = 10)%N then ["\"; "n"]
  else if decide (n = 13)%N then ["\"; "r"]
  else if decide (n = 9)%N then ["\"; "t"]
  else if decide (n = 8)%N then ["\"; "b"]
  else if decide (n = 12)%N then ["\"; "f"]
  else if decide (32 <= n <= 126)%N then [c]
  else "\" :: "u" :: hex4 n.

Definition quote (s : string) : list ascii :=
  "034" :: (list_ascii_of_string s ≫= escape_char) ++ ["034"].

Fixpoint insert_sorted (kv : string * json) (d : dict) : dict :=
  match d with
  | [] => [kv]
  | kv' :: d' =>
      if String.leb kv.1 kv'.1 then kv :: d else kv' :: insert_sorted kv d'
  end.

Definition sort_items (d : dict) : dict := foldr insert_sorted [] d.

(** The digits of [a / 2^k] as a decimal with a fractional part. *)
Definition dyadic_decimal (a k : Z) : list ascii :=
  let scaled := (Z.abs a * 5 ^ k)%Z in
  let digits := list_ascii_of_string (pretty scaled) in
  let digits := replicate (S (Z.to_nat k) - length digits) "0" ++ digits in
  let int_part := take (length digits - Z.to_nat k) digits in
  let frac := drop (length digits - Z.to_nat k) digits in
  (if decide (a < 0)%Z then ["-"] else []) ++ int_part ++ "." ::
  (if decide (frac = []) then ["0"] else frac).

(** [sort_keys=True]: the items of every dict in key order. *)
Fixpoint sort_keys (v : json) : json :=
  match v with
  | JList l =>
      JList ((fix go (l : list json) : list json :=
                match l with
                | [] => []
                | x :: l' => sort_keys x :: go l'
                end) l)
  | JDict d =>
      JDict (sort_items
               ((fix go (d : dict) : dict :=
                   match d with
                   | [] => []
                   | (k, x) :: d' => (k, sort_keys x) :: go d'
                   end) d))
  | _ => v
  end.

Fixpoint dumps (compact : bool) (v : json) : list ascii :=
  let item_sep := if compact then [","] else [","; " "] in
  let key_sep := if compact then [":"] else [":"; " "] in
  match v with
  | JNull => list_ascii_of_string "null"
  | JBool true => list_ascii_of_string "true"
  | JBool false => list_ascii_of_string "false"
  | JInt n => list_ascii_of_string (pretty n)
  | JFloat m e =>
      if decide (0 <= e)%Z then dyadic_decimal (m * 2 ^ e) 0 else dyadic_decimal m (- e)
  | JStr s => quote s
  | JList l =>
      "[" ::
      (fix go (l : list json) : list ascii :=
         match l with
         | [] => []
         | [x] => dumps compact x
         | x :: l' => dumps compact x ++ item_sep ++ go l'
         end) l ++ ["]"]
  | JDict d =>
      "{" ::
      (fix go (d : dict) : list ascii :=
         match d with
         | [] => []
         | [(k, x)] => quote k ++ key_sep ++ dumps compact x
         | (k, x) :: d' => quote k ++ key_sep ++ dumps compact x ++ item_sep ++ go d'
         end) d ++ ["}"]
  end.

Definition json_dumps (sorted compact : bool) (v : json) : string :=
  string_of_list_ascii (dumps compact (if sorted then sort_keys v else v)).

(** The parser: objects, arrays, strings, integers and the three
    literals. What is not JSON raises a [JSONDecodeError]; a float literal,
    [NaN], [Infinity] and a [\u] escape above 255 are reported in the same
    way: they do not occur in what the module writes. As in CPython, an
    integer literal of more than 4300 digits raises a [ValueError]. *)

Definition syntax_error {A} (msg : string) : outcome exn A :=
  Raise (Exn JSONDecodeError msg).

Definition is_ws (c : ascii) : bool :=
  bool_decide (c = " " \/ c = "009" \/ c = "010" \/ c = "013").

Fixpoint skip_ws (s : list ascii) : list ascii :=
  match s with
  | c :: s' => if is_ws c then skip_ws s' else s
  | [] => []
  end.

Definition hex_value (c : ascii) : option N :=
  let n := N_of_ascii c in
  if decide (48 <= n <= 57)%N then Some (n - 48)%N
  else if decide (97 <= n <= 102)%N then Some (n - 87)%N
  else if decide (65 <= n <= 70)%N then Some (n - 55)%N
  else None.

(** The rest of a string after its opening quote; [acc] is reversed. *)
Fixpoint parse_string (s acc : list ascii) : outcome exn (string * list ascii) :=
  match s with
  | [] => syntax_error "Unterminated string"%string
  | "034" :: s' => Return (string_of_list_ascii (reverse acc), s')
  | "\" :: "034" :: s' => parse_string s' ("034" :: acc)
  | "\" :: "\" :: s' => parse_string s' ("\" :: acc)
  | "\" :: "/" :: s' => parse_string s' ("/" :: acc)
  | "\" :: "b" :: s' => parse_string s' ("008" :: acc)
  | "\" :: "f" :: s' => parse_string s' ("012" :: acc)
  | "\" :: "n" :: s' => parse_string s' ("010" :: acc)
  | "\" :: "r" :: s' => parse_string s' ("013" :: acc)
  | "\" :: "t" :: s' => parse_string s' ("009" :: acc)
  | "\" :: "u" :: a :: b :: c :: d :: s' =>
      match hex_value a, hex_value b, hex_value c, hex_value d with
      | Some 0%N, Some 0%N, Some x, Some y =>
          parse_string s' (ascii_of_N (x * 16 + y) :: acc)
      | Some _, Some _, Some _, Some _ => syntax_error "\u escape above 255"%string
      | _, _, _, _ => syntax_error "Invalid \uXXXX escape"%string
      end
  | "\" :: _ => syntax_error "Invalid \escape"%string
  | c :: s' =>
      if decide (N_of_ascii c < 32)%N then syntax_error "Invalid control character"%string
      else parse_string s' (c :: acc)
  end.

Definition is_digit (c : ascii) : bool := bool_decide (48 <= N_of_ascii c <= 57)%N.

Fixpoint parse_digits (s : list ascii) (acc : Z) : Z * list ascii :=
  match s with
  | c :: s' =>
      if is_digit c then parse_digits s' (acc * 10 + Z.of_N (N_of_ascii c - 48))%Z
      else (acc, s)
  | [] => (acc, [])
  end.

(** [sys.get_int_max_str_digits()], and the [ValueError] of [int] for a
    literal with more digits. *)
Definition int_max_str_digits : nat := 4300.

Definition too_many_digits (digits : nat) : exn :=
  Exn ValueError
      ("Exceeds the limit (" ++ pretty int_max_str_digits ++
       " digits) for integer string conversion: value has " ++ pretty digits ++
       " digits; use sys.set_int_max_str_digits() to increase the limit")%string.

(** An optional minus sign and an integer without leading zeros, not
    followed by a fraction or an exponent. *)
Definition parse_number (s : list ascii) : outcome exn (json * list ascii) :=
  let '(neg, s1) := match s with "-" :: s' => (true, s') | _ => (false, s) end in
  match s1 with
  | c :: s2 =>
      if is_digit c then
        let '(n, rest) := if decide (c = "0") then (0%Z, s2) else parse_digits s1 0 in
        match rest with
        | "." :: _ | "e" :: _ | "E" :: _ => syntax_error "float literal"%string
        | _ =>
            let digits := length s1 - length rest in
            if decide (int_max_str_digits < digits) then Raise (too_many_digits digits)
            else Return (JInt (if neg then - n else n), rest)
        end
      else syntax_error "Expecting value"%string
  | [] => syntax_error "Expecting value"%string
  end.

Fixpoint parse_value (fuel : nat) (s : list ascii) : outcome exn (json * list ascii) :=
  match fuel with
  | O => syntax_error "input too deep"%string
  | S fuel' =>
      match s with
      | "{" :: s' =>
          match skip_ws s' with
          | "}" :: rest => Return (JDict [], rest)
          | s'' => parse_members fuel' s'' []
          end
      | "[" :: s' =>
          match skip_ws s' with
          | "]" :: rest => Return (JList [], rest)
          | s'' => parse_elements fuel' s'' []
          end
      | "034" :: s' =>
          '(str, rest) ← parse_string s' []; Return (JStr str, rest)
      | "n" :: "u" :: "l" :: "l" :: rest => Return (JNull, rest)
      | "t" :: "r" :: "u" :: "e" :: rest => Return (JBool true, rest)
      | "f" :: "a" :: "l" :: "s" :: "e" :: rest => Return (JBool false, rest)
      | _ => parse_number s
      end
  end
with parse_members (fuel : nat) (s : list ascii) (acc : dict)
  : outcome exn (json * list ascii) :=
  match fuel with
  | O => syntax_error "input too deep"%string
  | S fuel' =>
      match s with
      | "034" :: s' =>
          '(key, s1) ← parse_string s' [];
          match skip_ws s1 with
          | ":" :: s2 =>
              '(v, s3) ← parse_value fuel' (skip_ws s2);
              let acc := setitem acc key v in
              match skip_ws s3 with
              | "," :: s4 => parse_members fuel' (skip_ws s4) acc
              | "}" :: rest => Return (JDict acc, rest)
              | _ => syntax_error "Expecting ',' delimiter"%string
              end
          | _ => syntax_error "Expecting ':' delimiter"%string
          end
      | _ => syntax_error "Expecting property name enclosed in double quotes"%string
      end
  end
with parse_elements (fuel : nat) (s : list ascii) (acc : list json)
  : outcome exn (json * list ascii) :=
  match fuel with
  | O => syntax_error "input too deep"%string
  | S fuel' =>
      '(v, s1) ← parse_value fuel' s;
      match skip_ws s1 with
      | "," :: s2 => parse_elements fuel' (skip_ws s2) (acc ++ [v])
      | "]" :: rest => Return (JList (acc ++ [v]), rest)
      | _ => syntax_error "Expecting ',' delimiter"%string
      end
  end.

Definition json_loads (s : string) : outcome exn json :=
  let cs := list_ascii_of_string s in
  '(v, rest) ← parse_value (S (length cs)) (skip_ws cs);
  match skip_ws rest with
  | [] => Return v
  | _ => syntax_error "Extra data"%string
  end.

Local Close Scope char_scope.

(** *** Paths and document readers *)

(** [os.path.basename] and the extension of [os.path.splitext], for POSIX
    paths. *)
Fixpoint after_last (sep : ascii) (s : list ascii) (cur : list ascii) : list ascii :=
  match s with
  | [] => cur
  | c :: s' => if decide (c = sep) then after_last sep s' s' else after_last sep s' cur
  end.

Definition basename (path : string) : string :=
  let cs := list_ascii_of_string path in
  string_of_list_ascii (after_last "/"%char cs cs).

Fixpoint strip_dots (s : list ascii) : list ascii :=
  match s with
  | c :: s' => if decide (c = "."%char) then strip_dots s' else s
  | [] => []
  end.

Definition split_ext (path : string) : string * string :=
  let cs := list_ascii_of_string path in
  let base := strip_dots (after_last "/"%char cs cs) in
  let ext := after_last "."%char base [] in
  if decide (ext = [] /\ (base = [] \/ last base <> Some "."%char))
  then (path, EmptyString)
  else
    let n := length ext + 1 in
    (string_of_list_ascii (take (length cs - n) cs),
     string_of_list_ascii (drop (length cs - n) cs)).

(** Readers for files that are no DOCX package and no PDF: the dicts of
    the [except] branches of [_extract_docx_metadata] and
    [_extract_pdf_metadata], whose ["error"] is [str(e)]. For a file that is
    no zip archive python-docx raises [PackageNotFoundError] with the text
    below; the text of PyMuPDF depends on its version, the one below stands
    for it. Both name the path. No example of this development reads a
    [.docx] or a [.pdf] file: their documents are [.txt] files, for which
    neither reader is called. *)
Definition no_docx (document_path : string) (content : bytes) : dict :=
  [("extraction_method", JStr "docx");
   ("error", JStr ("Package not found at '" ++ document_path ++ "'"))].

Definition no_pdf (document_path : string) (content : bytes) : dict :=
  [("extraction_method", JStr "pdf");
   ("error", JStr ("Failed to open file '" ++ document_path ++ "'."))].

Global Instance runtime : Runtime := {|
  Binder.json_dumps := json_dumps;
  Binder.json_loads := json_loads;
  Binder.b64encode := b64encode;
  Binder.b64decode := b64decode;
  Binder.str_encode := str_encode;
  Binder.bytes_decode := bytes_decode;
  Binder.sha256 := sha256;
  Binder.hmac_sha256 := hmac_sha256;
  Binder.basename := basename;
  Binder.splitext_ext := fun p => (split_ext p).2;
  Binder.docx_metadata := no_docx;
  Binder.pdf_metadata := no_pdf
|}.

(** *** Stand-ins for Pillow *)

(** Nearest-neighbour sampling at the pixel centres, and a threshold at
    half of the luma range in place of the dithering. *)
Definition resample (img : Lsb.image Z) (w h : nat) (f : Lsb.Resampling) : list Z :=
  (fun c : nat * nat =>
     default 255%Z
       (Lsb.getpixel img ((2 * c.1 + 1) * Lsb.width img / (2 * w))
                         ((2 * c.2 + 1) * Lsb.height img / (2 * h))))
  <$> Lsb.scan 0 h w.

Definition dither (img : Lsb.image (Z * Z * Z)) : list Z :=
  (fun p : Z * Z * Z =>
     if decide (p.1.1 * 299 + p.1.2 * 587 + p.2 * 114 < 128000)%Z then 0%Z else 255%Z)
  <$> Lsb.pixels img.

Definition splitext_root (path : string) : string := (split_ext path).1.

End Reference.

(** ** Example data *)

Module Examples.
Import Binder.

Definition secret_key : bytes :=
  Reference.bytes_of_string "0123456789abcdef0123456789abcdef".

Definition uuid_a : string := "11111111-2222-4333-8444-555555555555".
Definition uuid_b : string := "66666666-7777-4888-9999-aaaaaaaaaaaa".

Definition docs : documents :=
  <["/tmp/report.txt" := Document (Reference.bytes_of_string "hello") 1700000000]> ∅.

(** A fingerprint as [generate_document_fingerprint] makes it, reduced to
    the two fields the token service reads. *)
Definition fingerprint : dict :=
  [("document_id", JStr uuid_a);
   ("fingerprint_hash",
    JStr "9d5a918905d6ce82bc595e00057d05e1004559dc9b208732788237ef2b8ff76c")].

(** A 7 x 6 cover, a 43 x 1 cover and a 2 x 1 payload, black then white. *)
Definition cover (w h : nat) : Lsb.image (Z * Z * Z) :=
  Lsb.Image w h (replicate (h * w) (10, 20, 31)%Z).

Definition payload : Lsb.image Z := Lsb.Image 2 1 [0; 255]%Z.

Definition folder (w h : nat) : gmap string Lsb.file :=
  <["cover.png" := Lsb.ImageFile (Lsb.PicRGB (cover w h))]>
    (<["qr.png" := Lsb.ImageFile (Lsb.Pic1 payload)]> ∅).

End Examples.

(** ** Further example data *)

Module MoreExamples.
Import Lsb.

(** A 48 x 1 image that carries the header of a 2 x 1 payload and the bits
    ['1'], ['0'] in its first 42 pixels. *)
Definition carrier : image (Z * Z * Z) :=
  Image 48 1 (write_bits (header 2 1 ++ list_ascii_of_string "10")
                         (pixels (Examples.cover 48 1))).

End MoreExamples.

(** ** The key file and the binding storage of document_security.py,
       and SecureQRGenerator.pre_register_document *)

Module Storage.
Import Binder.

Definition HMAC_KEY_LENGTH : nat := 32.

(** *** DocumentBinder._load_or_generate_key, lines 59-80 *)

(** What is found at a path: a file that can be read, with its bytes, or
    something that exists and cannot be read (a directory, a file without
    permission), with the text of the [OSError] that [open] raises. *)
Inductive entry :=
| KeyFile (content : bytes)
| Unreadable (oserror : string).

Abbreviation key_files := (gmap string entry).

Section KeyFile.

(** [open(path, 'wb')]: the file can be created or truncated, or the
    [OSError] with this text is raised. *)
Variable open_wb : string -> outcome string ().

(** [token_bytes] is the draw of [secrets.token_bytes(HMAC_KEY_LENGTH)],
    used when a key is generated. *)
Definition _load_or_generate_key (fs : key_files) (key_file_path : string)
    (token_bytes : bytes) : result bytes * key_files :=
  let failed (msg : string) :=
    Raise (Exn DocumentSecurityError ("Failed to initialize security key: " ++ msg)) in
  let generate :=
    match open_wb key_file_path with
    | Return _ => (Return token_bytes, <[key_file_path := KeyFile token_bytes]> fs)
    | Raise msg => (failed msg, fs)
    end in
  match fs !! key_file_path with
  | Some (KeyFile key) =>
      if decide (length key = HMAC_KEY_LENGTH) then (Return key, fs) else generate
  | Some (Unreadable msg) => (failed msg, fs)
  | None => generate
  end.

End KeyFile.

(** *** BindingStorage, lines 425-498 *)

(** The storage directory: the name of each file in it and its text. *)
Abbreviation storage := (gmap string string).

(** What the storage takes from the libraries and the file system:
    [json_dump_indent r] is the text [json.dump(r, f, indent=2)] writes,
    [open_w name] says whether [open(storage_dir / name, 'w')] succeeds
    (or gives the text of the error), [glob_json dir] is the listing
    [storage_dir.glob("*.json")] produces, in the directory's order, and
    [unlink name] says whether the file can be removed. Files are text
    files that can be read; a name stands for one file (no [.] or [..]
    segments, no links). *)
Class Disk := {
  json_dump_indent : json -> string;
  open_w : string -> outcome string ();
  glob_json : storage -> list string;
  unlink : string -> outcome string ()
}.

(** The names [glob("*.json")] matches: they end in [.json] and lie in the
    directory itself. *)
Definition is_json_name (name : string) : bool :=
  str_endswith name ".json" && negb (str_contains name "/").

(** The listing has each matching file of the directory once. *)
Definition lists_records `{Disk} : Prop :=
  forall dir : storage,
    NoDup (glob_json dir) /\
    forall name, name ∈ glob_json dir <-> is_Some (dir !! name) /\ is_json_name name = true.

(** [v < n] for an integer [n]; a [TypeError] unless [v] is a number. *)
Definition lt_int (v : json) (n : Z) : result bool :=
  match number v with
  | Some (x, k) => Return (bool_decide (x < n * 2 ^ k)%Z)
  | None => Raise (Exn TypeError "'<' not supported between instances of another type and 'int'")
  end.

(** [f"{v}"] for a [str]; other values do not occur where it is used. *)
Definition format_str (v : json) : result string :=
  match v with
  | JStr s => Return s
  | _ => Raise (Exn TypeError "not a str")
  end.

Section WithDisk.
Context `{Runtime} `{Disk}.

(** [storage_dir / f"{document_id}.json"]. *)
Definition record_file (document_id : string) : string := document_id ++ ".json".

(** [open(name, 'r')] and [f.read()]. *)
Definition read_text (dir : storage) (name : string) : result string :=
  match dir !! name with
  | Some text => Return text
  | None => Raise (Exn FileNotFoundError ("No such file or directory: " ++ name))
  end.

(** [json.load(f)] on the file [name]. *)
Definition load_json (dir : storage) (name : string) : result json :=
  text ← read_text dir name;
  json_loads text.

Definition save_binding_record (dir : storage) (document_id : string) (record : dict)
  : bool * storage :=
  match open_w (record_file document_id) with
  | Return _ => (true, <[record_file document_id := json_dump_indent (JDict record)]> dir)
  | Raise _ => (false, dir)
  end.

(** The test of lines 463-464 on a record read back. *)
Definition names_document (record : json) (document_id : string) : result bool :=
  fingerprint ← attr_get record "document_fingerprint" (JDict []);
  id ← attr_get fingerprint "document_id" JNull;
  if py_eq id (JStr document_id) then Return true
  else
    fingerprint ← attr_get record "document_fingerprint" (JDict []);
    id ← attr_get fingerprint "fingerprint_id" JNull;
    Return (py_eq id (JStr document_id)).

(** The loop of lines 458-467 over the listing. *)
Fixpoint scan_records (dir : storage) (existing_files : list string) (document_id : string)
  : option json :=
  match existing_files with
  | [] => None
  | existing_file :: rest =>
      match (record ← load_json dir existing_file;
             found ← names_document record document_id;
             Return (record, found)) with
      | Return (record, true) => Some record
      | _ => scan_records dir rest document_id
      end
  end.

Definition load_binding_record (dir : storage) (document_id : string) : option json :=
  match dir !! record_file document_id with
  | Some _ =>
      match load_json dir (record_file document_id) with
      | Return record => Some record
      | Raise _ => None
      end
  | None => scan_records dir (glob_json dir) document_id
  end.

(** [record.get("expires_at", 0) < current_time]. *)
Definition is_expired (record : json) (current_time : Z) : result bool :=
  expires_at ← attr_get record "expires_at" (JInt 0);
  lt_int expires_at current_time.

(** The body of the [try] of lines 481-488 for one file: [True] when the
    file was removed, an exception when something in it raised. *)
Definition remove_if_expired (dir : storage) (file : string) (current_time : Z)
  : result bool :=
  record ← load_json dir file;
  expired ← is_expired record current_time;
  if (expired : bool) then
    _ ← raising FileNotFoundError (unlink file);
    Return true
  else Return false.

(** The loop of lines 480-490: the files still to visit, the directory and
    the count so far. An exception is logged and the loop goes on. *)
Fixpoint cleanup_loop (record_files : list string) (current_time : Z)
    (dir : storage) (cleaned_count : Z) : Z * storage :=
  match record_files with
  | [] => (cleaned_count, dir)
  | file :: rest =>
      match remove_if_expired dir file current_time with
      | Return true => cleanup_loop rest current_time (delete file dir) (cleaned_count + 1)
      | _ => cleanup_loop rest current_time dir cleaned_count
      end
  end.

(** [current_time] is the reading of [int(time.time())]. *)
Definition cleanup_expired_records (dir : storage) (current_time : Z) : Z * storage :=
  cleanup_loop (glob_json dir) current_time dir 0.

(** *** SecureQRGenerator.pre_register_document, lines 184-250 *)

Definition preregistration_record (fingerprint : dict) (qr_data binding_token : string)
    (expiry_hours created_clock expires_clock : Z) : dict :=
  [("document_fingerprint", JDict fingerprint);
   ("qr_data", JStr qr_data);
   ("binding_token", JStr binding_token);
   ("status", JStr "pre_registered");
   ("created_at", JInt created_clock);
   ("expires_at", JInt (expires_clock + expiry_hours * 3600));
   ("qr_generated", JBool false)].

(** [secret_key] is the key of the generator's binder; [uuid4] and
    [fingerprint_clock] are drawn and read by the fingerprint,
    [issued_clock] and [token_clock] by the token, [created_clock] and
    [expires_clock] are the two readings of lines 214 and 215. The answer
    of [save_binding_record] is not looked at. *)
Definition pre_register_document (secret_key : bytes) (docs : documents) (dir : storage)
    (document_path qr_data : string) (expiry_hours : Z) (uuid4 : string)
    (fingerprint_clock issued_clock token_clock created_clock expires_clock : Z)
  : dict * storage :=
  let failure (e : exn) : dict := [("success", JBool false); ("error", JStr (exn_str e))] in
  match
    (fingerprint ← generate_document_fingerprint docs document_path uuid4 fingerprint_clock;
     binding_token ← generate_binding_token secret_key fingerprint qr_data expiry_hours
                                            issued_clock token_clock;
     let record := preregistration_record fingerprint qr_data binding_token expiry_hours
                                          created_clock expires_clock in
     document_id ← getitem fingerprint "document_id";
     id ← format_str document_id;
     Return (fingerprint, binding_token, record, document_id, id))
  with
  | Raise e => (failure e, dir)
  | Return (fingerprint, binding_token, record, document_id, id) =>
      let dir' := (save_binding_record dir ("prereg_" ++ id) record).2 in
      let result : result dict :=
        file_info ← getitem fingerprint "file_info";
        filename ← subscript file_info "name";
        size ← subscript file_info "size";
        document_type ← subscript file_info "extension";
        expires_at ← getitem record "expires_at";
        Return
          [("success", JBool true);
           ("registration_id", document_id);
           ("document_uuid", document_id);
           ("binding_token", JStr binding_token);
           ("document_info", JDict [("document_id", document_id);
                                    ("filename", filename);
                                    ("size", size);
                                    ("document_type", document_type)]);
           ("expires_at", expires_at);
           ("instructions",
            JDict [("next_step", JStr "Use the binding_token when generating QR code");
                   ("api_endpoint", JStr "/generate_qr_with_token")])] in
      match result with
      | Return r => (r, dir')
      | Raise e => (failure e, dir')
      end
  end.

End WithDisk.

End Storage.

(** ** A reference file system for the binding storage *)

Module ReferenceDisk.
Import Binder Storage.

Local Open Scope char_scope.

Definition newline_indent (level : nat) : list ascii :=
  "010" :: replicate (2 * level) " ".

(** [json.dumps(v, indent=2)]: every item on a line of its own, two spaces
    per level, [", "] replaced by [","] and a newline; an empty list or
    dict stays on one line. *)
Fixpoint dumps_indent (level : nat) (v : json) : list ascii :=
  match v with
  | JList [] => ["["; "]"]
  | JDict [] => ["{"; "}"]
  | JList l =>
      "[" :: newline_indent (S level) ++
      (fix go (l : list json) : list ascii :=
         match l with
         | [] => []
         | [x] => dumps_indent (S level) x
         | x :: l' => dumps_indent (S level) x ++ "," :: newline_indent (S level) ++ go l'
         end) l ++ newline_indent level ++ ["]"]
  | JDict d =>
      "{" :: newline_indent (S level) ++
      (fix go (d : dict) : list ascii :=
         match d with
         | [] => []
         | [(k, x)] => Reference.quote k ++ ":" :: " " :: dumps_indent (S level) x
         | (k, x) :: d' =>
             Reference.quote k ++ ":" :: " " :: dumps_indent (S level) x ++
             "," :: newline_indent (S level) ++ go d'
         end) d ++ newline_indent level ++ ["}"]
  | _ => Reference.dumps false v
  end.

Local Close Scope char_scope.

Definition json_dump_indent (v : json) : string := string_of_list_ascii (dumps_indent 0 v).

(** The matching files of the directory, in the order of their names'
    encoding in the map. *)
Definition glob_json (dir : storage) : list string :=
  filter (fun name => is_json_name name = true) (map_to_list dir).*1.

(** A directory in which every file can be written and removed. *)
Definition disk : Disk := {|
  Storage.json_dump_indent := json_dump_indent;
  Storage.open_w := fun _ => Return ();
  Storage.glob_json := glob_json;
  Storage.unlink := fun _ => Return ()
|}.

(** A directory in which nothing can be written or removed. *)
Definition read_only : Disk := {|
  Storage.json_dump_indent := json_dump_indent;
  Storage.open_w := fun name => Raise ("[Errno 30] Read-only file system: " ++ name)%string;
  Storage.glob_json := glob_json;
  Storage.unlink := fun name => Raise ("[Errno 30] Read-only file system: " ++ name)%string
|}.

(** The key file can be written. *)
Definition open_wb (path : string) : outcome string () := Return ().

(** Three records and a file that is no record, for the clock at 5000. *)
Definition records : storage :=
  <["old.json" := json_dump_indent (JDict [("expires_at", JInt 4000)])]>
    (<["new.json" := json_dump_indent (JDict [("expires_at", JInt 5000)])]>
       (<["undated.json" := json_dump_indent (JDict [("qr_data", JStr "x")])]>
          (<["notes.txt" := json_dump_indent (JDict [("expires_at", JInt 1)])]>
             (<["broken.json" := "{"]> ∅)))).

End ReferenceDisk.

(** ** The capacity analysis of qr_utils.py *)

From Stdlib Require Floats Uint63.

Module QrUtils.

(** *** Numbers *)

(** A Python number that is an [int] or a [float]; floats are IEEE 754
    binary64, as Python's. *)
Inductive number :=
| NInt (n : Z)
| NFloat (f : PrimFloat.float).

(** [float(n)], exact for [0 <= n < 2^53]. *)
Definition of_Z (n : Z) : PrimFloat.float := PrimFloat.of_uint63 (Uint63.of_Z n).

(** [a / b] on integers between 0 and [2^53]: the quotient of the two
    floats, rounded once. *)
Definition true_div (a b : Z) : PrimFloat.float := PrimFloat.div (of_Z a) (of_Z b).

(** [x <= n] and [x >= n] for an integer [n]. *)
Definition le_int (x : number) (n : Z) : bool :=
  match x with
  | NInt m => bool_decide (m <= n)%Z
  | NFloat f => PrimFloat.leb f (of_Z n)
  end.

Definition ge_int (x : number) (n : Z) : bool :=
  match x with
  | NInt m => bool_decide (n <= m)%Z
  | NFloat f => PrimFloat.leb (of_Z n) f
  end.

(** [d.get(k)] on a dict kept as the list of its items. *)
Fixpoint assoc {K A} `{EqDecision K} (d : list (K * A)) (k : K) : option A :=
  match d with
  | [] => None
  | (k', v) :: d' => if decide (k' = k) then Some v else assoc d' k
  end.

(** *** The capacity tables, lines 17-54 *)

Abbreviation capacity_row := (list (string * Z)).
Abbreviation capacity_table := (list (Z * capacity_row)).

Definition row (l m q h : Z) : capacity_row := [("L", l); ("M", m); ("Q", q); ("H", h)].

Definition QR_CAPACITY_NUMERIC : capacity_table :=
  [(1, row 41 34 27 17); (2, row 77 63 48 34); (3, row 127 101 77 58);
   (4, row 187 149 111 82); (5, row 255 202 144 106); (6, row 322 255 178 139);
   (7, row 370 293 207 154); (8, row 461 365 259 202); (9, row 552 432 312 235);
   (10, row 652 513 364 288)]%Z.

Definition QR_CAPACITY_ALPHANUMERIC : capacity_table :=
  [(1, row 25 20 16 10); (2, row 47 38 29 20); (3, row 77 61 47 35);
   (4, row 114 90 67 50); (5, row 154 122 87 64); (6, row 195 154 108 84);
   (7, row 224 178 125 93); (8, row 279 221 157 122); (9, row 335 262 189 143);
   (10, row 395 311 221 174)]%Z.

Definition QR_CAPACITY_BYTE : capacity_table :=
  [(1, row 17 14 11 7); (2, row 32 26 20 14); (3, row 53 42 32 24);
   (4, row 78 62 46 34); (5, row 106 84 60 44); (6, row 134 106 74 58);
   (7, row 154 122 86 64); (8, row 192 152 108 84); (9, row 230 180 130 98);
   (10, row 271 213 151 119)]%Z.

(** The error correction levels, in the order of line 174. *)
Definition levels : list string := ["L"; "M"; "Q"; "H"].

(** *** The helpers, lines 468-608 *)

Definition ALPHANUMERIC_CHARS : string := "0123456789ABCDEFGHIJKLMNOPQRSTUVWXYZ $%*+-./:=".

(** [c in s] for a character [c]. *)
Definition char_in (c : ascii) (s : string) : bool :=
  bool_decide (c ∈ list_ascii_of_string s).

Definition _get_capacity_table (data_mode : string) : capacity_table :=
  let tables := [("numeric", QR_CAPACITY_NUMERIC);
                 ("alphanumeric", QR_CAPACITY_ALPHANUMERIC);
                 ("byte", QR_CAPACITY_BYTE)] in
  default QR_CAPACITY_BYTE (assoc tables data_mode).

(** [capacity_table[version].get(error_correction, 0)] when [version] is in
    the table. *)
Definition capacity_at (capacity_table : capacity_table) (version : Z)
    (error_correction : string) : option Z :=
  row ← assoc capacity_table version;
  Some (default 0%Z (assoc row error_correction)).

(** The loop of lines 488-492 over the versions still to try. *)
Fixpoint first_fitting (versions : list Z) (data_length : Z) (error_correction : string)
    (capacity_table : capacity_table) : option Z :=
  match versions with
  | [] => None
  | version :: rest =>
      match capacity_at capacity_table version error_correction with
      | Some capacity =>
          if decide (data_length <= capacity)%Z then Some version
          else first_fitting rest data_length error_correction capacity_table
      | None => first_fitting rest data_length error_correction capacity_table
      end
  end.

(** [range(1, 11)]. *)
Definition versions_1_10 : list Z := seqZ 1 10.

Definition _find_minimum_version (data_length : Z) (error_correction : string)
    (capacity_table : capacity_table) : option Z :=
  first_fitting versions_1_10 data_length error_correction capacity_table.

(** An entry of [version_analysis]. *)
Record level_analysis := LevelAnalysis {
  minimum_version : option Z;
  capacity : Z;
  usage_percent : number;
  recommended : bool
}.

(** The truth value of an optional integer and of an optional string. *)
Definition truthy_int (v : option Z) : bool :=
  match v with
  | Some n => negb (bool_decide (n = 0%Z))
  | None => false
  end.

Definition truthy_str (v : option string) : bool :=
  match v with
  | Some s => negb (bool_decide (s = EmptyString))
  | None => false
  end.

(** The second loop of [_recommend_error_correction] (lines 507-511):
    [min_version] starts as [float('inf')], here [None]. *)
Definition lowest_version (version_analysis : list (string * level_analysis))
  : option Z * option string :=
  foldl (fun (acc : option Z * option string) (item : string * level_analysis) =>
           let '(min_version, best_level) := acc in
           let '(ec_level, analysis) := item in
           match minimum_version analysis with
           | Some v =>
               if negb (bool_decide (v = 0%Z)) &&
                  match min_version with
                  | Some m => bool_decide (v < m)%Z
                  | None => true
                  end
               then (Some v, Some ec_level)
               else acc
           | None => acc
           end)
        (None, None) version_analysis.

Definition _recommend_error_correction (version_analysis : list (string * level_analysis))
  : option string :=
  let priority_order := ["M"; "Q"; "L"; "H"] in
  match
    List.find (fun ec_level =>
                 match assoc version_analysis ec_level with
                 | Some analysis => recommended analysis
                 | None => false
                 end) priority_order
  with
  | Some ec_level => Some ec_level
  | None => (lowest_version version_analysis).2
  end.

(** The dict of [_analyze_steganography_compatibility]: the short one of
    lines 517-522, or the one of lines 565-572. *)
Inductive stego_analysis :=
| NoQr
| Stego (compatibility_score : PrimFloat.float) (level : string)
        (length_score size_score estimated_pixels : Z) (concerns : list string).

(** ['compatibility_score'] of either dict. *)
Definition score_of (s : stego_analysis) : number :=
  match s with
  | NoQr => NInt 0
  | Stego score _ _ _ _ _ => NFloat score
  end.

(** The messages of [_generate_recommendations], in the order of the
    source: four about the length (lines 580-587), one that names the
    recommended level and its long name (line 598), three about the score
    (lines 601-606). *)
Inductive recommendation :=
| LengthOptimal
| LengthGood
| LengthShorten
| LengthTooLong
| UseLevel (ec name : string)
| StegoVeryGood
| StegoGood
| StegoLargeImage.

Section WithPython.

(** [str.isdigit], [str.upper] and [round(x, 1)] of Python. *)
Variable isdigit : string -> bool.
Variable upper : string -> string.
Variable round1 : PrimFloat.float -> PrimFloat.float.

Definition _determine_data_mode (data : string) : string :=
  if isdigit data then "numeric"
  else if forallb (fun c => char_in c ALPHANUMERIC_CHARS) (list_ascii_of_string (upper data))
  then "alphanumeric"
  else "byte".

(** [round(x, 1)]: an [int] is returned as it is. *)
Definition round_number (x : number) : number :=
  match x with
  | NInt n => NInt n
  | NFloat f => NFloat (round1 f)
  end.

(** The entry of one error correction level, lines 177-194. *)
Definition analyze_level (data_length : Z) (ec_level : string)
    (capacity_table : capacity_table) : level_analysis :=
  let min_version := _find_minimum_version data_length ec_level capacity_table in
  if truthy_int min_version then
    let capacity :=
      default 0%Z (assoc (default [] (min_version ≫= assoc capacity_table)) ec_level) in
    let usage_percent :=
      if decide (0 < capacity)%Z
      then NFloat (PrimFloat.mul (true_div data_length capacity) (of_Z 100))
      else NInt 100 in
    {| minimum_version := min_version;
       capacity := capacity;
       usage_percent := round_number usage_percent;
       recommended := le_int usage_percent 80 |}
  else
    {| minimum_version := None;
       capacity := 0;
       usage_percent := NInt 100;
       recommended := false |}.

(** Whether the entry of a level is recommended exactly when it has a version
    and five times the length is at most four times its capacity. *)
Definition recommended_at_80 (table : capacity_table) (ec : string) (data_length : Z) : bool :=
  let e := analyze_level data_length ec table in
  bool_decide (recommended e =
               match minimum_version e with
               | Some _ => bool_decide (5 * data_length <= 4 * capacity e)%Z
               | None => false
               end).

Definition _analyze_steganography_compatibility (data_length : Z) (qr_version : option Z)
  : stego_analysis :=
  match qr_version with
  | Some version =>
      if bool_decide (version = 0%Z) then NoQr
      else
        let module_count := (17 + 4 * version)%Z in
        let estimated_pixels := ((module_count * 10 + 8) ^ 2)%Z in
        let '(length_score, concerns) :=
          if decide (data_length <= 50)%Z then (90%Z, [])
          else if decide (data_length <= 100)%Z then (75%Z, [])
          else if decide (data_length <= 200)%Z
          then (60%Z, ["Data agak panjang, mungkin mempengaruhi kualitas embedding"])
          else (30%Z, ["Data terlalu panjang untuk steganografi optimal"]) in
        let '(size_score, concerns) :=
          if decide (version <= 3)%Z then (95%Z, concerns)
          else if decide (version <= 5)%Z then (80%Z, concerns)
          else if decide (version <= 7)%Z
          then (65%Z, concerns ++ ["QR code berukuran sedang, perhatikan ukuran gambar target"])
          else (40%Z, concerns ++ ["QR code besar, mungkin sulit disembunyikan"]) in
        let compatibility_score := true_div (length_score + size_score) 2 in
        let level :=
          if ge_int (NFloat compatibility_score) 85 then "Excellent"
          else if ge_int (NFloat compatibility_score) 70 then "Good"
          else if ge_int (NFloat compatibility_score) 50 then "Fair"
          else "Poor" in
        Stego (round1 compatibility_score) level length_score size_score estimated_pixels
              concerns
  | None => NoQr
  end.

(** [ec_names[recommended_ec]] raises a [KeyError] for a level that has no
    name; its text is the key in quotes. *)
Definition _generate_recommendations (data_length : Z)
    (version_analysis : list (string * level_analysis)) (stego : stego_analysis)
  : outcome string (list recommendation) :=
  let about_length :=
    if decide (data_length <= 50)%Z then LengthOptimal
    else if decide (data_length <= 100)%Z then LengthGood
    else if decide (data_length <= 200)%Z then LengthShorten
    else LengthTooLong in
  let recommended_ec : option string :=
    fst <$> List.find (fun item : string * level_analysis => recommended item.2)
                      version_analysis in
  let ec_names : list (string * string) :=
    [("L", "Low"); ("M", "Medium"); ("Q", "Quartile"); ("H", "High")] in
  about_level ←
    match recommended_ec with
    | Some ec =>
        if truthy_str recommended_ec then
          match assoc ec_names ec with
          | Some name => Return [UseLevel ec name]
          | None => Raise ("'" ++ ec ++ "'")%string
          end
        else Return []
    | None => Return []
    end;
  let about_score :=
    if ge_int (score_of stego) 85 then StegoVeryGood
    else if ge_int (score_of stego) 70 then StegoGood
    else StegoLargeImage in
  Return (about_length :: about_level ++ [about_score]).

(** The dict [analyze_qr_requirements] returns: the analysis, or the one
    of the [except] branch, which has the text of the exception, the length
    of the data and one fixed recommendation. *)
Inductive requirements :=
| Requirements (data_length : Z) (data_mode : string)
    (recommended_version : option Z) (recommended_error_correction : option string)
    (version_analysis : list (string * level_analysis))
    (steganography_analysis : stego_analysis) (steganography_compatible : bool)
    (recommendations : list recommendation)
| Failed (error : string) (data_length : Z).

Definition analyze_qr_requirements (data : string) : requirements :=
  if decide (data = EmptyString) then Failed "Data tidak boleh kosong" 0
  else
    let data_length := Z.of_nat (String.length data) in
    let data_mode := _determine_data_mode data in
    let capacity_table := _get_capacity_table data_mode in
    let version_analysis : list (string * level_analysis) :=
      (fun ec_level : string =>
         (ec_level, analyze_level data_length ec_level capacity_table))
      <$> levels in
    let recommended_ec := _recommend_error_correction version_analysis in
    let recommended_version : option Z :=
      if truthy_str recommended_ec
      then analysis ← recommended_ec ≫= assoc version_analysis; minimum_version analysis
      else Some 1%Z in
    let stego_analysis := _analyze_steganography_compatibility data_length recommended_version in
    match _generate_recommendations data_length version_analysis stego_analysis with
    | Return recommendations =>
        Requirements data_length data_mode recommended_version recommended_ec
                     version_analysis stego_analysis
                     (ge_int (score_of stego_analysis) 70) recommendations
    | Raise error => Failed error data_length
    end.

(** [capacity_check.get('recommended_version')] as a condition, line 77 of
    secure_qr_utils.py. *)
Definition has_recommended_version (capacity_check : requirements) : bool :=
  match capacity_check with
  | Requirements _ _ recommended_version _ _ _ _ _ => truthy_int recommended_version
  | Failed _ _ => false
  end.

End WithPython.

End QrUtils.

(** ** Reference string methods for the capacity analysis, on ASCII text *)

Module ReferenceQr.

(** [str.isdigit]: not empty, and every character is a digit. *)
Definition isdigit (s : string) : bool :=
  negb (bool_decide (s = EmptyString)) &&
  forallb (fun c => bool_decide (48 <= nat_of_ascii c <= 57)) (list_ascii_of_string s).

Definition ascii_upper (c : ascii) : ascii :=
  let n := nat_of_ascii c in
  if decide (97 <= n <= 122) then ascii_of_nat (n - 32) else c.

(** [str.upper]. *)
Definition upper (s : string) : string :=
  string_of_list_ascii (ascii_upper <$> list_ascii_of_string s).

(** [round(x, 1)] on the floats that have at most one decimal. *)
Definition round1 (f : PrimFloat.float) : PrimFloat.float := f.

End ReferenceQr.
(** * Facts about the bit codec and the embed / extract drivers *)

Module LsbFacts.
Import Lsb.

(** ** The scan order is the row-major order of the pixel indices *)

Lemma coord_row (w y x : nat) : x < w -> coord w (y * w + x) = (x, y).
Proof.
  intros Hx. unfold coord. f_equal.
  - rewrite Nat.add_comm, Nat.Div0.mod_add. by apply Nat.mod_small.
  - rewrite Nat.add_comm, Nat.div_add by lia. rewrite Nat.div_small; lia.
Qed.

Lemma scan_row (w y : nat) :
  (fun x => (x, y)) <$> seq 0 w = coord w <$> seq (y * w) w.
Proof.
  replace (y * w) with (y * w + 0) by lia.
  rewrite <- (fmap_add_seq (y * w) 0 w), <- list_fmap_compose.
  apply list_fmap_ext. intros i x Hx. simpl.
  apply lookup_seq in Hx as [-> Hlt]. simpl. by rewrite coord_row.
Qed.

Lemma scan_rows (w n y0 : nat) :
  (y ← seq y0 n; (fun x => (x, y)) <$> seq 0 w) = coord w <$> seq (y0 * w) (n * w).
Proof.
  revert y0. induction n as [|n IH]; intros y0; [done|].
  simpl seq. rewrite bind_cons, IH, scan_row.
  replace (S n * w) with (w + n * w) by lia.
  rewrite seq_app, fmap_app. do 3 f_equal. lia.
Qed.

Lemma scan_flat (y0 h w : nat) :
  scan y0 h w = coord w <$> seq (y0 * w) ((h - y0) * w).
Proof. apply scan_rows. Qed.

Lemma scan_all (h w : nat) : scan 0 h w = coord w <$> seq 0 (h * w).
Proof. rewrite scan_flat. simpl. by rewrite Nat.sub_0_r. Qed.

(** ** Pixel access through the row-major index *)

Lemma coord_index (w i : nat) : 0 < w -> (coord w i).2 * w + (coord w i).1 = i.
Proof.
  intros Hw. unfold coord. simpl.
  pose proof (Nat.div_mod_eq i w). lia.
Qed.

Lemma getpixel_coord {A} (img : image A) (i : nat) :
  0 < width img ->
  getpixel img (coord (width img) i).1 (coord (width img) i).2 = pixels img !! i.
Proof.
  intros Hw. unfold getpixel.
  rewrite decide_True by (simpl; apply Nat.mod_upper_bound; lia).
  by rewrite coord_index.
Qed.

Lemma putpixel_coord {A} (img : image A) (i : nat) (v : A) :
  0 < width img ->
  putpixel img (coord (width img) i).1 (coord (width img) i).2 v
  = Image (width img) (height img) (<[i := v]> (pixels img)).
Proof. intros Hw. unfold putpixel. by rewrite coord_index. Qed.

(** ** The embedding loop *)

Lemma write_bits_nil_r (bits : bitstr) : write_bits bits [] = [].
Proof. by destruct bits. Qed.

Lemma write_bits_length (bits : bitstr) (px : list rgb) :
  length (write_bits bits px) = length px.
Proof.
  revert px. induction bits as [|c bits IH]; intros [|[[r g] b] px]; simpl; auto.
Qed.


(** The loop visits the pixels [pre ++ suf] from the index [length pre] on:
    it writes the bits into [suf] and ends in the save branch exactly when
    the bits run out before the pixels do. *)
Lemma embed_loop_flat (w h : nat) (suf pre : list rgb) (bits : bitstr) :
  0 < w ->
  embed_loop (coord w <$> seq (length pre) (length suf)) bits (Image w h (pre ++ suf))
  = Return ((if decide (length bits < length suf) then Saved else Exhausted)
              (Image w h (pre ++ write_bits bits suf))).
Proof.
  intros Hw. revert pre bits.
  induction suf as [|p suf IH]; intros pre bits.
  - destruct (decide _) as [Hlt|_]; [simpl in Hlt; lia|].
    simpl. by rewrite write_bits_nil_r.
  - simpl length. simpl seq. rewrite fmap_cons.
    destruct bits as [|c bits].
    + destruct (decide _) as [_|Hge]; [done | simpl in Hge; lia].
    + cbn [embed_loop].
      destruct (coord w (length pre)) as [x y] eqn:Hc.
      pose proof (getpixel_coord (Image w h (pre ++ p :: suf)) (length pre) Hw) as Hg.
      pose proof (putpixel_coord (Image w h (pre ++ p :: suf)) (length pre)) as Hp.
      cbn [width height pixels] in Hg, Hp. rewrite Hc in Hg, Hp.
      cbn [fst snd] in Hg, Hp.
      rewrite Hg, list_lookup_middle by done.
      destruct p as [[r g] b]. rewrite Hp by done.
      replace (<[length pre := (r, g, _embed_bit b c)]> (pre ++ (r, g, b) :: suf))
        with ((pre ++ [(r, g, _embed_bit b c)]) ++ suf).
      2:{ rewrite <- (Nat.add_0_r (length pre)), insert_app_r. simpl.
          by rewrite <- app_assoc. }
      specialize (IH (pre ++ [(r, g, _embed_bit b c)]) bits).
      rewrite length_app in IH. simpl in IH.
      rewrite Nat.add_1_r in IH. rewrite IH.
      rewrite <- app_assoc. simpl.
      destruct (decide (length bits < length suf));
        [rewrite decide_True by lia | rewrite decide_False by lia]; done.
Qed.

(** ** One bit in, the same bit out *)

Lemma land_254_even (v : Z) : (Z.land v 254 mod 2 = 0)%Z.
Proof.
  rewrite <- Z.bit0_mod, Z.land_spec. simpl Z.testbit at 2.
  by rewrite andb_false_r.
Qed.

Lemma lor_1_odd (v : Z) : (Z.lor v 1 mod 2 = 1)%Z.
Proof.
  rewrite <- Z.bit0_mod, Z.lor_spec. simpl Z.testbit at 2.
  by rewrite orb_true_r.
Qed.

Lemma extract_embed (v : Z) (c : ascii) : is_bit c -> _extract_lsb (_embed_bit v c) = c.
Proof.
  intros [-> | ->]; unfold _extract_lsb, _embed_bit.
  - destruct (decide ("0"%char = "0"%char)) as [_|?]; [|done].
    rewrite land_254_even. by destruct (decide _).
  - destruct (decide ("1"%char = "0"%char)) as [?|_]; [done|].
    rewrite lor_1_odd. by destruct (decide _).
Qed.

Lemma lsbs_write_bits (bits : bitstr) (px : list rgb) :
  Forall is_bit bits -> length bits <= length px ->
  lsbs (write_bits bits px) = bits ++ lsbs (drop (length bits) px).
Proof.
  intros Hb. revert px. induction Hb as [|c bits Hc Hb IH]; intros px Hlen.
  - by destruct px.
  - destruct px as [|[[r g] b] px]; simpl in Hlen; [lia|].
    cbn [write_bits length drop app]. unfold lsbs in *.
    rewrite fmap_cons. cbn [snd].
    rewrite extract_embed by done. f_equal. apply IH. lia.
Qed.

(** ** The header *)

Lemma pos_digits_bits (p : positive) (acc : bitstr) :
  Forall is_bit acc -> Forall is_bit (pos_digits p acc).
Proof.
  revert acc. induction p as [q IH|q IH|]; intros acc Hacc; simpl.
  - apply IH. constructor; [by right | done].
  - apply IH. constructor; [by left | done].
  - constructor; [by right | done].
Qed.

Lemma pos_digits_length (p : positive) (acc : bitstr) (n : nat) :
  (Npos p < 2 ^ N.of_nat n)%N -> length (pos_digits p acc) <= n + length acc.
Proof.
  revert acc n. induction p as [q IH|q IH|]; intros acc n Hlt.
  - destruct n as [|n]; [simpl in Hlt; lia|].
    rewrite Nat2N.inj_succ, N.pow_succ_r' in Hlt.
    simpl. etrans; [apply (IH _ n); lia|]. simpl. lia.
  - destruct n as [|n]; [simpl in Hlt; lia|].
    rewrite Nat2N.inj_succ, N.pow_succ_r' in Hlt.
    simpl. etrans; [apply (IH _ n); lia|]. simpl. lia.
  - destruct n as [|n]; [simpl in Hlt; lia|]. simpl. lia.
Qed.

Lemma pos_digits_parse (p : positive) :
  exists k : N, forall (acc : bitstr) (a : N),
    parse_bits a (pos_digits p acc) = parse_bits (a * 2 ^ k + Npos p)%N acc.
Proof.
  induction p as [q [k IH]|q [k IH]|].
  - exists (N.succ k). intros acc a. simpl. rewrite IH. simpl.
    f_equal. rewrite N.pow_succ_r'. lia.
  - exists (N.succ k). intros acc a. simpl. rewrite IH. simpl.
    f_equal. rewrite N.pow_succ_r'. lia.
  - exists 1%N. intros acc a. simpl. f_equal. lia.
Qed.

Lemma parse_leading_zeros (k : nat) (s : bitstr) :
  parse_bits 0 (replicate k "0"%char ++ s) = parse_bits 0 s.
Proof. induction k as [|k IH]; [done|]. simpl. apply IH. Qed.

Lemma format_b_parse (n : N) : parse_bits 0 (format_b n) = Some n.
Proof.
  destruct n as [|p]; [done|]. simpl.
  destruct (pos_digits_parse p) as [k Hk]. rewrite Hk. simpl. done.
Qed.

Lemma pos_digits_nonempty (p : positive) (acc : bitstr) : pos_digits p acc <> [].
Proof. revert acc. induction p; intros acc; simpl; auto. Qed.

Lemma format_b_nonempty (n : N) : format_b n <> [].
Proof. destruct n; [done | apply pos_digits_nonempty]. Qed.

Lemma format_b_bits (n : N) : Forall is_bit (format_b n).
Proof.
  destruct n; simpl; [by repeat constructor; left | by apply pos_digits_bits].
Qed.

Lemma format_b_length (n : N) (k : nat) :
  (n < 2 ^ N.of_nat k)%N -> 0 < k -> length (format_b n) <= k.
Proof.
  intros Hlt Hk. destruct n as [|p]; simpl; [lia|].
  pose proof (pos_digits_length p [] k Hlt). simpl in *. lia.
Qed.

Lemma int_to_binary_bits (n bits : nat) : Forall is_bit (_int_to_binary n bits).
Proof.
  unfold _int_to_binary. apply Forall_app. split; [|apply format_b_bits].
  apply Forall_replicate. by left.
Qed.

Lemma int_to_binary_16 (n : nat) : u16 n -> length (_int_to_binary n 16) = 16.
Proof.
  intros Hn. unfold _int_to_binary.
  assert (length (format_b (N.of_nat n)) <= 16) as Hlen.
  { apply format_b_length; [|lia]. unfold u16 in Hn.
    change (2 ^ N.of_nat 16)%N with (N.of_nat (2 ^ 16)). lia. }
  rewrite length_app, length_replicate. lia.
Qed.

Lemma binary_round_trip (n bits : nat) : _binary_to_int (_int_to_binary n bits) = Some n.
Proof.
  unfold _binary_to_int.
  destruct (_int_to_binary n bits) as [|c s] eqn:E.
  - unfold _int_to_binary in E. apply app_eq_nil in E as [_ E].
    by apply format_b_nonempty in E.
  - rewrite <- E. unfold _int_to_binary.
    rewrite parse_leading_zeros, format_b_parse. simpl. by rewrite Nat2N.id.
Qed.

Lemma header_bits (w h : nat) : Forall is_bit (header w h).
Proof.
  unfold header. rewrite !Forall_app. split_and!; try apply int_to_binary_bits.
  unfold HEADER_TERMINATOR_BIN. simpl. by repeat constructor; left.
Qed.

Lemma header_length (w h : nat) : u16 w -> u16 h -> length (header w h) = 40.
Proof.
  intros Hw Hh. unfold header.
  rewrite !length_app, !int_to_binary_16 by done. done.
Qed.

(** A longer field makes a longer header: nothing is truncated. *)
Lemma header_length_ge (w h : nat) : 40 <= length (header w h).
Proof.
  unfold header, _int_to_binary. rewrite !length_app, !length_replicate.
  unfold HEADER_TERMINATOR_BIN. simpl. lia.
Qed.

(** ** The header scan of the extraction *)

Lemma lsbs_lookup (px : list rgb) (i : nat) (r g b : Z) :
  px !! i = Some (r, g, b) -> lsbs px !! i = Some (_extract_lsb b).
Proof. intros H. unfold lsbs. by rewrite list_lookup_fmap, H. Qed.

Lemma lsbs_length (px : list rgb) : length (lsbs px) = length px.
Proof. unfold lsbs. by rewrite length_fmap. Qed.

(** With a 40-bit header in front, the scan stops after exactly 40 pixels
    with the dimensions the header was made from. *)
Lemma header_check (qw qh : nat) :
  u16 qw -> u16 qh ->
  endswith (header qw qh) HEADER_TERMINATOR_BIN = true /\
  length (drop_last HEADER_TERMINATOR_LEN (header qw qh)) = 32 /\
  _binary_to_int (take 16 (drop_last HEADER_TERMINATOR_LEN (header qw qh))) = Some qw /\
  _binary_to_int (drop 16 (drop_last HEADER_TERMINATOR_LEN (header qw qh))) = Some qh.
Proof.
  intros Hw Hh.
  pose proof (int_to_binary_16 qw Hw) as Lw.
  pose proof (int_to_binary_16 qh Hh) as Lh.
  pose proof (header_length qw qh Hw Hh) as Lhd.
  assert (drop_last HEADER_TERMINATOR_LEN (header qw qh)
          = _int_to_binary qw 16 ++ _int_to_binary qh 16) as Hdl.
  { unfold drop_last. rewrite Lhd. unfold header.
    rewrite app_assoc. apply take_app_length'. rewrite length_app. 
    change HEADER_TERMINATOR_LEN with 8. lia. }
  split_and!.
  - unfold endswith. apply bool_decide_eq_true. rewrite Lhd. split.
    + unfold HEADER_TERMINATOR_BIN. simpl. lia.
    + unfold header. rewrite app_assoc.
      apply drop_app_length'. rewrite length_app.
      unfold HEADER_TERMINATOR_BIN. simpl. lia.
  - rewrite Hdl, length_app. lia.
  - rewrite Hdl, take_app_length' by done. apply binary_round_trip.
  - rewrite Hdl, drop_app_length' by done. apply binary_round_trip.
Qed.

Lemma header_loop_found (img : image rgb) (qw qh : nat) :
  0 < width img -> u16 qw -> u16 qh ->
  40 <= length (pixels img) ->
  take 40 (lsbs (pixels img)) = header qw qh ->
  forall d j, j + d = 39 ->
    header_loop img (coord (width img) <$> seq j (length (pixels img) - j))
                (take j (lsbs (pixels img))) j
    = Return (qw, qh, 40).
Proof.
  intros Hw Hqw Hqh Hlen Hhd.
  destruct (header_check qw qh Hqw Hqh) as (Hend & Hl32 & Hpw & Hph).
  induction d as [|d IH]; intros j Hj.
  all: destruct (length (pixels img) - j) as [|m] eqn:Hm; [lia|].
  all: simpl seq; rewrite fmap_cons; cbn [header_loop].
  all: destruct (coord (width img) j) as [x y] eqn:Hc.
  all: pose proof (getpixel_coord img j Hw) as Hg; rewrite Hc in Hg; cbn [fst snd] in Hg.
  all: rewrite Hg.
  all: destruct (lookup_lt_is_Some_2 (pixels img) j ltac:(lia)) as [[[r g] b] Hpx].
  all: rewrite Hpx.
  all: rewrite <- (take_S_r _ _ _ (lsbs_lookup _ _ _ _ _ Hpx)).
  all: rewrite length_take, lsbs_length.
  - assert (j = 39) as -> by lia.
    rewrite decide_True by (unfold num_header_bits; change HEADER_TERMINATOR_LEN with 8; lia).
    rewrite Hhd, Hend. rewrite decide_True by done. by rewrite Hpw, Hph.
  - rewrite decide_False by (unfold num_header_bits; change HEADER_TERMINATOR_LEN with 8; lia).
    replace m with (length (pixels img) - S j) by lia.
    replace (j + 1) with (S j) by lia.
    apply IH. lia.
Qed.

(** ** The payload scan of the extraction *)

Lemma filter_seq_ge (a m s : nat) :
  filter (fun i => a <= i) (seq s m) = seq (a `max` s) (s + m - a `max` s).
Proof.
  revert s. induction m as [|m IH]; intros s.
  - simpl. by replace (s + 0 - a `max` s) with 0 by lia.
  - simpl seq. destruct (decide (a <= s)) as [Hle|Hgt].
    + rewrite filter_cons_True by done. rewrite IH.
      replace (a `max` S s) with (S s) by lia.
      replace (a `max` s) with s by lia.
      replace (S s + m - S s) with m by lia.
      by replace (s + S m - s) with (S m) by lia.
    + rewrite filter_cons_False by done. rewrite IH.
      replace (a `max` S s) with (a `max` s) by lia.
      by replace (S s + m) with (s + S m) by lia.
Qed.

Lemma after_start (w sx sy i : nat) :
  0 < w -> sx < w ->
  (sy < (coord w i).2 \/ ((coord w i).2 = sy /\ sx <= (coord w i).1)) <-> sy * w + sx <= i.
Proof.
  intros Hw Hsx. unfold coord. simpl.
  pose proof (Nat.div_mod_eq i w) as Hi.
  pose proof (Nat.mod_upper_bound i w ltac:(lia)) as Hm.
  split.
  - intros [Hlt | [<- Hle]]; nia.
  - intros Hle. destruct (decide (sy < i / w)) as [|Hn]; [by left|right].
    assert (i / w = sy) by nia. split; [done|]. nia.
Qed.

Lemma pixel_iterator_flat (w h sx sy n : nat) :
  0 < w -> sx < w -> sy * w + sx + n <= h * w ->
  pixel_iterator w h sx sy n = coord w <$> seq (sy * w + sx) n.
Proof.
  intros Hw Hsx Hn. unfold pixel_iterator. rewrite scan_flat.
  assert (forall l : list nat,
    filter (fun c : nat * nat => sy < c.2 \/ (c.2 = sy /\ sx <= c.1)) (coord w <$> l)
    = coord w <$> filter (fun i => sy * w + sx <= i) l) as Hf.
  { induction l as [|i l IH]; [done|]. rewrite fmap_cons.
    destruct (decide (sy * w + sx <= i)) as [Hle|Hgt].
    - rewrite !filter_cons_True; [by rewrite IH, fmap_cons | done |].
      by apply after_start.
    - rewrite !filter_cons_False; [done | done |].
      by rewrite after_start. }
  rewrite Hf, filter_seq_ge, <- fmap_take.
  replace ((sy * w + sx) `max` (sy * w)) with (sy * w + sx) by lia.
  f_equal. rewrite take_seq. f_equal. nia.
Qed.

Lemma mapM_pixels {A} (img : image A) (g : A -> ascii)
    (f : nat * nat -> outcome lsb_error ascii) :
  (forall c v, getpixel img c.1 c.2 = Some v -> f c = Return (g v)) ->
  0 < width img ->
  forall n k, k + n <= length (pixels img) ->
    mapM f (coord (width img) <$> seq k n) = Return (g <$> take n (drop k (pixels img))).
Proof.
  intros Hf Hw. induction n as [|n IH]; intros k Hk; [done|].
  simpl seq. rewrite fmap_cons. cbn [mapM].
  destruct (lookup_lt_is_Some_2 (pixels img) k ltac:(lia)) as [v Hv].
  rewrite (Hf _ v) by (by rewrite getpixel_coord).
  rewrite IH by lia. rewrite (drop_S _ _ _ Hv). done.
Qed.

(** ** Rebuilding the payload raster *)

Lemma rebuild_loop_flat (w h : nat) (qr_bits : bitstr) (suf pre : list bilevel) :
  0 < w ->
  length qr_bits = length pre + length suf ->
  rebuild_loop (coord w <$> seq (length pre) (length suf)) qr_bits (length pre)
               (Image w h (pre ++ suf))
  = Return (Image w h (pre ++ (bit_pixel <$> drop (length pre) qr_bits))).
Proof.
  intros Hw. revert pre. induction suf as [|v suf IH]; intros pre Hlen.
  - simpl. rewrite drop_ge by (simpl in Hlen; lia). done.
  - simpl length. simpl seq. rewrite fmap_cons. cbn [rebuild_loop].
    destruct (coord w (length pre)) as [x y] eqn:Hc.
    destruct (lookup_lt_is_Some_2 qr_bits (length pre)) as [c Hb];
      [simpl in Hlen; lia|].
    rewrite Hb.
    pose proof (putpixel_coord (Image w h (pre ++ v :: suf)) (length pre) (bit_pixel c)) as Hp.
    cbn [width height pixels] in Hp. rewrite Hc in Hp. cbn [fst snd] in Hp.
    rewrite Hp by done.
    replace (<[length pre := bit_pixel c]> (pre ++ v :: suf))
      with ((pre ++ [bit_pixel c]) ++ suf).
    2:{ rewrite <- (Nat.add_0_r (length pre)), insert_app_r. simpl.
        by rewrite <- app_assoc. }
    specialize (IH (pre ++ [bit_pixel c])).
    rewrite length_app in IH. simpl in IH.
    replace (length pre + 1) with (S (length pre)) in * by lia.
    rewrite IH by (simpl in Hlen; lia).
    rewrite <- app_assoc. by rewrite (drop_S _ _ _ Hb).
Qed.

(** ** The bit stream of a payload and what the embedding writes *)

Lemma scan_length (h w : nat) : length (scan 0 h w) = h * w.
Proof. by rewrite scan_all, length_fmap, length_seq. Qed.

Lemma qr_bits_flat (qr : image bilevel) :
  wf_image qr ->
  mapM (qr_bit qr) (scan 0 (height qr) (width qr)) = Return (pixel_bit <$> pixels qr).
Proof.
  intros Hwf. unfold wf_image in Hwf. rewrite scan_all.
  destruct (decide (width qr = 0)) as [Hz|Hnz].
  - rewrite Hz, Nat.mul_0_r in *. by destruct (pixels qr).
  - rewrite (mapM_pixels qr pixel_bit) with (k := 0); try lia.
    + rewrite drop_0, <- Hwf, firstn_all. done.
    + intros c v Hv. unfold qr_bit. by rewrite Hv.
Qed.

Lemma mapM_Return_length {A B} (f : A -> outcome lsb_error B) (l : list A) (r : list B) :
  mapM f l = Return r -> length r = length l.
Proof.
  revert r. induction l as [|a l IH]; intros r; simpl.
  - by intros [= <-].
  - destruct (f a) as [b|e]; simpl; [|done].
    destruct (mapM f l) as [k|e]; simpl; [|done].
    intros [= <-]. simpl. f_equal. by apply IH.
Qed.

Lemma mapM_Return_Forall {A B} (P : B -> Prop) (f : A -> outcome lsb_error B)
    (l : list A) (r : list B) :
  (forall a b, f a = Return b -> P b) -> mapM f l = Return r -> Forall P r.
Proof.
  intros Hf. revert r. induction l as [|a l IH]; intros r; simpl.
  - intros [= <-]. constructor.
  - destruct (f a) as [b|e] eqn:Hb; simpl; [|done].
    destruct (mapM f l) as [k|e]; simpl; [|done].
    intros [= <-]. constructor; eauto.
Qed.

Lemma pixel_bit_is_bit (v : bilevel) : is_bit (pixel_bit v).
Proof. unfold pixel_bit. destruct (decide _); [by right | by left]. Qed.

Lemma bit_pixel_bit (v : bilevel) : v = 0%Z \/ v = 255%Z -> bit_pixel (pixel_bit v) = v.
Proof. by intros [-> | ->]. Qed.

Lemma embed_loop_cover (cover : image rgb) (bits : bitstr) :
  wf_image cover -> 0 < width cover ->
  embed_loop (scan 0 (height cover) (width cover)) bits cover
  = Return ((if decide (length bits < length (pixels cover)) then Saved else Exhausted)
              (Image (width cover) (height cover) (write_bits bits (pixels cover)))).
Proof.
  intros Hwf Hw. destruct cover as [W H px]. unfold wf_image in Hwf. simpl in *.
  rewrite scan_all, <- Hwf.
  by apply (embed_loop_flat W H px []).
Qed.

(** What [embed_stream] returns, whenever it returns. *)
Lemma embed_stream_inv (cover : image rgb) (qr : image bilevel) (ex : loop_exit) :
  wf_image cover ->
  embed_stream cover qr = Return ex ->
  exists qbits : bitstr,
    mapM (qr_bit qr) (scan 0 (height qr) (width qr)) = Return qbits /\
    length qbits = height qr * width qr /\
    Forall is_bit qbits /\
    length (header (width qr) (height qr) ++ qbits) <= length (pixels cover) /\
    ex = (if decide (length (header (width qr) (height qr) ++ qbits)
                     < length (pixels cover)) then Saved else Exhausted)
           (Image (width cover) (height cover)
                  (write_bits (header (width qr) (height qr) ++ qbits) (pixels cover))).
Proof.
  intros Hwf. unfold embed_stream.
  destruct (mapM (qr_bit qr) _) as [qbits|e] eqn:Hq; [|done]. simpl.
  destruct (decide _) as [?|Hfit]; [done|]. intros Hloop.
  pose proof (header_length_ge (width qr) (height qr)) as Hh.
  assert (0 < width cover) as Hw by (destruct (width cover); lia).
  rewrite embed_loop_cover in Hloop by done. injection Hloop as <-.
  exists qbits. split_and!.
  - done.
  - apply mapM_Return_length in Hq. by rewrite Hq, scan_length.
  - eapply mapM_Return_Forall; [|exact Hq].
    intros c b. unfold qr_bit. destruct (getpixel _ _ _); [|done].
    intros [= <-]. apply pixel_bit_is_bit.
  - rewrite length_app, Hwf. lia.
  - done.
Qed.

(** What [embed_stream] returns for a well-formed payload that fits. *)
Lemma embed_stream_fits (cover : image rgb) (qr : image bilevel) :
  wf_image cover -> wf_image qr -> u16 (width qr) -> u16 (height qr) ->
  width qr * height qr + 40 <= width cover * height cover ->
  embed_stream cover qr
  = Return ((if decide (width qr * height qr + 40 < width cover * height cover)
             then Saved else Exhausted)
              (Image (width cover) (height cover)
                 (write_bits (header (width qr) (height qr) ++ (pixel_bit <$> pixels qr))
                             (pixels cover)))).
Proof.
  intros Hwf Hq Hqw Hqh Hfit. unfold embed_stream.
  rewrite qr_bits_flat by done. simpl.
  rewrite length_fmap, header_length, Hq by done.
  rewrite decide_False by lia.
  rewrite embed_loop_cover; [|done|destruct (width cover); lia].
  rewrite length_app, length_fmap, header_length, Hq, Hwf by done.
  do 2 f_equal. destruct (decide _), (decide _); done || lia.
Qed.

(** ** Extraction reads back what the embedding wrote *)

Lemma extract_written (W H w h : nat) (px : list rgb) (qbits : bitstr) :
  length px = H * W -> u16 w -> u16 h ->
  Forall is_bit qbits -> length qbits = h * w ->
  length (header w h ++ qbits) <= length px ->
  extract_body (Image W H (write_bits (header w h ++ qbits) px))
  = Return (Image w h (bit_pixel <$> qbits)).
Proof.
  intros Hpx Hw Hh Hbits Hq Hfit.
  pose proof (header_length w h Hw Hh) as Hhl.
  rewrite length_app, Hhl in Hfit.
  assert (0 < W) as HW by (destruct W; lia).
  set (px' := write_bits (header w h ++ qbits) px).
  assert (length px' = H * W) as Hpx' by (unfold px'; by rewrite write_bits_length).
  assert (lsbs px' = (header w h ++ qbits) ++ lsbs (drop (40 + h * w) px)) as Hl.
  { unfold px'. rewrite lsbs_write_bits.
    - by rewrite length_app, Hhl, Hq.
    - apply Forall_app. split; [apply header_bits | done].
    - rewrite length_app. lia. }
  unfold extract_body. cbn [width height pixels].
  rewrite scan_all.
  pose proof (header_loop_found (Image W H px') w h) as Hfound.
  cbn [width height pixels] in Hfound.
  assert (take 40 (lsbs px') = header w h) as Hhd
    by (by rewrite Hl, <- !app_assoc, take_app_length').
  specialize (Hfound HW Hw Hh ltac:(lia) Hhd 39 0 eq_refl).
  rewrite Nat.sub_0_r, Hpx' in Hfound. rewrite take_0 in Hfound.
  rewrite Hfound. simpl.
  rewrite pixel_iterator_flat;
    [| done | by apply Nat.mod_upper_bound; lia
     | pose proof (Nat.div_mod_eq 40 W); nia].
  replace (40 / W * W + 40 mod W) with 40 by (pose proof (Nat.div_mod_eq 40 W); nia).
  pose proof (mapM_pixels (Image W H px') (fun p : rgb => _extract_lsb p.2)
                (lsb_at (Image W H px'))) as Hm.
  cbn [width height pixels] in Hm.
  rewrite (Hm ltac:(intros c [[r g] b] Hv; unfold lsb_at; by rewrite Hv) HW (w * h) 40)
    by lia.
  simpl.
  assert ((fun p : rgb => _extract_lsb p.2) <$> take (w * h) (drop 40 px') = qbits) as ->.
  { rewrite fmap_take, fmap_drop. change (_ <$> px') with (lsbs px').
    rewrite Hl, <- app_assoc, drop_app_length' by (by rewrite Hhl).
    apply take_app_length'. lia. }
  rewrite decide_False by lia.
  destruct (decide (w = 0)) as [->|Hnz].
  - rewrite scan_all. unfold Image_new_1. rewrite Nat.mul_0_r in *.
    destruct qbits; [done | simpl in Hq; lia].
  - rewrite scan_all. unfold Image_new_1.
    pose proof (rebuild_loop_flat w h qbits (replicate (h * w) 0%Z) []) as Hr.
    rewrite length_replicate in Hr. simpl in Hr. rewrite Hr by lia. done.
Qed.

(** ** The capacity planner *)

Section Planner.
Variable resample : image bilevel -> nat -> nat -> Resampling -> list bilevel.

Lemma sqrt_dim (a : Z) :
  (0 < a)%Z ->
  let d := Z.to_nat (Z.sqrt a) in
  (Z.of_nat (d * d) <= a < Z.of_nat ((d + 1) * (d + 1)))%Z.
Proof.
  intros Ha d. pose proof (Z.sqrt_spec a ltac:(lia)) as Hs.
  pose proof (Z.sqrt_nonneg a).
  unfold d. rewrite !Nat2Z.inj_mul, Nat2Z.inj_add, Z2Nat.id by done.
  unfold Z.succ in Hs. simpl. lia.
Qed.

(** A payload with more pixels than the available bits exceeds the new
    dimension on one axis at least. *)
Lemma too_large_not_within (qr : image bilevel) (a : Z) :
  (0 < a)%Z -> (a < Z.of_nat (width qr * height qr))%Z ->
  ~ (width qr <= Z.to_nat (Z.sqrt a) /\ height qr <= Z.to_nat (Z.sqrt a)).
Proof.
  intros Ha Hbig [Hw Hh]. pose proof (sqrt_dim a Ha) as [Hd _].
  simpl in Hd. nia.
Qed.

(** C6. The resize policy of [_resize_qr_for_capacity], for a cover of [P]
    pixels and [A = P - 40] available bits: it raises the capacity
    [ValueError] when [A <= 0]; otherwise the new dimension is
    [floor (sqrt A)], a function of [A] alone; a payload within the new
    dimension on both axes is returned as it is; a payload with more than [A]
    pixels is resized with [NEAREST] to the square of the new dimension,
    which then fits: [d * d + 40 <= P]. *)
Theorem resize_policy (qr : image bilevel) (P : Z) :
  let A := (P - 40)%Z in
  let d := Z.to_nat (Z.sqrt A) in
  ((A <= 0)%Z ->
     _resize_qr_for_capacity resample qr P = Raise CoverTooSmallForHeader /\
     error_class CoverTooSmallForHeader = ValueError) /\
  ((0 < A)%Z ->
     (Z.of_nat (d * d) <= A < Z.of_nat ((d + 1) * (d + 1)))%Z /\
     (Z.of_nat (d * d) + 40 <= P)%Z) /\
  ((0 < A)%Z -> width qr <= d /\ height qr <= d ->
     _resize_qr_for_capacity resample qr P = Return qr) /\
  ((0 < A)%Z -> (A < Z.of_nat (width qr * height qr))%Z ->
     _resize_qr_for_capacity resample qr P = Return (resize resample qr d d NEAREST) /\
     width (resize resample qr d d NEAREST) = d /\
     height (resize resample qr d d NEAREST) = d).
Proof.
  intros A d. unfold _resize_qr_for_capacity.
  change (Z.of_nat (16 + 16 + HEADER_TERMINATOR_LEN)) with 40%Z.
  fold A. fold d. split_and!.
  - intros HA. by rewrite decide_True.
  - intros HA. pose proof (sqrt_dim A HA) as Hd. fold d in Hd. simpl in Hd. lia.
  - intros HA Hin. rewrite decide_False by lia. by rewrite decide_True.
  - intros HA Hbig. rewrite decide_False by lia.
    rewrite decide_False by (by apply too_large_not_within).
    by rewrite Nat.min_id.
Qed.

End Planner.

(** ** One sample, one bit *)




Lemma embed_bit_range (v : Z) (c : ascii) : channel_ok v -> channel_ok (_embed_bit v c).
Proof.
  unfold channel_ok, _embed_bit. intros Hv. destruct (decide _).
  - assert (0 <= Z.land v 254)%Z as Hnn by (apply Z.land_nonneg; lia).
    destruct (decide (Z.land v 254 = 0%Z)) as [->|Hnz]; [lia|].
    split; [done|]. change 256%Z with (2 ^ 8)%Z.
    apply Z.log2_lt_pow2; [lia|].
    pose proof (Z.log2_land v 254 ltac:(lia) ltac:(lia)) as Hl.
    change (Z.log2 254) with 7%Z in Hl. lia.
  - assert (Z.lor v 1 < 2 ^ 8)%Z; [|pose proof (Z.lor_nonneg v 1); lia].
    destruct (decide (v = 0%Z)) as [->|Hnz]; [done|].
    apply Z.log2_lt_pow2.
    + pose proof (Z.lor_nonneg v 1). assert (Z.lor v 1 <> 0)%Z; [|lia].
      intros H0. apply Z.lor_eq_0_iff in H0. lia.
    + rewrite Z.log2_lor by lia. simpl (Z.log2 1).
      apply Z.max_lub_lt; [|lia]. apply Z.log2_lt_pow2; lia.
Qed.

(** ** The drivers on the directory of image files *)

Section Drivers.
Variable resample : image bilevel -> nat -> nat -> Resampling -> list bilevel.
Variable dither : image rgb -> list bilevel.
Variable splitext_root : string -> string.

Lemma path_exists_lookup (fs : files) (path : string) (f : file) :
  fs !! path = Some f -> path_exists fs path = true.
Proof. intros H. unfold path_exists. apply bool_decide_eq_true. by rewrite H. Qed.

Lemma Image_open_lookup (fs : files) (path : string) (p : picture) :
  fs !! path = Some (ImageFile p) -> Image_open fs path = Return p.
Proof. intros H. unfold Image_open. by rewrite H. Qed.

(** An image with no side of 0 pixels is written. *)
Lemma save_png_written (fs : files) (path : string) (p : picture) :
  0 < (picture_size p).1 -> 0 < (picture_size p).2 ->
  save_png fs path p = (Return (), <[path := ImageFile p]> fs).
Proof. intros Hw Hh. unfold save_png. by rewrite decide_False by lia. Qed.

(** Once the input validation has passed, the driver is the body of its
    [try] block followed by the save. *)
Lemma embed_unfold (fs : files) (cover_path qr_path out : string)
    (flag : bool) (cover_pic qr_pic : picture) :
  fs !! cover_path = Some (ImageFile cover_pic) ->
  fs !! qr_path = Some (ImageFile qr_pic) ->
  str_endswith (lower out) ".png" = true ->
  embed_qr_to_image resample dither fs cover_path qr_path out flag
  = match embed_body resample (convert_RGB cover_pic) (convert_1 dither qr_pic) flag with
    | Return (Saved stego_img) => save_png fs out (PicRGB stego_img)
    | Return (Exhausted _) => (Return (), fs)
    | Raise e => (Raise e, fs)
    end.
Proof.
  intros Hc Hq Hpng. unfold embed_qr_to_image.
  rewrite (path_exists_lookup _ _ _ Hc), (path_exists_lookup _ _ _ Hq), Hpng.
  by rewrite (Image_open_lookup _ _ _ Hc), (Image_open_lookup _ _ _ Hq).
Qed.

(** C9. A payload that does not fit and [resize_qr_if_needed = False]: the
    call raises the capacity [ValueError] of the first check, whatever the
    resampling kernel would do, and the directory is left as it was, so the
    cover file and the output path are untouched. *)
Theorem no_resize_capacity_error (fs : files) (cover_path qr_path out : string)
    (cover_pic qr_pic : picture) :
  let cover := convert_RGB cover_pic in
  let qr := convert_1 dither qr_pic in
  fs !! cover_path = Some (ImageFile cover_pic) ->
  fs !! qr_path = Some (ImageFile qr_pic) ->
  str_endswith (lower out) ".png" = true ->
  width cover * height cover < width qr * height qr + 40 ->
  embed_qr_to_image resample dither fs cover_path qr_path out false
  = (Raise (CapacityInsufficient (40 + width qr * height qr)
                                 (width cover * height cover)), fs) /\
  error_class (CapacityInsufficient (40 + width qr * height qr)
                                    (width cover * height cover)) = ValueError.
Proof.
  intros cover qr Hc Hq Hpng Hbig. split; [|done].
  rewrite (embed_unfold _ _ _ _ _ _ _ Hc Hq Hpng).
  unfold embed_body, fit_qr. fold cover. fold qr.
  change (16 + 16 + HEADER_TERMINATOR_LEN) with 40.
  by rewrite decide_True by lia.
Qed.

Lemma fit_qr_u16 (cover : image rgb) (qr qr' : image bilevel) (flag : bool) :
  u16 (width qr) -> u16 (height qr) ->
  fit_qr resample cover qr flag = Return qr' ->
  u16 (width qr') /\ u16 (height qr').
Proof.
  intros Hw Hh. unfold fit_qr.
  change (16 + 16 + HEADER_TERMINATOR_LEN) with 40.
  destruct (decide _) as [Hbig|_]; [|by intros [= <-]].
  destruct flag; [|done].
  unfold _resize_qr_for_capacity.
  change (Z.of_nat (16 + 16 + HEADER_TERMINATOR_LEN)) with 40%Z.
  destruct (decide _) as [|HA]; [done|].
  destruct (decide _) as [_|_]; [by intros [= <-]|].
  intros [= <-]. simpl. rewrite Nat.min_id.
  assert (0 < Z.of_nat (width cover * height cover) - 40)%Z as Hpos by lia.
  pose proof (sqrt_dim _ Hpos) as [Hd _].
  simpl in Hd. unfold u16 in *.
  set (d := Z.to_nat _) in *.
  assert (d * d < 2 ^ 16 * 2 ^ 16) by nia.
  assert (d < 2 ^ 16) by nia. done.
Qed.

(** What [embed_stream] returns for a well-formed payload, whatever its
    size. *)
Lemma embed_stream_any (cover : image rgb) (qr : image bilevel) :
  wf_image cover -> wf_image qr ->
  let bits := header (width qr) (height qr) ++ (pixel_bit <$> pixels qr) in
  embed_stream cover qr
  = if decide (width cover * height cover < length bits)
    then Raise (CapacityInsufficientAfterResize (length bits) (width cover * height cover))
    else Return ((if decide (length bits < width cover * height cover)
                  then Saved else Exhausted)
                   (Image (width cover) (height cover) (write_bits bits (pixels cover)))).
Proof.
  intros Hwf Hq bits. unfold embed_stream.
  rewrite qr_bits_flat by done. simpl.
  assert (length (header (width qr) (height qr)) + length (pixel_bit <$> pixels qr)
          = length bits) as -> by (unfold bits; by rewrite length_app).
  destruct (decide (width cover * height cover < length bits)) as [Hbig|Hfit]; [done|].
  pose proof (header_length_ge (width qr) (height qr)) as Hh.
  assert (40 <= length bits) by (unfold bits; rewrite length_app; lia).
  rewrite embed_loop_cover; [|done|destruct (width cover); lia].
  fold bits. rewrite Hwf. do 2 f_equal.
  destruct (decide _), (decide _); done || lia.
Qed.

(** The whole call, once the files are there and the payload that is
    framed is known: the second capacity check, then the stego image saved
    when a pixel is left over, and nothing saved when none is. *)
Lemma embed_outcome (fs : files) (cover_path qr_path out : string) (flag : bool)
    (cover_pic qr_pic : picture) (qr' : image bilevel) :
  let cover := convert_RGB cover_pic in
  let qr := convert_1 dither qr_pic in
  let bits := header (width qr') (height qr') ++ (pixel_bit <$> pixels qr') in
  fs !! cover_path = Some (ImageFile cover_pic) ->
  fs !! qr_path = Some (ImageFile qr_pic) ->
  str_endswith (lower out) ".png" = true ->
  wf_image cover -> wf_image qr' ->
  fit_qr resample cover qr flag = Return qr' ->
  embed_qr_to_image resample dither fs cover_path qr_path out flag
  = if decide (width cover * height cover < length bits)
    then (Raise (CapacityInsufficientAfterResize (length bits) (width cover * height cover)),
          fs)
    else if decide (length bits < width cover * height cover)
    then (Return (),
          <[out := ImageFile (PicRGB (Image (width cover) (height cover)
                                            (write_bits bits (pixels cover))))]> fs)
    else (Return (), fs).
Proof.
  intros cover qr bits Hc Hq Hpng Hwf Hwq Hfit.
  rewrite (embed_unfold _ _ _ _ _ _ _ Hc Hq Hpng).
  fold cover. fold qr. unfold embed_body. rewrite Hfit. simpl.
  rewrite embed_stream_any by done. fold bits.
  destruct (decide (width cover * height cover < length bits)) as [Hbig|Hle]; [done|].
  destruct (decide (length bits < width cover * height cover)) as [Hlt|Hge]; [|done].
  apply save_png_written; simpl; destruct (width cover), (height cover); lia.
Qed.


(** For a cover with exactly as many pixels as there are bits, the loops
    end without reaching the save branch: the call returns and no file is
    written. *)
Lemma exact_fit_saves_nothing (fs : files) (cover_path qr_path out : string)
    (flag : bool) (cover : image rgb) (qr : image bilevel) :
  fs !! cover_path = Some (ImageFile (PicRGB cover)) ->
  fs !! qr_path = Some (ImageFile (Pic1 qr)) ->
  str_endswith (lower out) ".png" = true ->
  wf_image cover -> wf_image qr -> u16 (width qr) -> u16 (height qr) ->
  width qr * height qr + 40 = width cover * height cover ->
  embed_qr_to_image resample dither fs cover_path qr_path out flag = (Return (), fs).
Proof.
  intros Hc Hq Hpng Hwf Hwq Hqw Hqh Hfit.
  rewrite (embed_unfold _ _ _ _ _ _ _ Hc Hq Hpng). simpl.
  unfold embed_body, fit_qr. change (16 + 16 + HEADER_TERMINATOR_LEN) with 40.
  rewrite decide_False by lia. simpl.
  rewrite embed_stream_fits by (done || lia).
  by rewrite decide_False by lia.
Qed.

(** Round trip below full capacity: with [w * h + 40 < P] the stego image is
    saved, and extracting from it saves a raster equal to the payload. *)
Lemma embed_extract_round_trip (fs : files)
    (cover_path qr_path out out_qr : string) (flag : bool)
    (cover : image rgb) (qr : image bilevel) :
  fs !! cover_path = Some (ImageFile (PicRGB cover)) ->
  fs !! qr_path = Some (ImageFile (Pic1 qr)) ->
  str_endswith (lower out) ".png" = true ->
  wf_image cover -> wf_bilevel qr -> u16 (width qr) -> u16 (height qr) ->
  0 < width qr -> 0 < height qr ->
  width qr * height qr + 40 < width cover * height cover ->
  let out_qr' := if negb (str_endswith (lower out_qr) ".png")
                 then (splitext_root out_qr ++ ".png")%string else out_qr in
  exists stego : image rgb,
    embed_qr_to_image resample dither fs cover_path qr_path out flag
    = (Return (), <[out := ImageFile (PicRGB stego)]> fs) /\
    extract_qr_from_image splitext_root (<[out := ImageFile (PicRGB stego)]> fs) out out_qr
    = (Return (), <[out_qr' := ImageFile (Pic1 qr)]>
                    (<[out := ImageFile (PicRGB stego)]> fs)).
Proof.
  intros Hc Hq Hpng Hwf [Hwq Hbw] Hqw Hqh Hw0 Hh0 Hfit out_qr'.
  rewrite (embed_unfold _ _ _ _ _ _ _ Hc Hq Hpng). simpl.
  unfold embed_body, fit_qr. change (16 + 16 + HEADER_TERMINATOR_LEN) with 40.
  rewrite decide_False by lia. simpl.
  rewrite embed_stream_fits by (done || lia).
  rewrite decide_True by lia.
  rewrite save_png_written by (simpl; destruct (width cover), (height cover); lia).
  eexists. split; [done|]. fold out_qr'.
  unfold extract_qr_from_image.
  rewrite (path_exists_lookup _ out (ImageFile (PicRGB _))) by apply lookup_insert_eq.
  simpl negb. cbv iota.
  rewrite (Image_open_lookup _ out (PicRGB _)) by apply lookup_insert_eq.
  simpl.
  rewrite extract_written; try done.
  - destruct qr as [w h px]. simpl in *.
    rewrite save_png_written by done.
    assert (bit_pixel <$> (pixel_bit <$> px) = px) as ->; [|done].
    rewrite <- list_fmap_compose. rewrite <- (list_fmap_id px) at 2.
    apply list_fmap_ext. intros i v Hv. simpl. apply bit_pixel_bit.
    rewrite Forall_lookup in Hbw. by apply (Hbw i).
  - apply Forall_fmap, Forall_true. intros v. apply pixel_bit_is_bit.
  - by rewrite length_fmap.
  - rewrite length_app, length_fmap, header_length, Hwq, Hwf by done. lia.
Qed.

End Drivers.

End LsbFacts.

(** * Facts about fingerprints, binding tokens and the secure envelope *)

Module BinderFacts.
Import Binder.

Section WithRuntime.
Context `{Runtime}.

(** ** The secure envelope *)

Lemma py_eq_str (v : json) (s : string) : py_eq v (JStr s) = true <-> v = JStr s.
Proof.
  destruct v as [|b|n|m e|t|l|d]; simpl; try (split; [done | by intros [=]]).
  - destruct (decide _); simpl; split; done.
  - rewrite bool_decide_eq_true. split; [by intros -> | by intros [= ->]].
Qed.


Lemma parse_secure_cases (qr_data : string) :
  parse_secure_qr_data qr_data
  = match json_loads qr_data with
    | Return (JDict d) =>
        if is_secure_envelope (JDict d) then Return (secure d) else Return (legacy qr_data)
    | Return _ => Return (legacy qr_data)
    | Raise e =>
        if decide (exn_class e = JSONDecodeError) then Return (legacy qr_data)
        else Raise (Exn DocumentSecurityError ("Failed to parse QR data: " ++ exn_str e))
    end.
Proof.
  unfold parse_secure_qr_data.
  destruct (json_loads qr_data) as [[| | | | | |d]|e]; simpl; try done.
  - by destruct (py_eq _ _).
  - by destruct (decide _).
Qed.



(** C10. The compact fallback of [generate_bound_qr] has the keys ["v"],
    ["t"], ["d"], ["b"] and no ["type"]: when [json.loads] gives its object
    back, [parse_secure_qr_data] takes it for legacy text, the whole compact
    JSON is handed back as [original_data], and
    [quick_binding_verification] answers "legacy" before any fingerprint or
    signature check. *)
Theorem compact_envelope_is_legacy (data binding_token : string)
    (secret_key : bytes) (docs : documents) (document_path uuid4 : string)
    (fingerprint_clock verify_clock : Z) :
  let compact := compact_secure_data data binding_token in
  json_loads compact
  = Return (JDict [("v", JStr "1.0"); ("t", JStr "s"); ("d", JStr data);
                   ("b", JStr (truncated binding_token))]) ->
  parse_secure_qr_data compact = Return (legacy compact) /\
  get (legacy compact) "is_secure" = JBool false /\
  get (legacy compact) "original_data" = JStr compact /\
  get (legacy compact) "binding_token" = JNull /\
  quick_binding_verification secret_key docs compact document_path uuid4
                             fingerprint_clock verify_clock
  = Return [("binding_verified", JBool false);
            ("is_legacy", JBool true);
            ("message", JStr "QR code is not bound to any document (legacy format)")].
Proof.
  intros compact Hl.
  assert (parse_secure_qr_data compact = Return (legacy compact)) as Hp
    by (by rewrite parse_secure_cases, Hl).
  split_and!; try done.
  unfold quick_binding_verification. by rewrite Hp.
Qed.

(** ** Verification always answers *)

Lemma invalid_answer (error : string) :
  get (invalid error) "valid" = JBool false /\ get (invalid error) "error" = JStr error.
Proof. done. Qed.

Lemma answer_invalid (error : string) : answer (invalid error).
Proof. right. split; [done | by exists error]. Qed.

Lemma verify_body_answer (secret_key : bytes) (token : json) (fp : dict)
    (now : Z) (d : dict) :
  verify_body secret_key token fp now = Return d -> answer d.
Proof.
  unfold verify_body.
  repeat match goal with
  | |- context [mbind _ ?m] =>
      let E := fresh "E" in destruct m eqn:E; simpl; [|done]
  | |- context [match ?m with Some _ => _ | None => _ end] =>
      destruct m; simpl
  | |- context [if ?b then _ else _] => destruct b; simpl
  | |- Return _ = Return _ -> _ => intros [= <-]
  end;
  try apply answer_invalid; try (by left); try done.
  all: right; split; [done | by eexists].
Qed.


Lemma b64_bytes_class (s : string) (e : exn) :
  b64_bytes s = Raise e -> exn_class e <> JSONDecodeError.
Proof.
  unfold b64_bytes. destruct (str_encode ASCII s) as [b|msg]; simpl.
  - destruct (b64decode b); simpl; [done|]. by intros [= <-].
  - by intros [= <-].
Qed.

(** C5, as the code has it. [verify_binding_token] never raises: every
    call returns a dict, the success dict or a refusal with [valid] false
    and an [error] text. That holds for the expected refusals (bad
    signature, expired, other fingerprint) and just as well for a token that
    is no base64 or whose JSON lacks a required key: the first is answered
    ["Verification failed: ..."], the second ["Missing token field: ..."]. *)
Theorem verification_never_raises (secret_key : bytes) (token : json)
    (fp : dict) (now : Z) :
  (exists d, verify_binding_token secret_key token fp now = Return d /\ answer d) /\
  (forall s e, token = JStr s -> b64_bytes s = Raise e ->
     verify_binding_token secret_key token fp now
     = Return (invalid ("Verification failed: " ++ exn_str e))) /\
  (forall s token_utf8 token_json token_data field,
     token = JStr s -> b64_bytes s = Return token_utf8 ->
     bytes_decode UTF8 token_utf8 = Return token_json ->
     json_loads token_json = Return token_data ->
     first_missing token_data ["payload"; "signature"; "version"] = Return (Some field) ->
     verify_binding_token secret_key token fp now
     = Return (invalid ("Missing token field: " ++ field))).
Proof.
  split_and!.
  - unfold verify_binding_token.
    destruct (verify_body secret_key token fp now) as [d|e] eqn:Hb; simpl.
    + exists d. split; [done|]. by apply verify_body_answer in Hb.
    + destruct (decide _); eexists; (split; [done | apply answer_invalid]).
  - intros s e -> He. unfold verify_binding_token, verify_body. simpl.
    rewrite He. simpl. by rewrite decide_False by (by eapply b64_bytes_class).
  - intros s tu tj td field -> Hb Hd Hl Hm.
    unfold verify_binding_token, verify_body. cbn -[first_missing].
    rewrite Hb. cbn -[first_missing]. rewrite Hd. cbn -[first_missing].
    rewrite Hl. cbn -[first_missing]. by rewrite Hm.
Qed.

(** ** Signatures *)

Lemma flip_byte_ne (k : nat) (b : byte) : k < 8 -> flip_byte k b <> b.
Proof.
  intros Hk.
  do 8 (destruct k as [|k]; [destruct b; vm_compute; discriminate|]). lia.
Qed.

Lemma flip_bit_ne (i : nat) (b : bytes) : i < 8 * length b -> flip_bit i b <> b.
Proof.
  intros Hi Heq. unfold flip_bit in Heq.
  assert (i / 8 < length b) as Hj by (apply Nat.Div0.div_lt_upper_bound; lia).
  destruct (lookup_lt_is_Some_2 b (i / 8) Hj) as [x Hx].
  pose proof (list_lookup_alter_eq (flip_byte (i mod 8)) b (i / 8)) as Ha.
  rewrite Heq, Hx in Ha.
  change (Some x = Some (flip_byte (i mod 8) x)) in Ha. injection Ha as Ha.
  symmetry in Ha. revert Ha. apply flip_byte_ne.
  pose proof (Nat.mod_upper_bound i 8). lia.
Qed.

Lemma token_data_complete (payload64 signature64 : string) :
  first_missing (JDict (token_data payload64 signature64))
                ["payload"; "signature"; "version"] = Return None.
Proof. done. Qed.

(** The steps of the verification up to the signature check, on a token
    that decodes to a payload and a signature. *)
Lemma verify_decoded (secret_key : bytes) (token : string) (fp : dict) (now : Z)
    (payload_bytes signature : bytes) :
  decodes_to token payload_bytes signature ->
  verify_body secret_key (JStr token) fp now
  = if negb (compare_digest signature (hmac_sha256 secret_key payload_bytes))
    then Return (invalid "Invalid token signature")
    else
      payload_json ← raising UnicodeDecodeError (bytes_decode UTF8 payload_bytes);
      payload ← json_loads payload_json;
      expires_at ← attr_get payload "expires_at" (JInt 0);
      int_gt now expires_at ≫= fun expired : bool =>
      if expired then Return (invalid "Token expired")
      else
        fingerprint_hash ← attr_get payload "fingerprint_hash" JNull;
        if negb (py_eq fingerprint_hash (get fp "fingerprint_hash"))
        then Return [("valid", JBool false);
                     ("error", JStr "Document fingerprint mismatch");
                     ("expected_fingerprint", fingerprint_hash);
                     ("actual_fingerprint", get fp "fingerprint_hash")]
        else
          qr_data ← attr_get payload "qr_data" JNull;
          issued_at ← attr_get payload "issued_at" JNull;
          expires_at ← attr_get payload "expires_at" JNull;
          document_uuid ← attr_get payload "document_id" JNull;
          _ ← getitem fp "document_id";
          Return [("valid", JBool true);
                  ("qr_data", qr_data);
                  ("issued_at", issued_at);
                  ("expires_at", expires_at);
                  ("document_id", get fp "document_id");
                  ("document_uuid", document_uuid);
                  ("verification_time", JInt now)].
Proof.
  intros (tu & tj & p64 & s64 & Hb & Hd & Hl & Hp & Hs).
  unfold verify_body. simpl. rewrite Hb. simpl. rewrite Hd. simpl.
  rewrite Hl. simpl. rewrite Hp. simpl. rewrite Hs. simpl. done.
Qed.

(** C3. [generate_binding_token] returns the encoding of the payload bytes
    with their HMAC. Take the token that stores the same payload with a
    signature differing from the HMAC in exactly one bit:
    [verify_binding_token] answers [valid] false with the reason
    ["Invalid token signature"], for every fingerprint and at every time; it
    never answers [valid] true. *)
Theorem tampered_signature_rejected (secret_key : bytes) (fp fp' : dict)
    (qr_data : string) (expiry_hours issued_clock expires_clock now : Z)
    (payload_bytes : bytes) (i : nat) (token' : string) :
  binding_payload_bytes fp qr_data expiry_hours issued_clock expires_clock
  = Return payload_bytes ->
  i < 8 * length (hmac_sha256 secret_key payload_bytes) ->
  encode_token payload_bytes (flip_bit i (hmac_sha256 secret_key payload_bytes))
  = Return token' ->
  decodes_to token' payload_bytes (flip_bit i (hmac_sha256 secret_key payload_bytes)) ->
  (forall token,
     encode_token payload_bytes (hmac_sha256 secret_key payload_bytes) = Return token ->
     generate_binding_token secret_key fp qr_data expiry_hours issued_clock expires_clock
     = Return token) /\
  verify_binding_token secret_key (JStr token') fp' now
  = Return (invalid "Invalid token signature") /\
  get (invalid "Invalid token signature") "valid" = JBool false /\
  get (invalid "Invalid token signature") "error" = JStr "Invalid token signature".
Proof.
  intros Hpb Hi _ Hdec. split.
  { intros token Henc. unfold generate_binding_token. rewrite Hpb. simpl.
    by rewrite Henc. }
  split; [|done].
  unfold verify_binding_token. rewrite (verify_decoded _ _ _ _ _ _ Hdec).
  unfold compare_digest. rewrite bool_decide_eq_false_2; [done|].
  by apply flip_bit_ne.
Qed.


(** ** Tokens in time *)

(** A token verified against the fingerprint it was issued for: it is
    valid, with the original [qr_data], up to and including the second
    [expires_clock + expiry_hours * 3600], where [expires_clock] is the
    second reading of the clock, and it is expired after that. The payload
    is serialized with sorted keys, so [json.loads] gives back a dict with
    the same items in another order. *)
Lemma token_soundness (secret_key : bytes) (fp : dict) (qr_data : string)
    (expiry_hours issued_clock expires_clock now : Z)
    (document_id : json) (fingerprint_hash : string)
    (payload_bytes : bytes) (token : string) (payload : dict) :
  lookup_key fp "document_id" = Some document_id ->
  lookup_key fp "fingerprint_hash" = Some (JStr fingerprint_hash) ->
  binding_payload_bytes fp qr_data expiry_hours issued_clock expires_clock
  = Return payload_bytes ->
  encode_token payload_bytes (hmac_sha256 secret_key payload_bytes) = Return token ->
  decodes_to token payload_bytes (hmac_sha256 secret_key payload_bytes) ->
  payload_decodes_to payload_bytes payload ->
  same_items payload
    (binding_payload document_id (JStr fingerprint_hash) qr_data
                     expiry_hours issued_clock expires_clock) ->
  generate_binding_token secret_key fp qr_data expiry_hours issued_clock expires_clock
  = Return token /\
  ((now <= expires_clock + expiry_hours * 3600)%Z ->
   verify_binding_token secret_key (JStr token) fp now
   = Return [("valid", JBool true);
             ("qr_data", JStr qr_data);
             ("issued_at", JInt issued_clock);
             ("expires_at", JInt (expires_clock + expiry_hours * 3600));
             ("document_id", document_id);
             ("document_uuid", document_id);
             ("verification_time", JInt now)]) /\
  ((expires_clock + expiry_hours * 3600 < now)%Z ->
   verify_binding_token secret_key (JStr token) fp now
   = Return (invalid "Token expired")).
Proof.
  intros Hid Hfh Hpb Henc Hdec (pj & Hpd & Hpl) Hsame.
  split.
  { unfold generate_binding_token. rewrite Hpb. simpl. by rewrite Henc. }
  unfold verify_binding_token. rewrite (verify_decoded _ _ _ _ _ _ Hdec).
  unfold compare_digest. rewrite bool_decide_eq_true_2 by done. simpl.
  rewrite Hpd. simpl. rewrite Hpl. simpl.
  unfold get_default, get, getitem. rewrite !Hsame, Hid, Hfh. simpl.
  rewrite Z.mul_1_r.
  split; intros Hnow.
  - rewrite bool_decide_eq_false_2 by lia. simpl.
    by rewrite bool_decide_eq_true_2.
  - by rewrite bool_decide_eq_true_2 by lia.
Qed.

(** ** Fingerprints *)

Lemma fingerprint_unfold (docs : documents) (document_path uuid4 : string)
    (now : Z) (d : dict) :
  generate_document_fingerprint docs document_path uuid4 now = Return d ->
  exists doc data,
    docs !! document_path = Some doc /\
    raising UnicodeEncodeError
      (str_encode UTF8
         (json_dumps true false (JDict (document_fields doc document_path uuid4 now))))
    = Return data /\
    d = setitem (document_fields doc document_path uuid4 now) "fingerprint_hash"
                (JStr (hexdigest (sha256 data))).
Proof.
  unfold generate_document_fingerprint.
  destruct (docs !! document_path) as [doc|]; [|done].
  destruct (decide _); [done|].
  destruct (raising _ _) as [data|e] eqn:Hd; simpl; [|done].
  intros [= <-]. by exists doc, data.
Qed.

(** What goes into the hash of a fingerprint: it is the SHA-256 of the
    canonical JSON of all its other fields, and these include the
    [document_id] drawn in the call and the [timestamp]. Two fingerprints of
    one document agree on every field but [document_id], [timestamp] and
    [fingerprint_hash]. *)
Lemma fingerprint_hash_inputs (docs : documents) (document_path : string)
    (uuid1 uuid2 : string) (now1 now2 : Z) (d1 d2 : dict) :
  generate_document_fingerprint docs document_path uuid1 now1 = Return d1 ->
  generate_document_fingerprint docs document_path uuid2 now2 = Return d2 ->
  (exists doc data,
     docs !! document_path = Some doc /\
     raising UnicodeEncodeError
       (str_encode UTF8
          (json_dumps true false (JDict (document_fields doc document_path uuid1 now1))))
     = Return data /\
     get (document_fields doc document_path uuid1 now1) "document_id" = JStr uuid1 /\
     get (document_fields doc document_path uuid1 now1) "timestamp" = JInt now1 /\
     get d1 "fingerprint_hash" = JStr (hexdigest (sha256 data))) /\
  (forall k, k <> "document_id" -> k <> "timestamp" -> k <> "fingerprint_hash" ->
     lookup_key d1 k = lookup_key d2 k).
Proof.
  intros H1 H2. split.
  - apply fingerprint_unfold in H1 as (doc & data & Hdoc & Hdata & ->).
    exists doc, data. split_and!; try done.
  - intros k Hid Hts Hfh.
    apply fingerprint_unfold in H1 as (doc & data1 & Hdoc & _ & ->).
    apply fingerprint_unfold in H2 as (doc' & data2 & Hdoc' & _ & ->).
    assert (doc' = doc) as -> by congruence.
    unfold document_fields, fingerprint_fields. simpl.
    repeat (destruct (decide (_ = k)); [done || congruence|]). done.
Qed.

End WithRuntime.

End BinderFacts.

(** * The theorems at concrete inputs, with the reference libraries *)

Module Concrete.
Import Binder Examples.

(** C2, at a concrete input: one unchanged document, one timestamp, two
    calls that draw different UUIDs. The two fingerprints agree on every
    field but [document_id] and [fingerprint_hash], and their hashes differ:
    the hash of a document cannot be computed again. A token bound to the
    first fingerprint is refused on the same, unchanged document by
    [quick_binding_verification], which fingerprints it anew. *)
Lemma fingerprint_hash_differs :
  exists (d1 d2 : dict) (token env : string),
    generate_document_fingerprint docs "/tmp/report.txt" uuid_a 1700000100 = Return d1 /\
    generate_document_fingerprint docs "/tmp/report.txt" uuid_b 1700000100 = Return d2 /\
    get d1 "fingerprint_hash"
    = JStr "9d5a918905d6ce82bc595e00057d05e1004559dc9b208732788237ef2b8ff76c" /\
    get d2 "fingerprint_hash"
    = JStr "750ddab2a461d816fcca0f5c3982bed69d4d97d2a8953bf037912954e56096eb" /\
    (forall k, k <> "document_id" -> k <> "fingerprint_hash" ->
       lookup_key d1 k = lookup_key d2 k) /\
    generate_binding_token secret_key d1 "hello" 24 1700000100 1700000100 = Return token /\
    create_secure_qr_data "hello" token 1700000100 = Return env /\
    quick_binding_verification secret_key docs env "/tmp/report.txt" uuid_b
                               1700000100 1700000200
    = Return [("binding_verified", JBool false);
              ("is_legacy", JBool false);
              ("verification_details",
               JDict [("valid", JBool false);
                      ("error", JStr "Document fingerprint mismatch");
                      ("expected_fingerprint", get d1 "fingerprint_hash");
                      ("actual_fingerprint", get d2 "fingerprint_hash")]);
              ("document_id", JStr uuid_b)].
Proof.
  eexists _, _, _, _. split; [vm_compute; reflexivity|].
  split; [vm_compute; reflexivity|].
  split; [vm_compute; reflexivity|].
  split; [vm_compute; reflexivity|].
  split.
  { intros k Hid Hfh. cbn [lookup_key].
    repeat (destruct (decide (_ = k)) as [<-|?]; [done|]). done. }
  split; [vm_compute; reflexivity|].
  split; [vm_compute; reflexivity|].
  vm_compute; reflexivity.
Qed.

Lemma fingerprint_hash_inputs_example :
  exists d1 d2,
    generate_document_fingerprint docs "/tmp/report.txt" uuid_a 1700000100 = Return d1 /\
    generate_document_fingerprint docs "/tmp/report.txt" uuid_b 1700000200 = Return d2 /\
    forall k, k <> "document_id" -> k <> "timestamp" -> k <> "fingerprint_hash" ->
      lookup_key d1 k = lookup_key d2 k.
Proof.
  eexists _, _. split; [vm_compute; reflexivity|].
  split; [vm_compute; reflexivity|].
  apply (BinderFacts.fingerprint_hash_inputs docs "/tmp/report.txt"
           uuid_a uuid_b 1700000100 1700000200);
    vm_compute; reflexivity.
Qed.



(** The token for ["hello"], issued at second 1000 for 24 hours, with the
    lowest bit of its signature flipped. *)
Lemma tampered_signature_rejected_witness :
  exists payload_bytes token',
    binding_payload_bytes fingerprint "hello" 24 1000 1000 = Return payload_bytes /\
    encode_token payload_bytes (flip_bit 0 (hmac_sha256 secret_key payload_bytes))
    = Return token' /\
    verify_binding_token secret_key (JStr token') fingerprint 2000
    = Return (invalid "Invalid token signature").
Proof.
  eexists _, _. split; [vm_compute; reflexivity|].
  split; [vm_compute; reflexivity|].
  edestruct (BinderFacts.tampered_signature_rejected secret_key fingerprint fingerprint
               "hello" 24 1000 1000 2000) with (i := 0) as (_ & Hrejected & _).
  - vm_compute; reflexivity.
  - apply Nat.ltb_lt. vm_compute. reflexivity.
  - vm_compute; reflexivity.
  - eexists _, _, _, _. split_and!.
    + vm_compute; reflexivity.
    + vm_compute; reflexivity.
    + vm_compute; reflexivity.
    + vm_compute; reflexivity.
    + vm_compute; reflexivity.
  - exact Hrejected.
Defined.

(** C4, at a concrete input: the clock reads 1000 for [issued_at] and 1001
    for [expires_at], one hour of validity. The token carries
    [expires_at = 4601], not [issued_at + 3600 = 4600], and at second 4601,
    after [issued_at + 3600] has passed, it is still accepted. *)
Lemma clock_tick_between_reads :
  exists payload_bytes token,
    binding_payload_bytes fingerprint "x" 1 1000 1001 = Return payload_bytes /\
    payload_decodes_to payload_bytes
      [("document_id", JStr uuid_a);
       ("expires_at", JInt 4601);
       ("fingerprint_hash", get fingerprint "fingerprint_hash");
       ("issued_at", JInt 1000);
       ("qr_data", JStr "x");
       ("version", JStr "2.0")] /\
    generate_binding_token secret_key fingerprint "x" 1 1000 1001 = Return token /\
    verify_binding_token secret_key (JStr token) fingerprint 4601
    = Return [("valid", JBool true);
              ("qr_data", JStr "x");
              ("issued_at", JInt 1000);
              ("expires_at", JInt 4601);
              ("document_id", JStr uuid_a);
              ("document_uuid", JStr uuid_a);
              ("verification_time", JInt 4601)].
Proof.
  eexists _, _. split; [vm_compute; reflexivity|].
  split.
  { eexists. split.
    - vm_compute; reflexivity.
    - vm_compute; reflexivity. }
  split.
  - vm_compute; reflexivity.
  - vm_compute; reflexivity.
Qed.

(** C5, at two concrete inputs: a token that is no base64 (["abc"]: wrong
    padding) and the base64 of a JSON object with the key ["payload"]
    alone. Both calls return a refusal; neither raises. *)
Lemma malformed_tokens_are_answered :
  verify_binding_token secret_key (JStr "abc") fingerprint 2000
  = Return (invalid "Verification failed: Incorrect padding") /\
  verify_binding_token secret_key (JStr "eyJwYXlsb2FkIjogIngifQ==") fingerprint 2000
  = Return (invalid "Missing token field: signature").
Proof. split; vm_compute; reflexivity. Qed.

Lemma compact_envelope_is_legacy_witness :
  json_loads (compact_secure_data "hello" "tokentokentoken")
  = Return (JDict [("v", JStr "1.0"); ("t", JStr "s"); ("d", JStr "hello");
                   ("b", JStr (truncated "tokentokentoken"))]) /\
  parse_secure_qr_data (compact_secure_data "hello" "tokentokentoken")
  = Return (legacy (compact_secure_data "hello" "tokentokentoken")).
Proof.
  split; [vm_compute; reflexivity|].
  apply (BinderFacts.compact_envelope_is_legacy "hello" "tokentokentoken"
           secret_key docs "/tmp/report.txt" uuid_a 1700000100 1700000200).
  vm_compute; reflexivity.
Defined.

(** The same soundness statement on the reference libraries: issued at
    second 1000 for 24 hours, verified at second 2000. *)
Lemma token_soundness_witness :
  exists token,
    generate_binding_token secret_key fingerprint "hello" 24 1000 1000 = Return token /\
    verify_binding_token secret_key (JStr token) fingerprint 90000
    = Return (invalid "Token expired").
Proof.
  eexists.
  edestruct (BinderFacts.token_soundness secret_key fingerprint "hello" 24 1000 1000 90000
               (JStr uuid_a)) as (Hgen & _ & Hexp).
  - reflexivity.
  - reflexivity.
  - vm_compute; reflexivity.
  - vm_compute; reflexivity.
  - eexists _, _, _, _. split_and!.
    + vm_compute; reflexivity.
    + vm_compute; reflexivity.
    + vm_compute; reflexivity.
    + vm_compute; reflexivity.
    + vm_compute; reflexivity.
  - eexists. split.
    + vm_compute; reflexivity.
    + vm_compute; reflexivity.
  - intros k. cbn [lookup_key binding_payload].
    repeat (destruct (decide (_ = k)) as [<-|?]; [done|]). done.
  - split; [exact Hgen|]. apply Hexp. lia.
Defined.


Import Lsb.

(** C1, at a concrete input: a 7 x 6 cover (42 pixels) and a 2 x 1 payload,
    [2 * 1 + 40 = 42]. Both capacity checks pass, every pixel receives a
    bit, the loops end without the save branch being reached: the call
    returns, no stego file exists, and the extraction finds no file. *)
Lemma exact_fit_is_not_saved :
  width payload * height payload + 40 = width (cover 7 6) * height (cover 7 6) /\
  embed_qr_to_image Reference.resample Reference.dither (folder 7 6)
                    "cover.png" "qr.png" "stego.png" true
  = (Return (), folder 7 6) /\
  folder 7 6 !! "stego.png" = None /\
  extract_qr_from_image Reference.splitext_root (folder 7 6) "stego.png" "out.png"
  = (Raise (StegoNotFound "stego.png"), folder 7 6).
Proof. split_and!; vm_compute; reflexivity. Qed.

(** One pixel more and the round trip goes through. *)
Lemma round_trip_below_capacity :
  exists fs',
    embed_qr_to_image Reference.resample Reference.dither (folder 43 1)
                      "cover.png" "qr.png" "stego.png" true = (Return (), fs') /\
    (extract_qr_from_image Reference.splitext_root fs' "stego.png" "out.png").1 = Return () /\
    (extract_qr_from_image Reference.splitext_root fs' "stego.png" "out.png").2 !! "out.png"
    = Some (ImageFile (Pic1 payload)).
Proof.
  eexists. split; [vm_compute; reflexivity|].
  split; vm_compute; reflexivity.
Qed.

Lemma cover_wf (w h : nat) : wf_rgb (cover w h).
Proof.
  split; [unfold wf_image; simpl; by rewrite length_replicate|].
  simpl. apply Forall_replicate. unfold rgb_ok, channel_ok. lia.
Qed.

Lemma payload_u16 : u16 (width payload) /\ u16 (height payload).
Proof. unfold u16. split; apply Nat.ltb_lt; vm_compute; reflexivity. Qed.



Lemma no_resize_capacity_error_witness :
  width (cover 5 6) * height (cover 5 6) < width payload * height payload + 40 /\
  embed_qr_to_image Reference.resample Reference.dither (folder 5 6)
                    "cover.png" "qr.png" "stego.png" false
  = (Raise (CapacityInsufficient 42 30), folder 5 6).
Proof.
  split; [simpl; lia|].
  apply (LsbFacts.no_resize_capacity_error Reference.resample Reference.dither (folder 5 6)
           "cover.png" "qr.png" "stego.png" (PicRGB (cover 5 6)) (Pic1 payload)).
  - reflexivity.
  - reflexivity.
  - vm_compute; reflexivity.
  - simpl; lia.
Defined.


(** Scenario B of the specification: a 20 x 20 cover and a 30 x 30 payload;
    [floor (sqrt 360) = 18], the payload is resized to 18 x 18 and
    [18 * 18 + 40 <= 400]. *)
Lemma resize_policy_witness :
  _resize_qr_for_capacity Reference.resample (Image 30 30 (replicate 900 0%Z)) 400
  = Return (resize Reference.resample (Image 30 30 (replicate 900 0%Z)) 18 18 NEAREST) /\
  (Z.of_nat (18 * 18) + 40 <= 400)%Z.
Proof.
  split.
  - apply (LsbFacts.resize_policy Reference.resample (Image 30 30 (replicate 900 0%Z)) 400);
      [reflexivity | simpl; lia].
  - apply (LsbFacts.resize_policy Reference.resample (Image 30 30 (replicate 900 0%Z)) 400).
    reflexivity.
Defined.

(** Scenario A of the specification: a 100 x 100 cover and a 21 x 21
    payload, [441 + 40 <= 10000]: no resize, exact round trip. *)
Lemma round_trip_scenario_A :
  let qr := Image 21 21 (replicate (21 * 21) 0%Z) in
  let fs : gmap string file :=
    <["cover.png" := ImageFile (PicRGB (cover 100 100))]>
      (<["qr.png" := ImageFile (Pic1 qr)]> ∅) in
  exists stego,
    embed_qr_to_image Reference.resample Reference.dither fs
                      "cover.png" "qr.png" "stego.png" true
    = (Return (), <["stego.png" := ImageFile (PicRGB stego)]> fs) /\
    extract_qr_from_image Reference.splitext_root
      (<["stego.png" := ImageFile (PicRGB stego)]> fs) "stego.png" "out.png"
    = (Return (), <["out.png" := ImageFile (Pic1 qr)]>
                    (<["stego.png" := ImageFile (PicRGB stego)]> fs)).
Proof.
  intros qr fs.
  apply (LsbFacts.embed_extract_round_trip Reference.resample Reference.dither
           Reference.splitext_root fs "cover.png" "qr.png" "stego.png" "out.png" true
           (cover 100 100) qr).
  - reflexivity.
  - reflexivity.
  - vm_compute; reflexivity.
  - apply cover_wf.
  - split; [unfold wf_image, qr; cbn [pixels width height]; by rewrite length_replicate|].
    unfold qr. cbn [pixels]. apply Forall_replicate. by left.
  - unfold u16. apply Nat.ltb_lt. vm_compute. reflexivity.
  - unfold u16. apply Nat.ltb_lt. vm_compute. reflexivity.
  - simpl; lia.
  - simpl; lia.
  - apply Nat.ltb_lt. vm_compute. reflexivity.
Qed.

End Concrete.

(** * More about the bit codec and the two drivers *)

Module LsbMore.
Import Lsb LsbFacts.

(** ** The fixed-width binary fields *)

Lemma pos_digits_size (p : positive) (acc : bitstr) :
  length (pos_digits p acc) = Pos.size_nat p + length acc.
Proof.
  revert acc. induction p as [q IH|q IH|]; intros acc; simpl; [| |done].
  all: rewrite IH; simpl; lia.
Qed.

Lemma size_nat_bound (p : positive) (k : nat) :
  Pos.size_nat p <= k <-> (Npos p < 2 ^ N.of_nat k)%N.
Proof.
  revert k. induction p as [q IH|q IH|]; intros k.
  1,2: destruct k as [|k]; [simpl; lia|].
  1,2: rewrite Nat2N.inj_succ, N.pow_succ_r'; simpl Pos.size_nat.
  1,2: specialize (IH k); lia.
  destruct k as [|k]; [simpl; lia|].
  rewrite Nat2N.inj_succ, N.pow_succ_r'. simpl Pos.size_nat.
  assert (0 < 2 ^ N.of_nat k)%N by (apply N.neq_0_lt_0, N.pow_nonzero; lia).
  lia.
Qed.

Lemma format_b_fits (n : N) (k : nat) :
  length (format_b n) <= k <-> 1 <= k /\ (n < 2 ^ N.of_nat k)%N.
Proof.
  destruct n as [|p]; simpl.
  - assert (0 < 2 ^ N.of_nat k)%N by (apply N.neq_0_lt_0, N.pow_nonzero; lia). lia.
  - rewrite pos_digits_size, Nat.add_0_r, size_nat_bound.
    split; [|tauto]. intros Hlt. split; [|done].
    destruct k; [simpl in Hlt; lia | lia].
Qed.

Lemma pow_N_nat (k : nat) : (2 ^ N.of_nat k)%N = N.of_nat (2 ^ k).
Proof.
  induction k as [|k IH]; [done|].
  rewrite Nat2N.inj_succ, N.pow_succ_r', IH, Nat.pow_succ_r'. lia.
Qed.

Lemma int_to_binary_width (n bits : nat) :
  length (_int_to_binary n bits) = bits <-> 1 <= bits /\ n < 2 ^ bits.
Proof.
  unfold _int_to_binary. rewrite length_app, length_replicate.
  pose proof (format_b_fits (N.of_nat n) bits) as Hf.
  rewrite pow_N_nat in Hf.
  assert (0 < length (format_b (N.of_nat n))).
  { destruct (format_b (N.of_nat n)) eqn:E; [by apply format_b_nonempty in E|simpl; lia]. }
  split; intros Hl.
  - assert (length (format_b (N.of_nat n)) <= bits) as Hle by lia.
    apply Hf in Hle. lia.
  - assert (length (format_b (N.of_nat n)) <= bits) by (apply Hf; lia). lia.
Qed.

(** X1. [_int_to_binary] and [_binary_to_int] (lines 22-33). For every
    integer [n >= 0] and every width, reading back the field gives [n]; the
    field is made of ['0'] and ['1'] only; it is never shorter than the
    width, and it has exactly the width if and only if the width is at least
    1 and [n < 2 ^ bits]: a number that needs more digits is written in
    full, not truncated. *)
Theorem binary_codec (n bits : nat) :
  _binary_to_int (_int_to_binary n bits) = Some n /\
  Forall is_bit (_int_to_binary n bits) /\
  bits <= length (_int_to_binary n bits) /\
  (length (_int_to_binary n bits) = bits <-> 1 <= bits /\ n < 2 ^ bits).
Proof.
  split_and!.
  - apply binary_round_trip.
  - apply int_to_binary_bits.
  - unfold _int_to_binary. rewrite length_app, length_replicate. lia.
  - apply int_to_binary_width.
Qed.

(** The value of a string of binary digits, with the accumulator made
    explicit. *)
Lemma parse_bits_value (s : bitstr) :
  Forall is_bit s ->
  exists v : N, (v < 2 ^ N.of_nat (length s))%N /\
    forall a : N, parse_bits a s = Some (a * 2 ^ N.of_nat (length s) + v)%N.
Proof.
  induction 1 as [|c s Hc _ (v & Hv & IH)].
  - exists 0%N. split; [simpl; lia|]. intros a. simpl. f_equal. lia.
  - cbn [length]. rewrite Nat2N.inj_succ, N.pow_succ_r'.
    destruct Hc as [-> | ->].
    + exists v. split; [lia|]. intros a. simpl. rewrite IH. f_equal. lia.
    + exists (2 ^ N.of_nat (length s) + v)%N. split; [lia|].
      intros a. simpl. rewrite IH. f_equal. lia.
Qed.

Lemma parse_bits_inj (s t : bitstr) (a : N) :
  Forall is_bit s -> Forall is_bit t -> length s = length t ->
  parse_bits a s = parse_bits a t -> s = t.
Proof.
  intros Hs. revert t a. induction Hs as [|c s Hc Hs IH]; intros t a Ht Hlen Heq.
  - by destruct t.
  - destruct t as [|d t]; [done|]. inversion Ht as [|? ? Hd Ht']; subst.
    injection Hlen as Hlen.
    destruct (parse_bits_value s Hs) as (v & Hv & Hps).
    destruct (parse_bits_value t Ht') as (v' & Hv' & Hpt).
    rewrite <- Hlen in Hv', Hpt.
    assert (0 < 2 ^ N.of_nat (length s))%N
      by (apply N.neq_0_lt_0, N.pow_nonzero; lia).
    destruct Hc as [-> | ->], Hd as [-> | ->]; simpl in Heq;
      rewrite Hps, Hpt in Heq; injection Heq as Heq.
    + f_equal. apply (IH t 0%N); [done..|]. rewrite Hps, Hpt. f_equal. lia.
    + exfalso. nia.
    + exfalso. nia.
    + f_equal. apply (IH t 0%N); [done..|]. rewrite Hps, Hpt. f_equal. lia.
Qed.

Lemma bits_field (s : bitstr) :
  s <> [] -> Forall is_bit s ->
  exists n : nat,
    _binary_to_int s = Some n /\
    n < 2 ^ length s /\
    _int_to_binary n (length s) = s.
Proof.
  intros Hne Hs.
  destruct (parse_bits_value s Hs) as (v & Hv & Hp).
  exists (N.to_nat v).
  assert (_binary_to_int s = Some (N.to_nat v)) as Hval.
  { unfold _binary_to_int. destruct s; [done|]. rewrite Hp. simpl. f_equal; lia. }
  assert (N.to_nat v < 2 ^ length s) as Hlt by (rewrite pow_N_nat in Hv; lia).
  split_and!; [done..|].
  pose proof (binary_round_trip (N.to_nat v) (length s)) as Hback.
  pose proof (int_to_binary_bits (N.to_nat v) (length s)) as Hbits.
  assert (length (_int_to_binary (N.to_nat v) (length s)) = length s) as Hl.
  { apply int_to_binary_width. split; [destruct s; [done|simpl; lia] | done]. }
  apply (parse_bits_inj _ _ 0%N); [done..|].
  unfold _binary_to_int in Hback, Hval.
  destruct (_int_to_binary (N.to_nat v) (length s)) eqn:E1;
    [destruct s; [done|simpl in Hl; lia]|].
  destruct s eqn:E2; [done|]. rewrite <- E2 in *.
  destruct (parse_bits 0 (a :: l)) as [x|]; [|done].
  destruct (parse_bits 0 s) as [y|]; [|done].
  simpl in Hback, Hval. f_equal. injection Hback as ?. injection Hval as ?. lia.
Qed.


(** X2. The other direction of the codec (lines 22-33): every non-empty
    string of ['0'] and ['1'] is the fixed-width field of the number it
    denotes, so the two header fields determine the dimensions and the
    dimensions determine the fields. *)
Theorem binary_decode_encode (s : bitstr) :
  s <> [] -> Forall is_bit s ->
  exists n : nat,
    _binary_to_int s = Some n /\
    n < 2 ^ length s /\
    _int_to_binary n (length s) = s.
Proof. apply bits_field. Qed.

(** ** One bit in one sample *)

(** X3. [_embed_bit] followed by [_extract_lsb] (lines 36-54), for every
    integer sample and every character: the bit read back is ['0'] when
    ['0'] was written and ['1'] otherwise, since [_embed_bit] sets the LSB
    for every character other than ['0']. *)
Theorem lsb_read_back (pixel_value : Z) (bit : ascii) :
  _extract_lsb (_embed_bit pixel_value bit)
  = if decide (bit = "0"%char) then "0"%char else "1"%char.
Proof.
  unfold _extract_lsb, _embed_bit. destruct (decide (bit = "0"%char)).
  - rewrite decide_False; [done|]. rewrite land_254_even. lia.
  - rewrite decide_True; [done|]. apply lor_1_odd.
Qed.

Lemma samples_all (P : Z -> Prop) :
  (forall n, n < 256 -> P (Z.of_nat n)) -> forall v, channel_ok v -> P v.
Proof.
  intros HP v [Hlo Hhi]. rewrite <- (Z2Nat.id v) by done. apply HP. lia.
Qed.

Lemma below_all (f : nat -> bool) (k : nat) :
  forallb f (seq 0 k) = true -> forall n, n < k -> f n = true.
Proof.
  intros Hall n Hn. rewrite forallb_forall in Hall. apply Hall.
  apply in_seq. lia.
Qed.

(** X4. What [_embed_bit] (lines 36-46) does to an 8-bit sample: the result
    is again an 8-bit sample, it differs from the sample by at most 1,
    writing the same bit again changes nothing, and a sample whose LSB is
    already the bit is left as it is. *)
Theorem embed_bit_distortion (pixel_value : Z) (bit : ascii) :
  channel_ok pixel_value ->
  channel_ok (_embed_bit pixel_value bit) /\
  (Z.abs (_embed_bit pixel_value bit - pixel_value) <= 1)%Z /\
  _embed_bit (_embed_bit pixel_value bit) bit = _embed_bit pixel_value bit /\
  (_extract_lsb pixel_value = (if decide (bit = "0"%char) then "0"%char else "1"%char) ->
   _embed_bit pixel_value bit = pixel_value).
Proof.
  revert pixel_value. apply samples_all. intros n Hn.
  unfold channel_ok, _embed_bit, _extract_lsb.
  destruct (decide (bit = "0"%char)) as [_|_].
  - pose proof (below_all
      (fun n => let v := Z.of_nat n in let v' := Z.land v 254 in
         (0 <=? v') && (v' <? 256) && (Z.abs (v' - v) <=? 1) && (Z.land v' 254 =? v')
         && ((v mod 2 =? 1) || (v' =? v)))%Z 256 ltac:(vm_compute; reflexivity) n Hn) as Hc.
    cbv zeta in Hc. rewrite !andb_true_iff, orb_true_iff in Hc.
    destruct Hc as ((((H1 & H2) & H3) & H4) & H5).
    split_and!; try lia.
    destruct (decide _); [done|]. lia.
  - pose proof (below_all
      (fun n => let v := Z.of_nat n in let v' := Z.lor v 1 in
         (0 <=? v') && (v' <? 256) && (Z.abs (v' - v) <=? 1) && (Z.lor v' 1 =? v')
         && (negb (v mod 2 =? 1) || (v' =? v)))%Z 256 ltac:(vm_compute; reflexivity) n Hn) as Hc.
    cbv zeta in Hc. rewrite !andb_true_iff, orb_true_iff, negb_true_iff in Hc.
    destruct Hc as ((((H1 & H2) & H3) & H4) & H5).
    split_and!; try lia.
    destruct (decide _); [lia|done].
Qed.

(** ** The drivers *)

Section Drivers.
Variable resample : image bilevel -> nat -> nat -> Resampling -> list bilevel.
Variable dither : image rgb -> list bilevel.
Variable splitext_root : string -> string.

(** X5. Round trip with a pixel to spare (lines 90-363): for image files of
    any mode, with [cover] the cover as [convert('RGB')] reads it and [qr]
    the payload as [convert('1')] reads it, payload dimensions from 1 to
    65535 (an image file has no side of 0 pixels) and [w * h + 40 < P], the
    embedding saves a stego image of the size of the cover at the output
    path, and the extraction from that file saves a bilevel image equal to
    [qr], pixel for pixel, at the output path with its extension made
    [.png]; with or without the resize option. *)
Theorem spare_pixel_round_trip (fs : files)
    (cover_path qr_path out out_qr : string) (flag : bool)
    (cover_pic qr_pic : picture) :
  let cover := convert_RGB cover_pic in
  let qr := convert_1 dither qr_pic in
  let out_qr' := if negb (str_endswith (lower out_qr) ".png")
                 then (splitext_root out_qr ++ ".png")%string else out_qr in
  fs !! cover_path = Some (ImageFile cover_pic) ->
  fs !! qr_path = Some (ImageFile qr_pic) ->
  str_endswith (lower out) ".png" = true ->
  wf_image cover -> wf_bilevel qr -> u16 (width qr) -> u16 (height qr) ->
  0 < width qr -> 0 < height qr ->
  width qr * height qr + 40 < width cover * height cover ->
  exists stego : image rgb,
    width stego = width cover /\ height stego = height cover /\
    embed_qr_to_image resample dither fs cover_path qr_path out flag
    = (Return (), <[out := ImageFile (PicRGB stego)]> fs) /\
    extract_qr_from_image splitext_root (<[out := ImageFile (PicRGB stego)]> fs) out out_qr
    = (Return (), <[out_qr' := ImageFile (Pic1 qr)]>
                    (<[out := ImageFile (PicRGB stego)]> fs)).
Proof.
  intros cover qr out_qr' Hc Hq Hpng Hwf [Hwq Hbw] Hqw Hqh Hw0 Hh0 Hfit.
  rewrite (embed_unfold _ _ _ _ _ _ _ _ _ Hc Hq Hpng).
  fold cover. fold qr.
  unfold embed_body, fit_qr. change (16 + 16 + HEADER_TERMINATOR_LEN) with 40.
  rewrite decide_False by lia. simpl.
  rewrite embed_stream_fits by (done || lia).
  rewrite decide_True by lia.
  rewrite save_png_written by (simpl; destruct (width cover), (height cover); lia).
  eexists. split_and!; [| |done|]; [done..|]. fold out_qr'.
  unfold extract_qr_from_image.
  rewrite (path_exists_lookup _ out (ImageFile (PicRGB _))) by apply lookup_insert_eq.
  simpl negb. cbv iota.
  rewrite (Image_open_lookup _ out (PicRGB _)) by apply lookup_insert_eq.
  simpl.
  rewrite extract_written; try done.
  - destruct qr as [w h px]. simpl in *.
    rewrite save_png_written by done.
    assert (bit_pixel <$> (pixel_bit <$> px) = px) as ->; [|done].
    rewrite <- list_fmap_compose. rewrite <- (list_fmap_id px) at 2.
    apply list_fmap_ext. intros i v Hv. simpl. apply bit_pixel_bit.
    rewrite Forall_lookup in Hbw. by apply (Hbw i).
  - apply Forall_fmap, Forall_true. intros v. apply pixel_bit_is_bit.
  - by rewrite length_fmap.
  - rewrite length_app, length_fmap, header_length, Hwq, Hwf by done. lia.
Qed.

(** X6. The exact fit (lines 162-202): when the payload that is framed
    ([qr'], the payload itself or the one the resize made of it) has exactly
    [P - 40] pixels, both capacity checks pass, every pixel of the cover
    takes a bit and the loops end without the [except StopIteration] branch
    that saves the image: the call returns normally and no file is written
    or changed. *)
Theorem exact_fit_returns_without_saving (fs : files)
    (cover_path qr_path out : string) (flag : bool)
    (cover_pic qr_pic : picture) (qr' : image bilevel) :
  let cover := convert_RGB cover_pic in
  let qr := convert_1 dither qr_pic in
  fs !! cover_path = Some (ImageFile cover_pic) ->
  fs !! qr_path = Some (ImageFile qr_pic) ->
  str_endswith (lower out) ".png" = true ->
  wf_image cover ->
  fit_qr resample cover qr flag = Return qr' ->
  wf_image qr' -> u16 (width qr') -> u16 (height qr') ->
  width qr' * height qr' + 40 = width cover * height cover ->
  embed_qr_to_image resample dither fs cover_path qr_path out flag = (Return (), fs).
Proof.
  intros cover qr Hc Hq Hpng Hwf Hfit Hwq Hqw Hqh Hexact.
  rewrite (embed_unfold _ _ _ _ _ _ _ _ _ Hc Hq Hpng).
  fold cover. fold qr. unfold embed_body. rewrite Hfit. simpl.
  rewrite embed_stream_fits by (done || lia).
  by rewrite decide_False by lia.
Qed.

(** X7. With [resize_qr_if_needed=True] and a payload whose width and
    height are both below 65536, the embedding has no capacity failure but
    one (lines 57-87 and 141-164): for a cover of more than 40 pixels it
    returns normally, however many pixels the payload has, so the second
    capacity check (line 163) does not fire; for a cover of at most 40
    pixels that the payload does not fit it raises the [ValueError] of
    [_resize_qr_for_capacity] and writes nothing. Pillow's [resize] is
    assumed to return an image with as many pixels as its size says. The
    bound on the sides is needed: a side of 65536 or more makes the header
    longer than 40 bits, and then the check of line 163 can fire. *)
Theorem resize_enabled_outcome (fs : files)
    (cover_path qr_path out : string) (cover_pic qr_pic : picture) :
  let cover := convert_RGB cover_pic in
  let qr := convert_1 dither qr_pic in
  fs !! cover_path = Some (ImageFile cover_pic) ->
  fs !! qr_path = Some (ImageFile qr_pic) ->
  str_endswith (lower out) ".png" = true ->
  wf_image cover -> wf_image qr -> u16 (width qr) -> u16 (height qr) ->
  (forall d, length (resample qr d d NEAREST) = d * d) ->
  (40 < width cover * height cover ->
   (embed_qr_to_image resample dither fs cover_path qr_path out true).1 = Return ()) /\
  (width cover * height cover <= 40 ->
   width cover * height cover < width qr * height qr + 40 ->
   embed_qr_to_image resample dither fs cover_path qr_path out true
   = (Raise CoverTooSmallForHeader, fs) /\
   error_class CoverTooSmallForHeader = ValueError).
Proof.
  intros cover qr Hc Hq Hpng Hwf Hwq Hqw Hqh Hres.
  rewrite (embed_unfold _ _ _ _ _ _ _ _ _ Hc Hq Hpng).
  fold cover. fold qr. unfold embed_body, fit_qr.
  change (16 + 16 + HEADER_TERMINATOR_LEN) with 40.
  unfold _resize_qr_for_capacity.
  change (Z.of_nat (16 + 16 + HEADER_TERMINATOR_LEN)) with 40%Z.
  split.
  - intros Hbig. destruct (decide (_ < _)) as [Hover|Hfits].
    + rewrite decide_False by lia.
      assert (0 < Z.of_nat (width cover * height cover) - 40)%Z as Hpos by lia.
      pose proof (sqrt_dim _ Hpos) as [Hd _]. cbv zeta in Hd.
      rewrite decide_False by (apply too_large_not_within; lia).
      set (d := Z.to_nat (Z.sqrt (Z.of_nat (width cover * height cover) - 40))) in *.
      rewrite Nat.min_id.
      assert (d * d + 40 <= width cover * height cover) as Hle by lia.
      assert (u16 d) as Hud.
      { unfold u16 in *. destruct (decide (d < 2 ^ 16)) as [|Hge]; [done|].
        exfalso. assert (2 ^ 16 <= d) as Hd16 by lia.
        assert (width qr * height qr < 2 ^ 16 * 2 ^ 16) by nia.
        assert (2 ^ 16 * 2 ^ 16 <= d * d) by nia. lia. }
      simpl. rewrite embed_stream_fits; try done.
      * destruct (decide _); [|done].
        by rewrite save_png_written
          by (simpl; destruct (width cover), (height cover); lia).
      * unfold wf_image, resize. cbn [pixels width height]. apply Hres.
    + simpl. rewrite embed_stream_fits by (done || lia).
      destruct (decide _); [|done].
      by rewrite save_png_written
        by (simpl; destruct (width cover), (height cover); lia).
  - intros Hsmall Hover. split; [|done].
    rewrite decide_True by lia. by rewrite decide_True by lia.
Qed.

End Drivers.

(** ** What the extraction reads *)

Lemma lsbs_bits (px : list rgb) : Forall is_bit (lsbs px).
Proof.
  unfold lsbs. apply Forall_fmap, Forall_true. intros [[r g] b]. simpl.
  unfold _extract_lsb, is_bit. destruct (decide _); auto.
Qed.

(** The step of the header scan at pixel [j] of a raster. *)
Lemma header_loop_step (img : image rgb) (j m : nat) (bits : bitstr) (n : nat)
    (r g b : Z) :
  0 < width img -> pixels img !! j = Some (r, g, b) ->
  header_loop img (coord (width img) <$> seq j (S m)) bits n
  = let extracted_bits := bits ++ [_extract_lsb b] in
    if decide (num_header_bits <= length extracted_bits) then
      if endswith extracted_bits HEADER_TERMINATOR_BIN then
        let header_data := drop_last HEADER_TERMINATOR_LEN extracted_bits in
        if decide (length header_data = 32) then
          match _binary_to_int (take 16 header_data),
                _binary_to_int (drop 16 header_data) with
          | Some qr_width, Some qr_height => Return (qr_width, qr_height, n + 1)
          | _, _ => Raise BadBinary
          end
        else Raise HeaderLengthMismatch
      else if decide (num_header_bits + 500 < length extracted_bits)
      then Raise TerminatorNotFound
      else header_loop img (coord (width img) <$> seq (S j) m) extracted_bits (n + 1)
    else header_loop img (coord (width img) <$> seq (S j) m) extracted_bits (n + 1).
Proof.
  intros Hw Hpx. simpl seq. rewrite fmap_cons. cbn [header_loop].
  destruct (coord (width img) j) as [x y] eqn:Hc.
  pose proof (getpixel_coord img j Hw) as Hg. rewrite Hc in Hg. cbn [fst snd] in Hg.
  by rewrite Hg, Hpx.
Qed.

(** Past the 40th bit the scan cannot succeed any more: a terminator found
    later leaves more than 32 bits in front of it. *)
Lemma header_loop_late (img : image rgb) :
  0 < width img ->
  forall (m j : nat) (bits : bitstr) (n : nat),
    j + m <= length (pixels img) -> 40 <= length bits ->
    exists e, header_loop img (coord (width img) <$> seq j m) bits n = Raise e /\
              (e = HeaderNotFound \/ e = HeaderLengthMismatch \/ e = TerminatorNotFound).
Proof.
  intros Hw. induction m as [|m IH]; intros j bits n Hj Hlen.
  - exists HeaderNotFound. auto.
  - destruct (lookup_lt_is_Some_2 (pixels img) j ltac:(lia)) as [[[r g] b] Hpx].
    rewrite (header_loop_step _ _ _ _ _ _ _ _ Hw Hpx). cbv zeta.
    rewrite length_app. cbn [length].
    unfold num_header_bits. change HEADER_TERMINATOR_LEN with 8.
    rewrite decide_True by lia.
    destruct (endswith _ _).
    + unfold drop_last. rewrite length_take, length_app. cbn [length].
      rewrite decide_False by lia. exists HeaderLengthMismatch. auto.
    + destruct (decide _); [exists TerminatorNotFound; auto|].
      apply IH; [lia|]. rewrite length_app. simpl. lia.
Qed.

(** Before the 40th bit nothing is checked. *)
Lemma header_loop_early (img : image rgb) :
  0 < width img ->
  forall (d j : nat), j + d <= 39 -> j + d <= length (pixels img) ->
    header_loop img (coord (width img) <$> seq j (length (pixels img) - j))
                (take j (lsbs (pixels img))) j
    = header_loop img (coord (width img) <$> seq (j + d) (length (pixels img) - (j + d)))
                  (take (j + d) (lsbs (pixels img))) (j + d).
Proof.
  intros Hw. induction d as [|d IH]; intros j Hd Hlen.
  - by rewrite Nat.add_0_r.
  - destruct (lookup_lt_is_Some_2 (pixels img) j ltac:(lia)) as [[[r g] b] Hpx].
    replace (length (pixels img) - j) with (S (length (pixels img) - S j)) by lia.
    rewrite (header_loop_step _ _ _ _ _ _ _ _ Hw Hpx). cbv zeta.
    rewrite <- (take_S_r _ _ _ (lsbs_lookup _ _ _ _ _ Hpx)).
    rewrite length_take, lsbs_length.
    unfold num_header_bits. change HEADER_TERMINATOR_LEN with 8.
    rewrite decide_False by lia.
    replace (j + 1) with (S j) by lia.
    rewrite (IH (S j)) by lia.
    by replace (S j + d) with (j + S d) by lia.
Qed.

Lemma pixel_iterator_any (w h sx sy n : nat) :
  0 < w -> sx < w -> sy * w + sx <= h * w ->
  pixel_iterator w h sx sy n
  = coord w <$> seq (sy * w + sx) (n `min` (h * w - (sy * w + sx))).
Proof.
  intros Hw Hsx Hn. unfold pixel_iterator. rewrite scan_flat.
  assert (forall l : list nat,
    filter (fun c : nat * nat => sy < c.2 \/ (c.2 = sy /\ sx <= c.1)) (coord w <$> l)
    = coord w <$> filter (fun i => sy * w + sx <= i) l) as Hf.
  { induction l as [|i l IH]; [done|]. rewrite fmap_cons.
    destruct (decide (sy * w + sx <= i)) as [Hle|Hgt].
    - rewrite !filter_cons_True; [by rewrite IH, fmap_cons | done |].
      by apply after_start.
    - rewrite !filter_cons_False; [done | done |].
      by rewrite after_start. }
  rewrite Hf, filter_seq_ge, <- fmap_take.
  replace ((sy * w + sx) `max` (sy * w)) with (sy * w + sx) by lia.
  f_equal. rewrite take_seq. f_equal. nia.
Qed.

(** The body of the extraction on a raster whose LSBs 32 to 39 are the
    terminator. *)
Lemma extract_body_decodes (img : image rgb) :
  let L := lsbs (pixels img) in
  wf_image img -> 40 <= length (pixels img) ->
  take 8 (drop 32 L) = HEADER_TERMINATOR_BIN ->
  exists w h : nat,
    _binary_to_int (take 16 L) = Some w /\
    _binary_to_int (take 16 (drop 16 L)) = Some h /\
    u16 w /\ u16 h /\
    extract_body img
    = if decide (w * h + 40 <= length (pixels img))
      then Return (Image w h (bit_pixel <$> take (w * h) (drop 40 L)))
      else Raise (InsufficientData (length (pixels img) - 40) (w * h)).
Proof.
  intros L Hwf Hlen Hterm.
  destruct img as [W H px]. unfold wf_image in Hwf. cbn [width height pixels] in *.
  assert (0 < W) as HW by (destruct W; lia).
  assert (length L = H * W) as HL by (unfold L; by rewrite lsbs_length).
  pose proof (lsbs_bits px) as Hbits. fold L in Hbits.
  destruct (bits_field (take 16 L)) as (w & Hw & Hwlt & Hwf16).
  { intros E. apply (f_equal length) in E. rewrite length_take in E. cbn [length] in E. lia. }
  { by apply Forall_take. }
  destruct (bits_field (take 16 (drop 16 L))) as (h & Hh & Hhlt & Hhf16).
  { intros E. apply (f_equal length) in E. rewrite length_take, length_drop in E.
    cbn [length] in E. lia. }
  { by apply Forall_take, Forall_drop. }
  rewrite length_take in Hwlt, Hwf16. rewrite length_take, length_drop in Hhlt, Hhf16.
  replace (16 `min` length L) with 16 in * by lia.
  replace (16 `min` (length L - 16)) with 16 in * by lia.
  exists w, h. split_and!; [done..|].
  assert (take 40 L = header w h) as Hhd.
  { unfold header. rewrite Hwf16, Hhf16, <- Hterm.
    assert (drop 32 L = drop 16 (drop 16 L)) as -> by (by rewrite drop_drop).
    rewrite (take_take_drop (drop 16 L) 16 8).
    by rewrite (take_take_drop L 16 (16 + 8)). }
  unfold extract_body. cbn [width height pixels].
  rewrite scan_all.
  pose proof (header_loop_found (Image W H px) w h) as Hfound.
  cbn [width height pixels] in Hfound.
  specialize (Hfound HW Hwlt Hhlt ltac:(lia) Hhd 39 0 eq_refl).
  rewrite Nat.sub_0_r, Hwf in Hfound. rewrite take_0 in Hfound.
  rewrite Hfound. simpl.
  rewrite pixel_iterator_any;
    [| done | by apply Nat.mod_upper_bound; lia
     | pose proof (Nat.div_mod_eq 40 W); nia].
  replace (40 / W * W + 40 mod W) with 40 by (pose proof (Nat.div_mod_eq 40 W); nia).
  pose proof (mapM_pixels (Image W H px) (fun p : rgb => _extract_lsb p.2)
                (lsb_at (Image W H px))) as Hm.
  cbn [width height pixels] in Hm.
  rewrite (Hm ltac:(intros c [[r g] b] Hv; unfold lsb_at; by rewrite Hv) HW
              ((w * h) `min` (H * W - 40)) 40) by lia.
  simpl. rewrite length_fmap, length_take, length_drop, Hwf.
  destruct (decide (w * h + 40 <= H * W)) as [Hfit|Hover].
  - replace ((w * h) `min` (H * W - 40)) with (w * h) by lia.
    rewrite decide_False by lia.
    assert ((fun p : rgb => _extract_lsb p.2) <$> take (w * h) (drop 40 px)
            = take (w * h) (drop 40 L)) as -> by (by rewrite fmap_take, fmap_drop).
    assert (length (take (w * h) (drop 40 L)) = h * w) as Hq
      by (rewrite length_take, length_drop; lia).
    destruct (decide (w = 0)) as [->|Hnz].
    + rewrite scan_all. unfold Image_new_1. rewrite Nat.mul_0_r in *. simpl. done.
    + rewrite scan_all. unfold Image_new_1.
      pose proof (rebuild_loop_flat w h (take (w * h) (drop 40 L))
                    (replicate (h * w) 0%Z) []) as Hr.
      rewrite length_replicate in Hr. simpl in Hr. rewrite Hr by lia. done.
  - replace ((w * h) `min` (H * W - 40)) with (H * W - 40) by lia.
    rewrite decide_True by lia. f_equal. f_equal. lia.
Qed.

Section Extraction.
Variable splitext_root : string -> string.

(** X8. What [extract_qr_from_image] decodes (lines 216-363), for any image
    file of at least 40 pixels whose blue LSBs 32 to 39, in row-major
    order, are the terminator, eight times ['0']: with [w] and [h] the
    numbers written in LSBs 0 to 15 and 16 to 31, when the image has at
    least [40 + w * h] pixels and neither [w] nor [h] is 0, the call saves
    the [w x h] bilevel image whose pixels are LSBs 40 to [40 + w * h - 1],
    black (0) for ['1'] and white (255) for ['0']; when [w] or [h] is 0
    the image to save is empty, Pillow refuses to write it and the call
    raises a [ValueError], leaving no file where there was none; when the
    image has fewer than [40 + w * h] pixels the call raises the
    [ValueError] "Data tidak cukup" and writes nothing. Whether the bits
    were put there by the embedding plays no role. *)
Theorem extract_decodes (fs : files) (stego_path out_qr : string) (pic : picture) :
  let img := convert_RGB pic in
  let L := lsbs (pixels img) in
  let out_qr' := if negb (str_endswith (lower out_qr) ".png")
                 then (splitext_root out_qr ++ ".png")%string else out_qr in
  fs !! stego_path = Some (ImageFile pic) ->
  wf_image img -> 40 <= length (pixels img) ->
  take 8 (drop 32 L) = HEADER_TERMINATOR_BIN ->
  exists w h : nat,
    _binary_to_int (take 16 L) = Some w /\
    _binary_to_int (take 16 (drop 16 L)) = Some h /\
    (w * h + 40 <= length (pixels img) -> 0 < w -> 0 < h ->
     extract_qr_from_image splitext_root fs stego_path out_qr
     = (Return (),
        <[out_qr' := ImageFile
            (Pic1 (Image w h (bit_pixel <$> take (w * h) (drop 40 L))))]> fs) /\
     bit_pixel "1" = 0%Z /\ bit_pixel "0" = 255%Z) /\
    (w = 0 \/ h = 0 ->
     extract_qr_from_image splitext_root fs stego_path out_qr
     = (Raise EmptyImage,
        match fs !! out_qr' with
        | Some _ => <[out_qr' := OtherFile]> fs
        | None => fs
        end) /\
     error_class EmptyImage = ValueError) /\
    (length (pixels img) < w * h + 40 ->
     extract_qr_from_image splitext_root fs stego_path out_qr
     = (Raise (InsufficientData (length (pixels img) - 40) (w * h)), fs) /\
     error_class (InsufficientData (length (pixels img) - 40) (w * h)) = ValueError).
Proof.
  intros img L out_qr' Hs Hwf Hlen Hterm.
  destruct (extract_body_decodes img Hwf Hlen Hterm) as (w & h & Hw & Hh & _ & _ & Hbody).
  exists w, h. split_and!; [done..| | |].
  - intros Hfit Hw0 Hh0. split; [|done]. unfold extract_qr_from_image.
    rewrite (path_exists_lookup _ _ _ Hs). simpl negb. cbv iota.
    rewrite (Image_open_lookup _ _ _ Hs). simpl. fold img. rewrite Hbody.
    rewrite decide_True by done. fold out_qr'.
    by rewrite save_png_written by done.
  - intros Hempty. split; [|done]. unfold extract_qr_from_image.
    rewrite (path_exists_lookup _ _ _ Hs). simpl negb. cbv iota.
    rewrite (Image_open_lookup _ _ _ Hs). simpl. fold img. rewrite Hbody.
    rewrite decide_True by (destruct Hempty as [-> | ->]; lia). fold out_qr'.
    unfold save_png. cbn [picture_size width height fst snd].
    by rewrite decide_True by done.
  - intros Hover. split; [|done]. unfold extract_qr_from_image.
    rewrite (path_exists_lookup _ _ _ Hs). simpl negb. cbv iota.
    rewrite (Image_open_lookup _ _ _ Hs). simpl. fold img. rewrite Hbody.
    by rewrite decide_False by lia.
Qed.

(** X9. When the extraction finds no header (lines 253-290): an image with
    fewer than 40 pixels, or one whose blue LSBs 32 to 39 are not the
    terminator, eight times ['0'], is never decoded. The call raises a [ValueError], "Gagal
    menemukan header" for the short image, and otherwise that one, the
    header-length or the terminator-not-found error, and writes nothing. *)
Theorem extract_without_header (fs : files) (stego_path out_qr : string) (pic : picture) :
  let img := convert_RGB pic in
  let L := lsbs (pixels img) in
  fs !! stego_path = Some (ImageFile pic) ->
  wf_image img ->
  length (pixels img) < 40 \/ take 8 (drop 32 L) <> HEADER_TERMINATOR_BIN ->
  exists e : lsb_error,
    extract_qr_from_image splitext_root fs stego_path out_qr = (Raise e, fs) /\
    error_class e = ValueError /\
    (e = HeaderNotFound \/ e = HeaderLengthMismatch \/ e = TerminatorNotFound) /\
    (length (pixels img) < 40 -> e = HeaderNotFound).
Proof.
  intros img L Hs Hwf Hno.
  assert (exists e, header_loop img (scan 0 (height img) (width img)) [] 0 = Raise e /\
            (e = HeaderNotFound \/ e = HeaderLengthMismatch \/ e = TerminatorNotFound) /\
            (length (pixels img) < 40 -> e = HeaderNotFound)) as (e & He & Hcls & Hshort).
  { rewrite scan_all, <- Hwf.
    destruct (decide (width img = 0)) as [Hw0|Hw].
    { unfold wf_image in Hwf. rewrite Hw0, Nat.mul_0_r in Hwf. rewrite Hwf.
      exists HeaderNotFound. auto. }
    apply Nat.neq_0_lt_0 in Hw.
    pose proof (header_loop_early img Hw) as Hearly.
    destruct (decide (length (pixels img) < 40)) as [Hlt|Hge].
    - specialize (Hearly (length (pixels img)) 0 ltac:(lia) ltac:(lia)).
      rewrite Nat.sub_0_r, take_0 in Hearly. simpl in Hearly. rewrite Hearly.
      rewrite Nat.sub_diag. exists HeaderNotFound. auto.
    - destruct Hno as [?|Hterm]; [lia|].
      specialize (Hearly 39 0 ltac:(lia) ltac:(lia)).
      rewrite Nat.sub_0_r, take_0 in Hearly. simpl in Hearly. rewrite Hearly.
      destruct (lookup_lt_is_Some_2 (pixels img) 39 ltac:(lia)) as [[[r g] b] Hpx].
      replace (length (pixels img) - 39) with (S (length (pixels img) - 40)) by lia.
      rewrite (header_loop_step _ _ _ _ _ _ _ _ Hw Hpx). cbv zeta.
      rewrite <- (take_S_r _ _ _ (lsbs_lookup _ _ _ _ _ Hpx)).
      rewrite length_take, lsbs_length.
      unfold num_header_bits. change HEADER_TERMINATOR_LEN with 8.
      rewrite decide_True by lia.
      assert (endswith (take 40 (lsbs (pixels img))) HEADER_TERMINATOR_BIN = false) as ->.
      { unfold endswith. apply bool_decide_eq_false. intros [_ Hd]. apply Hterm.
        rewrite length_take, lsbs_length in Hd.
        replace (40 `min` length (pixels img)) with 40 in Hd by lia.
        change (length HEADER_TERMINATOR_BIN) with 8 in Hd.
        by rewrite take_drop_commute. }
      rewrite decide_False by lia.
      destruct (header_loop_late img Hw (length (pixels img) - 40) 40
                  (take 40 (lsbs (pixels img))) (39 + 1)) as (e & He & Hcls).
      + lia.
      + rewrite length_take, lsbs_length. lia.
      + exists e. split_and!; [done..|lia]. }
  exists e. split_and!; [|by destruct Hcls as [->|[->| ->]]|done..].
  unfold extract_qr_from_image.
  rewrite (path_exists_lookup _ _ _ Hs). simpl negb. cbv iota.
  rewrite (Image_open_lookup _ _ _ Hs). simpl. fold img.
  unfold extract_body. by rewrite He.
Qed.

End Extraction.

End LsbMore.

(** * More about binding tokens and the secure envelope *)

Module BinderMore.
Import Binder BinderFacts.

Section WithRuntime.
Context `{Runtime}.

Lemma py_eq_str_l (s : string) (v : json) : py_eq (JStr s) v = true <-> v = JStr s.
Proof.
  destruct v; simpl; try (split; [discriminate|discriminate]).
  rewrite bool_decide_eq_true. split; congruence.
Qed.

Local Arguments py_eq : simpl never.
Local Arguments get : simpl never.

(** A genuine token is generated, and its verification passes the
    signature check. *)
Lemma genuine_token (secret_key : bytes) (fp fp' : dict) (qr_data : string)
    (expiry_hours issued_clock expires_clock now : Z)
    (payload_bytes : bytes) (token : string) (payload : dict) :
  binding_payload_bytes fp qr_data expiry_hours issued_clock expires_clock
  = Return payload_bytes ->
  encode_token payload_bytes (hmac_sha256 secret_key payload_bytes) = Return token ->
  decodes_to token payload_bytes (hmac_sha256 secret_key payload_bytes) ->
  payload_decodes_to payload_bytes payload ->
  generate_binding_token secret_key fp qr_data expiry_hours issued_clock expires_clock
  = Return token /\
  verify_body secret_key (JStr token) fp' now
  = (expires_at ← attr_get (JDict payload) "expires_at" (JInt 0);
     int_gt now expires_at ≫= fun expired : bool =>
     if expired then Return (invalid "Token expired")
     else
       fingerprint_hash ← attr_get (JDict payload) "fingerprint_hash" JNull;
       if negb (py_eq fingerprint_hash (get fp' "fingerprint_hash"))
       then Return [("valid", JBool false);
                    ("error", JStr "Document fingerprint mismatch");
                    ("expected_fingerprint", fingerprint_hash);
                    ("actual_fingerprint", get fp' "fingerprint_hash")]
       else
         qr_data ← attr_get (JDict payload) "qr_data" JNull;
         issued_at ← attr_get (JDict payload) "issued_at" JNull;
         expires_at ← attr_get (JDict payload) "expires_at" JNull;
         document_uuid ← attr_get (JDict payload) "document_id" JNull;
         _ ← getitem fp' "document_id";
         Return [("valid", JBool true);
                 ("qr_data", qr_data);
                 ("issued_at", issued_at);
                 ("expires_at", expires_at);
                 ("document_id", get fp' "document_id");
                 ("document_uuid", document_uuid);
                 ("verification_time", JInt now)]).
Proof.
  intros Hpb Henc Hdec (pj & Hpd & Hpl). split.
  { unfold generate_binding_token. rewrite Hpb. simpl. by rewrite Henc. }
  rewrite (verify_decoded _ _ _ _ _ _ Hdec).
  unfold compare_digest. rewrite bool_decide_eq_true_2 by done. simpl.
  rewrite Hpd. simpl. by rewrite Hpl.
Qed.

(** X10. A genuine token against any fingerprint (lines 282-354). Let the
    token be issued for fingerprint [fp], and let the libraries decode it
    back to its parts. Verified against a fingerprint [fp'] at second
    [now], the checks come in this order: after
    [expires_clock + expiry_hours * 3600] the answer is "Token expired",
    whatever [fp'] is; otherwise, if the [fingerprint_hash] of [fp']
    is not the one in the token, it is "Document fingerprint mismatch" with
    both values; otherwise the token is valid, and the answer carries the
    [document_id] of [fp'] next to the one of the token: the [document_id]
    itself is never compared. *)
Theorem genuine_token_verification (secret_key : bytes) (fp fp' : dict) (qr_data : string)
    (expiry_hours issued_clock expires_clock now : Z)
    (document_id document_id' : json) (fingerprint_hash : string)
    (payload_bytes : bytes) (token : string) (payload : dict) :
  lookup_key fp "document_id" = Some document_id ->
  lookup_key fp "fingerprint_hash" = Some (JStr fingerprint_hash) ->
  binding_payload_bytes fp qr_data expiry_hours issued_clock expires_clock
  = Return payload_bytes ->
  encode_token payload_bytes (hmac_sha256 secret_key payload_bytes) = Return token ->
  decodes_to token payload_bytes (hmac_sha256 secret_key payload_bytes) ->
  payload_decodes_to payload_bytes payload ->
  same_items payload
    (binding_payload document_id (JStr fingerprint_hash) qr_data
                     expiry_hours issued_clock expires_clock) ->
  lookup_key fp' "document_id" = Some document_id' ->
  generate_binding_token secret_key fp qr_data expiry_hours issued_clock expires_clock
  = Return token /\
  ((expires_clock + expiry_hours * 3600 < now)%Z ->
   verify_binding_token secret_key (JStr token) fp' now
   = Return (invalid "Token expired")) /\
  ((now <= expires_clock + expiry_hours * 3600)%Z ->
   get fp' "fingerprint_hash" <> JStr fingerprint_hash ->
   verify_binding_token secret_key (JStr token) fp' now
   = Return [("valid", JBool false);
             ("error", JStr "Document fingerprint mismatch");
             ("expected_fingerprint", JStr fingerprint_hash);
             ("actual_fingerprint", get fp' "fingerprint_hash")]) /\
  ((now <= expires_clock + expiry_hours * 3600)%Z ->
   get fp' "fingerprint_hash" = JStr fingerprint_hash ->
   verify_binding_token secret_key (JStr token) fp' now
   = Return [("valid", JBool true);
             ("qr_data", JStr qr_data);
             ("issued_at", JInt issued_clock);
             ("expires_at", JInt (expires_clock + expiry_hours * 3600));
             ("document_id", document_id');
             ("document_uuid", document_id);
             ("verification_time", JInt now)]).
Proof.
  intros Hid Hfh Hpb Henc Hdec Hpdec Hsame Hid'.
  destruct (genuine_token secret_key fp fp' qr_data expiry_hours issued_clock
              expires_clock now payload_bytes token payload Hpb Henc Hdec Hpdec)
    as [Hgen Hver].
  split; [done|].
  unfold verify_binding_token. rewrite Hver. clear Hver.
  unfold attr_get, get_default, getitem. rewrite !Hsame. simpl.
  rewrite Z.mul_1_r.
  split_and!.
  - intros Hnow. by rewrite bool_decide_eq_true_2 by lia.
  - intros Hnow Hne. rewrite bool_decide_eq_false_2 by lia. simpl.
    destruct (py_eq (JStr fingerprint_hash) (get fp' "fingerprint_hash")) eqn:E; [|done].
    apply py_eq_str_l in E. done.
  - intros Hnow Heq. rewrite bool_decide_eq_false_2 by lia. simpl.
    rewrite (proj2 (py_eq_str_l fingerprint_hash _) Heq). simpl.
    rewrite Hid'. simpl. unfold get. by rewrite Hid'.
Qed.

(** ** The envelope and the one-call verification *)

(** The dict of [create_secure_qr_data] (lines 368-374). *)
Lemma create_secure_unfold (original_data binding_token : string) (now : Z) :
  create_secure_qr_data original_data binding_token now
  = Return (json_dumps false true
              (JDict [("version", JStr QR_BINDING_VERSION);
                      ("type", JStr "secure");
                      ("data", JStr original_data);
                      ("binding", JStr binding_token);
                      ("created_at", JInt now)])).
Proof. done. Qed.

Lemma parse_created (original_data binding_token env : string) (now : Z) :
  json_loads env
  = Return (JDict [("version", JStr QR_BINDING_VERSION);
                   ("type", JStr "secure");
                   ("data", JStr original_data);
                   ("binding", JStr binding_token);
                   ("created_at", JInt now)]) ->
  parse_secure_qr_data env
  = Return [("is_secure", JBool true);
            ("original_data", JStr original_data);
            ("binding_token", JStr binding_token);
            ("version", JStr "2.0");
            ("created_at", JInt now);
            ("is_uuid_based", JBool true)].
Proof. intros Hl. by rewrite parse_secure_cases, Hl. Qed.

(** X11. Wrapping and unwrapping (lines 356-418): [create_secure_qr_data]
    always returns, and when [json.loads] gives back the dict that was
    serialized, [parse_secure_qr_data] of the envelope is secure, with the
    original data, the binding token, version ["2.0"], the creation time
    and [is_uuid_based] true. *)
Theorem envelope_round_trip (original_data binding_token : string) (now : Z) :
  exists env : string,
    create_secure_qr_data original_data binding_token now = Return env /\
    (json_loads env
     = Return (JDict [("version", JStr QR_BINDING_VERSION);
                      ("type", JStr "secure");
                      ("data", JStr original_data);
                      ("binding", JStr binding_token);
                      ("created_at", JInt now)]) ->
     parse_secure_qr_data env
     = Return [("is_secure", JBool true);
               ("original_data", JStr original_data);
               ("binding_token", JStr binding_token);
               ("version", JStr "2.0");
               ("created_at", JInt now);
               ("is_uuid_based", JBool true)]).
Proof.
  eexists. split; [apply create_secure_unfold|]. apply parse_created.
Qed.

(** X12. [quick_binding_verification] fingerprints the document anew (lines
    508-541), and a fingerprint's hash covers the UUID drawn for it. So for
    a QR text made for a document at [path] (fingerprint, token for it,
    envelope), checked later against the very same file: whenever the new
    fingerprint's hash differs from the one the token was issued for, which
    it does unless the new draw and clock reading repeat the old ones or
    SHA-256 collides, the answer before expiry is [binding_verified] false
    with "Document fingerprint mismatch", and it names the new UUID. *)
Theorem requick_verification_mismatch (secret_key : bytes) (docs : documents)
    (path uuid1 uuid2 qr_data : string) (t1 t2 t3 expiry_hours c1 c2 now : Z)
    (fp1 fp2 : dict) (payload_bytes : bytes) (token env : string) (payload : dict) :
  generate_document_fingerprint docs path uuid1 t1 = Return fp1 ->
  binding_payload_bytes fp1 qr_data expiry_hours c1 c2 = Return payload_bytes ->
  encode_token payload_bytes (hmac_sha256 secret_key payload_bytes) = Return token ->
  create_secure_qr_data qr_data token t3 = Return env ->
  json_loads env
  = Return (JDict [("version", JStr QR_BINDING_VERSION);
                   ("type", JStr "secure");
                   ("data", JStr qr_data);
                   ("binding", JStr token);
                   ("created_at", JInt t3)]) ->
  decodes_to token payload_bytes (hmac_sha256 secret_key payload_bytes) ->
  payload_decodes_to payload_bytes payload ->
  same_items payload
    (binding_payload (get fp1 "document_id") (get fp1 "fingerprint_hash") qr_data
                     expiry_hours c1 c2) ->
  generate_document_fingerprint docs path uuid2 t2 = Return fp2 ->
  get fp2 "fingerprint_hash" <> get fp1 "fingerprint_hash" ->
  (now <= c2 + expiry_hours * 3600)%Z ->
  generate_binding_token secret_key fp1 qr_data expiry_hours c1 c2 = Return token /\
  quick_binding_verification secret_key docs env path uuid2 t2 now
  = Return [("binding_verified", JBool false);
            ("is_legacy", JBool false);
            ("verification_details",
             JDict [("valid", JBool false);
                    ("error", JStr "Document fingerprint mismatch");
                    ("expected_fingerprint", get fp1 "fingerprint_hash");
                    ("actual_fingerprint", get fp2 "fingerprint_hash")]);
            ("document_id", JStr uuid2)].
Proof.
  intros Hfp1 Hpb Henc Henv Hloads Hdec Hpdec Hsame Hfp2 Hne Hnow.
  destruct (genuine_token secret_key fp1 fp2 qr_data expiry_hours c1 c2 now
              payload_bytes token payload Hpb Henc Hdec Hpdec) as [Hgen Hver].
  split; [done|].
  pose proof Hfp1 as Hu1. apply fingerprint_unfold in Hu1 as (doc1 & data1 & _ & _ & E1).
  pose proof Hfp2 as Hu2. apply fingerprint_unfold in Hu2 as (doc2 & data2 & _ & _ & E2).
  assert (get fp1 "fingerprint_hash" = JStr (hexdigest (sha256 data1))) as Hh1 by (by subst).
  assert (get fp2 "fingerprint_hash" = JStr (hexdigest (sha256 data2))) as Hh2 by (by subst).
  assert (lookup_key fp2 "document_id" = Some (JStr uuid2)) as Hid2 by (by subst).
  unfold quick_binding_verification.
  rewrite (parse_created _ _ _ _ Hloads). simpl. rewrite Hfp2. simpl.
  unfold verify_binding_token. rewrite Hver. clear Hver.
  unfold attr_get, get_default, getitem. rewrite !Hsame. simpl. rewrite Z.mul_1_r.
  rewrite bool_decide_eq_false_2 by lia. simpl.
  rewrite Hh1 in *. rewrite Hh2 in *.
  destruct (py_eq _ _) eqn:E.
  { apply py_eq_str_l in E. congruence. }
  simpl. by rewrite Hid2.
Qed.

(** X13. What [generate_binding_token] raises (lines 229-280): every
    failure inside it leaves as a [DocumentSecurityError]; a fingerprint
    without ["document_id"] gives the message that quotes the key, and so
    does one without ["fingerprint_hash"]. *)
Theorem binding_token_errors (secret_key : bytes) (fp : dict) (qr_data : string)
    (expiry_hours issued_clock expires_clock : Z) :
  let run := generate_binding_token secret_key fp qr_data
                                    expiry_hours issued_clock expires_clock in
  ((exists token, run = Return token) \/
   (exists msg, run = Raise (Exn DocumentSecurityError
                               ("Failed to generate binding token: " ++ msg)))) /\
  (lookup_key fp "document_id" = None ->
   run = Raise (Exn DocumentSecurityError
                  "Failed to generate binding token: 'document_id'")) /\
  (is_Some (lookup_key fp "document_id") ->
   lookup_key fp "fingerprint_hash" = None ->
   run = Raise (Exn DocumentSecurityError
                  "Failed to generate binding token: 'fingerprint_hash'")).
Proof.
  intros run. unfold run, generate_binding_token. split_and!.
  - destruct (_ ≫= _) as [token|e]; simpl; eauto.
  - intros Hid. unfold binding_payload_bytes, getitem. by rewrite Hid.
  - intros [v Hid] Hfh. unfold binding_payload_bytes, getitem. by rewrite Hid, Hfh.
Qed.

End WithRuntime.

End BinderMore.

(** * The key file and the binding storage *)

Module StorageFacts.
Import Binder BinderFacts Storage.

(** ** The key file *)

(** X14. [_load_or_generate_key] (lines 59-80), with a draw of 32 bytes:
    when it returns a key, the key has 32 bytes, the key file holds exactly
    that key, no other file has changed, and every later call on the files
    it left returns the same key and writes nothing, whatever would be
    drawn then. *)
Theorem key_generated_once (open_wb : string -> outcome string ()) (fs fs' : key_files)
    (key_file_path : string) (draw later_draw key : bytes) :
  length draw = HMAC_KEY_LENGTH ->
  _load_or_generate_key open_wb fs key_file_path draw = (Return key, fs') ->
  length key = HMAC_KEY_LENGTH /\
  fs' !! key_file_path = Some (KeyFile key) /\
  (forall p, p <> key_file_path -> fs' !! p = fs !! p) /\
  _load_or_generate_key open_wb fs' key_file_path later_draw = (Return key, fs').
Proof.
  intros Hdraw. unfold _load_or_generate_key.
  destruct (fs !! key_file_path) as [[k|msg]|] eqn:E.
  - destruct (decide (length k = HMAC_KEY_LENGTH)) as [Hk|Hk].
    + intros [= <- <-]. rewrite E. by rewrite decide_True.
    + destruct (open_wb key_file_path) as [[]|msg]; [|done].
      intros [= <- <-]. rewrite lookup_insert_eq. rewrite decide_True by done.
      split_and!; try done. intros p Hp. by rewrite lookup_insert_ne.
  - done.
  - destruct (open_wb key_file_path) as [[]|msg]; [|done].
    intros [= <- <-]. rewrite lookup_insert_eq. rewrite decide_True by done.
    split_and!; try done. intros p Hp. by rewrite lookup_insert_ne.
Qed.

(** X15. When [_load_or_generate_key] fails (lines 59-80): it raises
    exactly when the key file exists and cannot be read, or when there is
    no file of 32 bytes and the key file cannot be written; what it raises
    is a [DocumentSecurityError] that quotes the error of the file system,
    and no file has changed. In particular an existing file of another
    length is overwritten if it can be, and reported if it cannot. *)
Theorem key_file_failure (open_wb : string -> outcome string ()) (fs : key_files)
    (key_file_path : string) (draw : bytes) :
  let run := _load_or_generate_key open_wb fs key_file_path draw in
  let no_key := forall k, fs !! key_file_path = Some (KeyFile k) -> length k <> HMAC_KEY_LENGTH in
  ((exists e, run.1 = Raise e) <->
   (exists msg, fs !! key_file_path = Some (Unreadable msg)) \/
   (no_key /\ exists msg, open_wb key_file_path = Raise msg)) /\
  (forall e, run.1 = Raise e ->
     run.2 = fs /\
     exists msg, e = Exn DocumentSecurityError ("Failed to initialize security key: " ++ msg) /\
                 (fs !! key_file_path = Some (Unreadable msg) \/
                  open_wb key_file_path = Raise msg)).
Proof.
  intros run no_key. unfold run, no_key, _load_or_generate_key. clear run no_key.
  destruct (fs !! key_file_path) as [[k|msg]|] eqn:E.
  - destruct (decide (length k = HMAC_KEY_LENGTH)) as [Hk|Hk]; simpl.
    + split.
      * split; [by intros [e ?]|]. intros [[msg [=]]|[Hno _]]. by destruct (Hno k).
      * by intros e.
    + destruct (open_wb key_file_path) as [[]|msg] eqn:Ew; simpl.
      * split; [|by intros e]. split; [by intros [e ?]|].
        by intros [[msg [=]]|[_ [msg ?]]].
      * split.
        -- split; [|by eauto]. intros _. right. split; [|by eauto]. by intros k' [= <-].
        -- intros e [= <-]. split; [done|]. eauto.
  - simpl. split.
    + split; [|by eauto]. intros _. left. eauto.
    + intros e [= <-]. split; [done|]. eauto.
  - destruct (open_wb key_file_path) as [[]|msg] eqn:Ew; simpl.
    + split; [|by intros e]. split; [by intros [e ?]|].
      by intros [[msg [=]]|[_ [msg ?]]].
    + split.
      * split; [|by eauto]. intros _. right. split; [|by eauto]. by intros k'.
      * intros e [= <-]. split; [done|]. eauto.
Qed.

(** ** The binding storage *)

Section WithDisk.
Context `{Runtime} `{Disk}.

Lemma length_append (a s : string) :
  String.length (a ++ s) = String.length a + String.length s.
Proof. induction a as [|c a IH]; simpl; [done|]. by rewrite IH. Qed.

Lemma append_nil_inv (a s : string) : (a ++ s)%string = s -> a = EmptyString.
Proof.
  intros Heq. apply (f_equal String.length) in Heq.
  rewrite length_append in Heq. destruct a; [done|]. simpl in Heq. lia.
Qed.

Lemma record_file_inj (a b : string) : record_file a = record_file b -> a = b.
Proof.
  unfold record_file. revert b. induction a as [|c a IH]; intros b Heq; simpl in Heq.
  - symmetry in Heq. apply append_nil_inv in Heq. done.
  - destruct b as [|c' b]; simpl in Heq.
    + change (String c (a ++ ".json")) with (String c a ++ ".json")%string in Heq.
      by apply append_nil_inv in Heq.
    + injection Heq as -> Heq. f_equal. by apply IH.
Qed.

Lemma load_json_ext (dir1 dir2 : storage) (name : string) :
  dir1 !! name = dir2 !! name -> load_json dir1 name = load_json dir2 name.
Proof. unfold load_json, read_text. by intros ->. Qed.

Lemma load_json_exists (dir : storage) (name : string) (record : json) :
  load_json dir name = Return record -> is_Some (dir !! name).
Proof. unfold load_json, read_text. destruct (dir !! name); [eauto|done]. Qed.

Lemma saved_record_is_loaded_aux (dir : storage) (document_id : string) (record : dict)
    (loaded : json) :
  open_w (record_file document_id) = Return () ->
  json_loads (json_dump_indent (JDict record)) = Return loaded ->
  exists dir',
    save_binding_record dir document_id record = (true, dir') /\
    load_binding_record dir' document_id = Some loaded.
Proof.
  intros Hopen Hload. unfold save_binding_record. rewrite Hopen.
  eexists. split; [done|].
  unfold load_binding_record, load_json, read_text.
  rewrite !lookup_insert_eq. simpl. by rewrite Hload.
Qed.

(** X16. Saving and loading (lines 434-455): when the record file can be
    opened for writing and [json.load] reads [loaded] from what
    [json.dump] wrote, [save_binding_record] answers [True] and
    [load_binding_record] of the same id returns [loaded], whatever the
    directory held before, under that name too; the records of the other
    ids that have a file of their own load as before. *)
Theorem saved_record_is_loaded (dir : storage) (document_id : string) (record : dict)
    (loaded : json) :
  open_w (record_file document_id) = Return () ->
  json_loads (json_dump_indent (JDict record)) = Return loaded ->
  exists dir',
    save_binding_record dir document_id record = (true, dir') /\
    load_binding_record dir' document_id = Some loaded /\
    forall other, other <> document_id -> is_Some (dir !! record_file other) ->
      load_binding_record dir' other = load_binding_record dir other.
Proof.
  intros Hopen Hload. unfold save_binding_record. rewrite Hopen.
  eexists. split; [done|]. split.
  - unfold load_binding_record, load_json, read_text.
    rewrite !lookup_insert_eq. simpl. by rewrite Hload.
  - intros other Hne [text Htext]. unfold load_binding_record.
    assert (record_file document_id <> record_file other) as Hfile.
    { intros Heq. by apply record_file_inj in Heq. }
    rewrite lookup_insert_ne by done. rewrite Htext.
    rewrite (load_json_ext _ dir); [done|]. by rewrite lookup_insert_ne.
Qed.

Lemma scan_records_spec (dir : storage) (names : list string) (document_id : string) :
  match scan_records dir names document_id with
  | Some record =>
      exists name, name ∈ names /\ load_json dir name = Return record /\
                   names_document record document_id = Return true
  | None =>
      forall name record, name ∈ names -> load_json dir name = Return record ->
                          names_document record document_id <> Return true
  end.
Proof.
  induction names as [|name names IH]; simpl.
  - intros name record Hin. by apply elem_of_nil in Hin.
  - destruct (load_json dir name) as [record|e] eqn:El; simpl.
    + destruct (names_document record document_id) as [[|]|e] eqn:En; simpl.
      * exists name. split; [by left|done].
      * destruct (scan_records dir names document_id) as [r|].
        -- destruct IH as (n & Hin & Hn). exists n. split; [by right|done].
        -- intros n r Hin Hl. apply elem_of_cons in Hin as [->|Hin]; [|by eapply IH].
           rewrite El in Hl. injection Hl as <-. by rewrite En.
      * destruct (scan_records dir names document_id) as [r|].
        -- destruct IH as (n & Hin & Hn). exists n. split; [by right|done].
        -- intros n r Hin Hl. apply elem_of_cons in Hin as [->|Hin]; [|by eapply IH].
           rewrite El in Hl. injection Hl as <-. by rewrite En.
    + destruct (scan_records dir names document_id) as [r|].
      * destruct IH as (n & Hin & Hn). exists n. split; [by right|done].
      * intros n r Hin Hl. apply elem_of_cons in Hin as [->|Hin]; [|by eapply IH].
        by rewrite El in Hl.
Qed.

(** The test of lines 463-464, read on the record. *)
Lemma names_document_iff (record : json) (document_id : string) :
  names_document record document_id = Return true <->
  exists d fingerprint,
    record = JDict d /\
    get_default d "document_fingerprint" (JDict []) = JDict fingerprint /\
    (get fingerprint "document_id" = JStr document_id \/
     get fingerprint "fingerprint_id" = JStr document_id).
Proof.
  unfold names_document.
  destruct record as [| | | | | |d]; simpl;
    try (split; [done | by intros (d & fp & [=] & _)]).
  destruct (get_default d "document_fingerprint" (JDict [])) as [| | | | | |fp] eqn:Ef; simpl;
    try (split; [done | intros (d' & fp & [= <-] & Hfp & _);
                        unfold get_default in *; congruence]).
  unfold get_default at 1. fold (get fp "document_id").
  destruct (py_eq (get fp "document_id") (JStr document_id)) eqn:E1.
  - apply py_eq_str in E1. split; [|done]. intros _. exists d, fp. eauto.
  - unfold get_default. fold (get fp "fingerprint_id"). split.
    + intros [= E2]. apply py_eq_str in E2. exists d, fp. eauto.
    + intros (d' & fp' & [= <-] & Hfp & Hor).
      assert (fp' = fp) as -> by (unfold get_default in *; congruence).
      destruct Hor as [Hid|Hid].
      * apply py_eq_str in Hid. congruence.
      * apply py_eq_str in Hid. by rewrite Hid.
Qed.

(** X17. The fallback of [load_binding_record] (lines 456-469), when the
    id has no file of its own: a record that is returned was read from a
    [.json] file of the directory and names the id, as [document_id] or as
    [fingerprint_id] of its [document_fingerprint]; when [None] is
    returned, no [.json] file of the directory holds such a record. *)
Theorem load_scans_for_the_id (dir : storage) (document_id : string) :
  lists_records ->
  dir !! record_file document_id = None ->
  let names (record : json) :=
    exists d fingerprint,
      record = JDict d /\
      get_default d "document_fingerprint" (JDict []) = JDict fingerprint /\
      (get fingerprint "document_id" = JStr document_id \/
       get fingerprint "fingerprint_id" = JStr document_id) in
  match load_binding_record dir document_id with
  | Some record =>
      names record /\
      exists name, is_json_name name = true /\ load_json dir name = Return record
  | None =>
      forall name record, is_json_name name = true -> load_json dir name = Return record ->
                          ~ names record
  end.
Proof.
  intros Hglob Hnone names. unfold load_binding_record. rewrite Hnone.
  pose proof (scan_records_spec dir (glob_json dir) document_id) as Hscan.
  destruct (scan_records dir (glob_json dir) document_id) as [record|].
  - destruct Hscan as (name & Hin & Hl & Hn). split.
    + by apply names_document_iff.
    + exists name. split; [|done]. by apply (Hglob dir) in Hin as [_ ?].
  - intros name record Hname Hl Hn. apply (Hscan name record); [|done|].
    + apply (Hglob dir). split; [|done]. by eapply load_json_exists.
    + by apply names_document_iff.
Qed.

Lemma remove_if_expired_ext (dir1 dir2 : storage) (name : string) (now : Z) :
  dir1 !! name = dir2 !! name ->
  remove_if_expired dir1 name now = remove_if_expired dir2 name now.
Proof. intros Heq. unfold remove_if_expired. by rewrite (load_json_ext dir1 dir2). Qed.

Lemma remove_if_expired_exists (dir : storage) (name : string) (now : Z) (b : bool) :
  remove_if_expired dir name now = Return b -> is_Some (dir !! name).
Proof.
  unfold remove_if_expired. destruct (load_json dir name) as [r|e] eqn:E; [|done].
  intros _. by eapply load_json_exists.
Qed.

Lemma cleanup_loop_spec (names : list string) (now : Z) (dir : storage) (count : Z) :
  NoDup names ->
  let run := cleanup_loop names now dir count in
  (forall name, name ∈ names -> remove_if_expired dir name now = Return true ->
                run.2 !! name = None) /\
  (forall name, ~ (name ∈ names /\ remove_if_expired dir name now = Return true) ->
                run.2 !! name = dir !! name) /\
  (run.1 = count + Z.of_nat (size dir) - Z.of_nat (size run.2))%Z.
Proof.
  revert dir count. induction names as [|file names IH]; intros dir count Hnd; simpl.
  - split_and!; [by intros name Hin; apply elem_of_nil in Hin | done | lia].
  - apply NoDup_cons in Hnd as [Hfile Hnd].
    destruct (remove_if_expired dir file now) as [[|]|e] eqn:E.
    + destruct (IH (delete file dir) (count + 1)%Z Hnd) as (Hrem & Hkeep & Hcount).
      split_and!.
      * intros name Hin Hr. apply elem_of_cons in Hin as [->|Hin].
        -- rewrite Hkeep; [by rewrite lookup_delete_eq|]. by intros [? _].
        -- apply Hrem; [done|]. rewrite <- Hr. apply remove_if_expired_ext.
           apply lookup_delete_ne. by intros <-.
      * intros name Hnot.
        assert (name <> file) as Hne.
        { intros ->. apply Hnot. split; [by left|done]. }
        rewrite Hkeep; [by rewrite lookup_delete_ne|].
        intros [Hin Hr]. apply Hnot. split; [by right|].
        rewrite <- Hr. symmetry. apply remove_if_expired_ext. by apply lookup_delete_ne.
      * rewrite Hcount. apply remove_if_expired_exists in E as [text Htext].
        assert (size (delete file dir) = pred (size dir)) as Hs.
        { apply map_size_delete_Some. by exists text. }
        assert (size dir <> 0) as Hpos.
        { intros Hz. apply map_size_empty_iff in Hz. by rewrite Hz in Htext. }
        lia.
    + destruct (IH dir count Hnd) as (Hrem & Hkeep & Hcount). split_and!; [| |done].
      * intros name Hin Hr. apply elem_of_cons in Hin as [->|Hin]; [congruence|].
        by apply Hrem.
      * intros name Hnot. apply Hkeep. intros [Hin Hr]. apply Hnot. split; [by right|done].
    + destruct (IH dir count Hnd) as (Hrem & Hkeep & Hcount). split_and!; [| |done].
      * intros name Hin Hr. apply elem_of_cons in Hin as [->|Hin]; [congruence|].
        by apply Hrem.
      * intros name Hnot. apply Hkeep. intros [Hin Hr]. apply Hnot. split; [by right|done].
Qed.

(** X18. What [cleanup_expired_records] leaves (lines 474-498), for a
    listing that has each [.json] file of the directory once: a file is gone
    exactly when its name matches [*.json] and the body of the loop ran to
    the end of [unlink] for it, that is, the file parses, the record's
    [expires_at] (0 when there is none) is a number strictly below the
    current time, and the file could be removed; every other file is as it
    was, and the count returned is the number of files removed. *)
Theorem cleanup_removes_the_expired (dir : storage) (current_time : Z) :
  lists_records ->
  let run := cleanup_expired_records dir current_time in
  (forall name, is_json_name name = true ->
                remove_if_expired dir name current_time = Return true ->
                run.2 !! name = None) /\
  (forall name, ~ (is_json_name name = true /\
                   remove_if_expired dir name current_time = Return true) ->
                run.2 !! name = dir !! name) /\
  run.1 = (Z.of_nat (size dir) - Z.of_nat (size run.2))%Z.
Proof.
  intros Hglob run. unfold run, cleanup_expired_records.
  destruct (Hglob dir) as [Hnd Hin].
  destruct (cleanup_loop_spec (glob_json dir) current_time dir 0 Hnd)
    as (Hrem & Hkeep & Hcount).
  split_and!.
  - intros name Hname Hr. apply Hrem; [|done]. apply Hin. split; [|done].
    by eapply remove_if_expired_exists.
  - intros name Hnot. apply Hkeep. intros [Hi Hr]. apply Hnot. split; [|done].
    by apply Hin in Hi as [_ ?].
  - rewrite Hcount. lia.
Qed.

(** X19. Which records the cleanup removes (lines 474-498), for a [.json]
    file of the directory that can be removed: a file that does not parse is
    kept; a record without [expires_at] is removed as soon as the clock is
    past 0; a record with an integer [expires_at] is removed when
    [expires_at < current_time] and kept when [expires_at >= current_time];
    a record whose [expires_at] is a string is kept. *)
Theorem cleanup_by_expiry (dir : storage) (current_time : Z) (name text : string) :
  lists_records ->
  is_json_name name = true ->
  dir !! name = Some text ->
  unlink name = Return () ->
  let dir' := (cleanup_expired_records dir current_time).2 in
  ((exists msg, json_loads text = Raise msg) -> dir' !! name = Some text) /\
  (forall d, json_loads text = Return (JDict d) -> lookup_key d "expires_at" = None ->
     dir' !! name = if decide (0 < current_time)%Z then None else Some text) /\
  (forall d t, json_loads text = Return (JDict d) ->
     lookup_key d "expires_at" = Some (JInt t) ->
     dir' !! name = if decide (t < current_time)%Z then None else Some text) /\
  (forall d s, json_loads text = Return (JDict d) ->
     lookup_key d "expires_at" = Some (JStr s) -> dir' !! name = Some text).
Proof.
  intros Hglob Hname Htext Hunlink dir'. unfold dir', cleanup_expired_records.
  destruct (Hglob dir) as [Hnd Hin].
  destruct (cleanup_loop_spec (glob_json dir) current_time dir 0 Hnd) as (Hrem & Hkeep & _).
  assert (name ∈ glob_json dir) as Hlisted by (apply Hin; eauto).
  assert (forall d, json_loads text = Return (JDict d) ->
            remove_if_expired dir name current_time
            = (expired ← lt_int (get_default d "expires_at" (JInt 0)) current_time;
               if (expired : bool) then Return true else Return false)) as Hbody.
  { intros d Hd. unfold remove_if_expired, load_json, read_text, is_expired.
    rewrite Htext. simpl. rewrite Hd. simpl.
    destruct (lt_int _ _) as [[|]|e]; simpl; [|done|done]. by rewrite Hunlink. }
  split_and!.
  - intros [msg Hmsg]. rewrite Hkeep; [done|]. intros [_ Hr].
    unfold remove_if_expired, load_json, read_text in Hr. rewrite Htext in Hr.
    simpl in Hr. by rewrite Hmsg in Hr.
  - intros d Hd Hnone. specialize (Hbody d Hd).
    unfold get_default in Hbody. rewrite Hnone in Hbody. simpl in Hbody.
    rewrite Z.mul_1_r in Hbody. destruct (decide (0 < current_time)%Z) as [Hlt|Hge].
    + apply Hrem; [done|]. by rewrite Hbody, bool_decide_eq_true_2.
    + rewrite Hkeep; [done|]. intros [_ Hr].
      by rewrite Hbody, bool_decide_eq_false_2 in Hr.
  - intros d t Hd Ht. specialize (Hbody d Hd).
    unfold get_default in Hbody. rewrite Ht in Hbody. simpl in Hbody.
    rewrite Z.mul_1_r in Hbody. destruct (decide (t < current_time)%Z) as [Hlt|Hge].
    + apply Hrem; [done|]. by rewrite Hbody, bool_decide_eq_true_2.
    + rewrite Hkeep; [done|]. intros [_ Hr].
      by rewrite Hbody, bool_decide_eq_false_2 in Hr.
  - intros d s Hd Hs. specialize (Hbody d Hd).
    unfold get_default in Hbody. rewrite Hs in Hbody. simpl in Hbody.
    rewrite Hkeep; [done|]. intros [_ Hr]. by rewrite Hbody in Hr.
Qed.

(** ** Pre-registration *)

Lemma fingerprint_entries (docs : documents) (document_path uuid4 : string) (now : Z)
    (fingerprint : dict) :
  generate_document_fingerprint docs document_path uuid4 now = Return fingerprint ->
  exists doc,
    docs !! document_path = Some doc /\
    lookup_key fingerprint "document_id" = Some (JStr uuid4) /\
    lookup_key fingerprint "file_info"
    = Some (JDict [("name", JStr (basename document_path));
                   ("size", JInt (Z.of_nat (length (content doc))));
                   ("extension", JStr (lower (splitext_ext (basename document_path))));
                   ("modified_time", JInt (st_mtime doc))]).
Proof.
  intros Hfp. apply fingerprint_unfold in Hfp as (doc & data & Hdoc & _ & ->).
  exists doc. split; [done|]. split; reflexivity.
Qed.

(** The answer and the directory after a pre-registration whose
    fingerprint and token were made. *)
Lemma pre_register_unfold (secret_key : bytes) (docs : documents) (dir : storage)
    (document_path qr_data : string) (expiry_hours : Z) (uuid4 : string)
    (fingerprint_clock issued_clock token_clock created_clock expires_clock : Z)
    (fingerprint : dict) (binding_token : string) :
  generate_document_fingerprint docs document_path uuid4 fingerprint_clock
  = Return fingerprint ->
  generate_binding_token secret_key fingerprint qr_data expiry_hours issued_clock token_clock
  = Return binding_token ->
  exists doc,
    docs !! document_path = Some doc /\
    pre_register_document secret_key docs dir document_path qr_data expiry_hours uuid4
      fingerprint_clock issued_clock token_clock created_clock expires_clock
    = ([("success", JBool true);
        ("registration_id", JStr uuid4);
        ("document_uuid", JStr uuid4);
        ("binding_token", JStr binding_token);
        ("document_info",
         JDict [("document_id", JStr uuid4);
                ("filename", JStr (basename document_path));
                ("size", JInt (Z.of_nat (length (content doc))));
                ("document_type", JStr (lower (splitext_ext (basename document_path))))]);
        ("expires_at", JInt (expires_clock + expiry_hours * 3600));
        ("instructions",
         JDict [("next_step", JStr "Use the binding_token when generating QR code");
                ("api_endpoint", JStr "/generate_qr_with_token")])],
       (save_binding_record dir ("prereg_" ++ uuid4)
          (preregistration_record fingerprint qr_data binding_token expiry_hours
                                  created_clock expires_clock)).2).
Proof.
  intros Hfp Htoken.
  destruct (fingerprint_entries _ _ _ _ _ Hfp) as (doc & Hdoc & Hid & Hinfo).
  exists doc. split; [done|].
  unfold pre_register_document. rewrite Hfp. simpl. rewrite Htoken. simpl.
  unfold getitem. rewrite Hid. simpl. rewrite Hinfo. reflexivity.
Qed.

(** X20. A pre-registration can be found again (lines 184-250 with
    434-469). When the fingerprint and the token are made, the record file
    [prereg_<uuid>.json] can be written, and [json.load] gives back the
    record that was dumped: [pre_register_document] answers success with
    the drawn UUID as [registration_id], the token, and [expires_at] counted
    from the second reading of the clock; [load_binding_record] of
    [prereg_<uuid>] returns the record; and [load_binding_record] of the
    UUID itself, which has no file of its own, finds by the scan a record
    whose fingerprint carries that UUID. *)
Theorem pre_registration_is_found (secret_key : bytes) (docs : documents) (dir : storage)
    (document_path qr_data : string) (expiry_hours : Z) (uuid4 : string)
    (fingerprint_clock issued_clock token_clock created_clock expires_clock : Z)
    (fingerprint : dict) (binding_token : string) :
  lists_records ->
  generate_document_fingerprint docs document_path uuid4 fingerprint_clock
  = Return fingerprint ->
  generate_binding_token secret_key fingerprint qr_data expiry_hours issued_clock token_clock
  = Return binding_token ->
  let record := preregistration_record fingerprint qr_data binding_token expiry_hours
                                       created_clock expires_clock in
  let run := pre_register_document secret_key docs dir document_path qr_data expiry_hours
               uuid4 fingerprint_clock issued_clock token_clock created_clock
               expires_clock in
  open_w (record_file ("prereg_" ++ uuid4)) = Return () ->
  json_loads (json_dump_indent (JDict record)) = Return (JDict record) ->
  is_json_name (record_file ("prereg_" ++ uuid4)) = true ->
  dir !! record_file uuid4 = None ->
  lookup_key run.1 "success" = Some (JBool true) /\
  lookup_key run.1 "registration_id" = Some (JStr uuid4) /\
  lookup_key run.1 "binding_token" = Some (JStr binding_token) /\
  lookup_key run.1 "expires_at" = Some (JInt (expires_clock + expiry_hours * 3600)) /\
  load_binding_record run.2 ("prereg_" ++ uuid4) = Some (JDict record) /\
  exists found d fp,
    load_binding_record run.2 uuid4 = Some found /\
    found = JDict d /\
    get_default d "document_fingerprint" (JDict []) = JDict fp /\
    (get fp "document_id" = JStr uuid4 \/ get fp "fingerprint_id" = JStr uuid4).
Proof.
  intros Hglob Hfp Htoken record run Hopen Hload Hname Hnone.
  destruct (pre_register_unfold secret_key docs dir document_path qr_data expiry_hours
              uuid4 fingerprint_clock issued_clock token_clock created_clock expires_clock
              fingerprint binding_token Hfp Htoken) as (doc & _ & Hrun).
  fold record in Hrun. fold run in Hrun. rewrite Hrun. simpl.
  split_and!; try reflexivity.
  - destruct (saved_record_is_loaded_aux dir ("prereg_" ++ uuid4) record (JDict record)
                Hopen Hload) as (dir' & Hsave & Hl). by rewrite Hsave.
  - destruct (saved_record_is_loaded_aux dir ("prereg_" ++ uuid4) record (JDict record)
                Hopen Hload) as (dir' & Hsave & Hl). rewrite Hsave. simpl.
    assert (dir' = <[record_file ("prereg_" ++ uuid4) := json_dump_indent (JDict record)]> dir)
      as Hdir'.
    { unfold save_binding_record in Hsave. rewrite Hopen in Hsave. by injection Hsave. }
    assert (record_file ("prereg_" ++ uuid4) <> record_file uuid4) as Hne.
    { intros Heq. apply record_file_inj in Heq.
      apply (f_equal String.length) in Heq. rewrite length_append in Heq.
      simpl in Heq. lia. }
    assert (dir' !! record_file uuid4 = None) as Hnone'.
    { rewrite Hdir'. by rewrite lookup_insert_ne. }
    assert (names_document (JDict record) uuid4 = Return true) as Hnames.
    { apply names_document_iff. exists record, fingerprint. split; [done|].
      split; [reflexivity|]. left.
      destruct (fingerprint_entries _ _ _ _ _ Hfp) as (doc' & _ & Hid & _).
      unfold get. by rewrite Hid. }
    assert (load_json dir' (record_file ("prereg_" ++ uuid4)) = Return (JDict record))
      as Hfile.
    { unfold load_json, read_text. rewrite Hdir', lookup_insert_eq. simpl. by rewrite Hload. }
    unfold load_binding_record. rewrite Hnone'.
    pose proof (scan_records_spec dir' (glob_json dir') uuid4) as Hscan.
    destruct (scan_records dir' (glob_json dir') uuid4) as [found|].
    + destruct Hscan as (name & _ & _ & Hn). apply names_document_iff in Hn.
      destruct Hn as (d & fp & -> & Hd & Hor). by exists (JDict d), d, fp.
    + exfalso. apply (Hscan (record_file ("prereg_" ++ uuid4)) (JDict record)); [|done|done].
      apply (Hglob dir'). split; [|done]. by eapply load_json_exists.
Qed.

(** X21. The answer of [save_binding_record] is not looked at (line
    219): when the record file cannot be written, [pre_register_document]
    still answers success, with the token, and the directory is as it was,
    so that nothing was registered. *)
Theorem pre_registration_without_record (secret_key : bytes) (docs : documents)
    (dir : storage) (document_path qr_data : string) (expiry_hours : Z) (uuid4 : string)
    (fingerprint_clock issued_clock token_clock created_clock expires_clock : Z)
    (fingerprint : dict) (binding_token msg : string) :
  generate_document_fingerprint docs document_path uuid4 fingerprint_clock
  = Return fingerprint ->
  generate_binding_token secret_key fingerprint qr_data expiry_hours issued_clock token_clock
  = Return binding_token ->
  open_w (record_file ("prereg_" ++ uuid4)) = Raise msg ->
  let run := pre_register_document secret_key docs dir document_path qr_data expiry_hours
               uuid4 fingerprint_clock issued_clock token_clock created_clock
               expires_clock in
  lookup_key run.1 "success" = Some (JBool true) /\
  lookup_key run.1 "binding_token" = Some (JStr binding_token) /\
  run.2 = dir /\
  load_binding_record run.2 ("prereg_" ++ uuid4) = load_binding_record dir ("prereg_" ++ uuid4).
Proof.
  intros Hfp Htoken Hopen run.
  destruct (pre_register_unfold secret_key docs dir document_path qr_data expiry_hours
              uuid4 fingerprint_clock issued_clock token_clock created_clock expires_clock
              fingerprint binding_token Hfp Htoken) as (doc & _ & Hrun).
  fold run in Hrun. rewrite Hrun. unfold save_binding_record. rewrite Hopen. simpl.
  by split_and!.
Qed.

End WithDisk.

End StorageFacts.

(** * The capacity analysis *)

Module QrFacts.
Import QrUtils.

Lemma first_fitting_spec (versions : list Z) (data_length : Z) (ec : string)
    (table : capacity_table) :
  match first_fitting versions data_length ec table with
  | Some v =>
      exists before after c,
        versions = before ++ v :: after /\
        capacity_at table v ec = Some c /\ (data_length <= c)%Z /\
        forall v' c', v' ∈ before -> capacity_at table v' ec = Some c' -> (c' < data_length)%Z
  | None =>
      forall v c, v ∈ versions -> capacity_at table v ec = Some c -> (c < data_length)%Z
  end.
Proof.
  induction versions as [|version rest IH]; simpl.
  - intros v c Hin. by apply elem_of_nil in Hin.
  - destruct (capacity_at table version ec) as [c|] eqn:Ec.
    + destruct (decide (data_length <= c)%Z) as [Hle|Hgt].
      * exists [], rest, c. split_and!; try done.
        intros v' c' Hin. by apply elem_of_nil in Hin.
      * destruct (first_fitting rest data_length ec table) as [v|].
        -- destruct IH as (before & after & c0 & -> & Hc0 & Hle & Hbefore).
           exists (version :: before), after, c0. split_and!; try done.
           intros v' c' Hin Hc'. apply elem_of_cons in Hin as [->|Hin]; [|by eapply Hbefore].
           rewrite Ec in Hc'. injection Hc' as <-. lia.
        -- intros v c0 Hin Hc0. apply elem_of_cons in Hin as [->|Hin]; [|by eapply IH].
           rewrite Ec in Hc0. injection Hc0 as <-. lia.
    + destruct (first_fitting rest data_length ec table) as [v|].
      * destruct IH as (before & after & c0 & -> & Hc0 & Hle & Hbefore).
        exists (version :: before), after, c0. split_and!; try done.
        intros v' c' Hin Hc'. apply elem_of_cons in Hin as [->|Hin]; [|by eapply Hbefore].
        by rewrite Ec in Hc'.
      * intros v c0 Hin Hc0. apply elem_of_cons in Hin as [->|Hin]; [|by eapply IH].
        by rewrite Ec in Hc0.
Qed.

Lemma versions_1_10_elem (v : Z) : v ∈ versions_1_10 <-> (1 <= v <= 10)%Z.
Proof. unfold versions_1_10. rewrite elem_of_seqZ. lia. Qed.

Lemma versions_split (before after : list Z) (v : Z) :
  versions_1_10 = before ++ v :: after ->
  (1 <= v <= 10)%Z /\ forall v', v' ∈ before <-> (1 <= v' < v)%Z.
Proof.
  intros Hsplit.
  assert (versions_1_10 = [1; 2; 3; 4; 5; 6; 7; 8; 9; 10]%Z) as E by (vm_compute; reflexivity).
  rewrite E in Hsplit. clear E.
  do 10 (destruct before as [|? before];
         [simplify_eq/=; split; [lia|];
          intros v'; rewrite ?elem_of_cons, elem_of_nil; lia|]).
  apply (f_equal length) in Hsplit. rewrite length_app in Hsplit. simpl in Hsplit. lia.
Qed.

Lemma minimum_version_is_least_aux (data_length : Z) (ec : string) (table : capacity_table) :
  match _find_minimum_version data_length ec table with
  | Some v =>
      (1 <= v <= 10)%Z /\
      (exists c, capacity_at table v ec = Some c /\ (data_length <= c)%Z) /\
      forall v' c', (1 <= v' < v)%Z -> capacity_at table v' ec = Some c' ->
                    (c' < data_length)%Z
  | None =>
      forall v c, (1 <= v <= 10)%Z -> capacity_at table v ec = Some c -> (c < data_length)%Z
  end.
Proof.
  unfold _find_minimum_version.
  pose proof (first_fitting_spec versions_1_10 data_length ec table) as Hspec.
  destruct (first_fitting versions_1_10 data_length ec table) as [v|].
  - destruct Hspec as (before & after & c & Hsplit & Hc & Hle & Hbefore).
    apply versions_split in Hsplit as [Hv Hin]. split_and!; [lia|lia|by eauto|].
    intros v' c' Hv' Hc'. eapply Hbefore; [|done]. by apply Hin.
  - intros v c Hv Hc. eapply Hspec; [|done]. by apply versions_1_10_elem.
Qed.

(** X22. [_find_minimum_version] (lines 486-493), for any table, level and
    length: a version that is returned lies between 1 and 10, is in the
    table with a capacity that holds the data, and no smaller version of the
    table does; when [None] is returned, no version from 1 to 10 of the
    table holds the data. A level the rows do not have counts as capacity
    0. *)
Theorem minimum_version_is_least (data_length : Z) (error_correction : string)
    (table : capacity_table) :
  match _find_minimum_version data_length error_correction table with
  | Some v =>
      (1 <= v <= 10)%Z /\
      (exists c, capacity_at table v error_correction = Some c /\ (data_length <= c)%Z) /\
      forall v' c', (1 <= v' < v)%Z -> capacity_at table v' error_correction = Some c' ->
                    (c' < data_length)%Z
  | None =>
      forall v c, (1 <= v <= 10)%Z -> capacity_at table v error_correction = Some c ->
                  (c < data_length)%Z
  end.
Proof.
  unfold _find_minimum_version.
  pose proof (first_fitting_spec versions_1_10 data_length error_correction table) as Hspec.
  destruct (first_fitting versions_1_10 data_length error_correction table) as [v|].
  - destruct Hspec as (before & after & c & Hsplit & Hc & Hle & Hbefore).
    apply versions_split in Hsplit as [Hv Hin]. split_and!; [lia|lia|by eauto|].
    intros v' c' Hv' Hc'. eapply Hbefore; [|done]. by apply Hin.
  - intros v c Hv Hc. eapply Hspec; [|done]. by apply versions_1_10_elem.
Qed.

Lemma capacity_table_cases (data_mode : string) :
  _get_capacity_table data_mode = QR_CAPACITY_NUMERIC \/
  _get_capacity_table data_mode = QR_CAPACITY_ALPHANUMERIC \/
  _get_capacity_table data_mode = QR_CAPACITY_BYTE.
Proof.
  unfold _get_capacity_table. cbn [assoc].
  repeat (destruct (decide (_ = data_mode)); [simpl; tauto|]). simpl. tauto.
Qed.

Lemma no_version_above_652 (data_mode ec : string) (data_length : Z) :
  ec ∈ levels -> (652 < data_length)%Z ->
  _find_minimum_version data_length ec (_get_capacity_table data_mode) = None.
Proof.
  intros Hec Hlen. unfold levels in Hec. apply list_elem_of_In in Hec. simpl in Hec.
  destruct (capacity_table_cases data_mode) as [->|[->| ->]];
    destruct Hec as [<-|[<-|[<-|[<-|[]]]]];
    unfold _find_minimum_version, versions_1_10; simpl;
    repeat (rewrite decide_False by lia); reflexivity.
Qed.

Section WithPython.
Variable isdigit : string -> bool.
Variable upper : string -> string.
Variable round1 : PrimFloat.float -> PrimFloat.float.

Ltac in_levels := unfold levels; apply list_elem_of_In; simpl; tauto.

(** The entry of a level holds what [_find_minimum_version] found, and
    only an entry with a version is recommended. *)
Lemma analyze_level_version (data_length : Z) (ec : string) (table : capacity_table) :
  let e := analyze_level round1 data_length ec table in
  minimum_version e = _find_minimum_version data_length ec table /\
  (recommended e = true -> exists v, minimum_version e = Some v) /\
  forall v, minimum_version e = Some v -> (1 <= v <= 10)%Z.
Proof.
  intros e. unfold e, analyze_level.
  pose proof (minimum_version_is_least_aux data_length ec table) as Hmin.
  destruct (_find_minimum_version data_length ec table) as [v|]; simpl.
  - rewrite bool_decide_eq_false_2 by lia. simpl. split_and!; [done|by eauto|].
    intros v' [= <-]. lia.
  - by split_and!.
Qed.

Lemma recommend_cases (eL eM eQ eH : level_analysis) :
  let va := [("L", eL); ("M", eM); ("Q", eQ); ("H", eH)] in
  (forall ec e, assoc va ec = Some e -> forall v, minimum_version e = Some v -> v <> 0%Z) ->
  match _recommend_error_correction va with
  | Some ec =>
      ec ∈ levels /\
      exists e, assoc va ec = Some e /\
                (recommended e = true \/ exists v, minimum_version e = Some v)
  | None =>
      forall ec e, assoc va ec = Some e -> minimum_version e = None /\ recommended e = false
  end.
Proof.
  intros va Hnz.
  assert (forall v, minimum_version eL = Some v -> v <> 0%Z) as HL by (by apply (Hnz "L")).
  assert (forall v, minimum_version eM = Some v -> v <> 0%Z) as HM by (by apply (Hnz "M")).
  assert (forall v, minimum_version eQ = Some v -> v <> 0%Z) as HQ by (by apply (Hnz "Q")).
  assert (forall v, minimum_version eH = Some v -> v <> 0%Z) as HH by (by apply (Hnz "H")).
  clear Hnz. unfold _recommend_error_correction, va, levels. simpl.
  destruct (recommended eM) eqn:RM; simpl.
  { split; [in_levels|]. exists eM. eauto. }
  destruct (recommended eQ) eqn:RQ; simpl.
  { split; [in_levels|]. exists eQ. eauto. }
  destruct (recommended eL) eqn:RL; simpl.
  { split; [in_levels|]. exists eL. eauto. }
  destruct (recommended eH) eqn:RH; simpl.
  { split; [in_levels|]. exists eH. eauto. }
  unfold lowest_version. simpl.
  destruct (minimum_version eL) as [vL|] eqn:EL;
    destruct (minimum_version eM) as [vM|] eqn:EM;
    destruct (minimum_version eQ) as [vQ|] eqn:EQ;
    destruct (minimum_version eH) as [vH|] eqn:EH; simpl;
    repeat (rewrite (bool_decide_eq_false_2 (_ = 0%Z)) by eauto; simpl);
    repeat (case_bool_decide; simpl);
    try (split; [in_levels|]; simpl; eauto 10).
  intros ec e. repeat (case_decide; [intros [= <-]; done|]). done.
Qed.

(** What [analyze_qr_requirements] returns for data that is not empty. *)
Lemma analysis_cases (data : string) :
  data <> EmptyString ->
  let data_length := Z.of_nat (String.length data) in
  let mode := _determine_data_mode isdigit upper data in
  let table := _get_capacity_table mode in
  exists version ec va stego compatible recommendations,
    analyze_qr_requirements isdigit upper round1 data
    = Requirements data_length mode (Some version) ec va stego compatible recommendations /\
    (1 <= version <= 10)%Z /\
    has_recommended_version (analyze_qr_requirements isdigit upper round1 data) = true /\
    match ec with
    | Some level =>
        level ∈ levels /\ _find_minimum_version data_length level table = Some version
    | None =>
        version = 1%Z /\
        forall level v c, level ∈ levels -> (1 <= v <= 10)%Z ->
                          capacity_at table v level = Some c -> (c < data_length)%Z
    end.
Proof.
  intros Hdata data_length mode table.
  unfold analyze_qr_requirements. rewrite decide_False by done.
  fold data_length. fold mode. fold table. unfold levels. cbn [fmap list_fmap].
  set (eL := analyze_level round1 data_length "L" table).
  set (eM := analyze_level round1 data_length "M" table).
  set (eQ := analyze_level round1 data_length "Q" table).
  set (eH := analyze_level round1 data_length "H" table).
  set (va := [("L", eL); ("M", eM); ("Q", eQ); ("H", eH)]).
  destruct (analyze_level_version data_length "L" table) as (ML & RL & VL).
  destruct (analyze_level_version data_length "M" table) as (MM & RM & VM).
  destruct (analyze_level_version data_length "Q" table) as (MQ & RQ & VQ).
  destruct (analyze_level_version data_length "H" table) as (MH & RH & VH).
  fold eL in ML, RL, VL. fold eM in MM, RM, VM. fold eQ in MQ, RQ, VQ. fold eH in MH, RH, VH.
  assert (forall ec e, assoc va ec = Some e ->
            ec ∈ levels /\
            minimum_version e = _find_minimum_version data_length ec table /\
            (recommended e = true -> exists v, minimum_version e = Some v) /\
            forall v, minimum_version e = Some v -> (1 <= v <= 10)%Z) as Hva.
  { intros ec e. unfold va, levels. cbn [assoc].
    destruct (decide ("L" = ec)) as [<-|?];
      [intros [= Heq]; rewrite <- Heq; split; [in_levels|by split_and!]|].
    destruct (decide ("M" = ec)) as [<-|?];
      [intros [= Heq]; rewrite <- Heq; split; [in_levels|by split_and!]|].
    destruct (decide ("Q" = ec)) as [<-|?];
      [intros [= Heq]; rewrite <- Heq; split; [in_levels|by split_and!]|].
    destruct (decide ("H" = ec)) as [<-|?];
      [intros [= Heq]; rewrite <- Heq; split; [in_levels|by split_and!]|].
    done. }
  assert (forall stego,
            exists recommendations,
              _generate_recommendations data_length va stego = Return recommendations)
    as Hrecs.
  { intros stego. unfold _generate_recommendations, va. simpl.
    destruct (recommended eL); simpl; [by eexists|].
    destruct (recommended eM); simpl; [by eexists|].
    destruct (recommended eQ); simpl; [by eexists|].
    destruct (recommended eH); simpl; by eexists. }
  pose proof (recommend_cases eL eM eQ eH) as Hrec. fold va in Hrec.
  assert (forall ec e, assoc va ec = Some e -> forall v, minimum_version e = Some v -> v <> 0%Z)
    as Hnz.
  { intros ec e He v Hv. apply Hva in He as (_ & _ & _ & Hrange). apply Hrange in Hv. lia. }
  specialize (Hrec Hnz).
  destruct (_recommend_error_correction va) as [ec|] eqn:Eec.
  - destruct Hrec as (Hin & e & He & Hor).
    destruct (Hva ec e He) as (_ & Hfind & Hr & Hrange).
    assert (exists v, minimum_version e = Some v) as [v Hv].
    { destruct Hor as [Hor|Hor]; [by apply Hr|done]. }
    assert (truthy_str (Some ec) = true) as Htruthy.
    { unfold levels in Hin. simpl. apply negb_true_iff, bool_decide_eq_false_2.
      intros ->. apply list_elem_of_In in Hin. simpl in Hin.
      destruct Hin as [?|[?|[?|[?|[]]]]]; discriminate. }
    rewrite Htruthy. change (Some ec ≫= assoc va) with (assoc va ec).
    rewrite He. change (mbind _ (Some e)) with (minimum_version e). rewrite Hv.
    destruct (Hrecs (_analyze_steganography_compatibility round1 data_length (Some v)))
      as [recommendations ->].
    eexists v, (Some ec), va, _, _, recommendations. split; [done|].
    split; [by apply Hrange|]. split.
    + simpl. apply negb_true_iff, bool_decide_eq_false_2. apply Hrange in Hv. lia.
    + split; [done|]. by rewrite <- Hfind.
  - cbn [truthy_str].
    destruct (Hrecs (_analyze_steganography_compatibility round1 data_length (Some 1%Z)))
      as [recommendations ->].
    eexists 1%Z, None, va, _, _, recommendations. split; [done|].
    split; [lia|]. split; [done|]. split; [done|].
    intros level v c Hlevel Hv Hc.
    assert (exists e, assoc va level = Some e) as [e He].
    { unfold levels in Hlevel. unfold va. simpl.
      apply list_elem_of_In in Hlevel. simpl in Hlevel.
      destruct Hlevel as [<-|[<-|[<-|[<-|[]]]]]; by eexists. }
    destruct (Hrec level e He) as [Hnone _].
    destruct (Hva level e He) as (_ & Hfind & _).
    rewrite Hnone in Hfind. symmetry in Hfind.
    pose proof (minimum_version_is_least_aux data_length level table) as Hmin.
    rewrite Hfind in Hmin. by eapply Hmin.
Qed.

(** X23. [analyze_qr_requirements] (lines 149-226) on data that is not
    empty never takes the [except] branch, and its [recommended_version]
    is always an integer from 1 to 10, hence true as a condition. When a
    level is recommended, the version is the least one that holds the data
    at that level. When no level is recommended, which happens exactly when
    no version from 1 to 10 holds the data at any level, the version
    reported is 1 all the same. *)
Theorem analysis_recommends_a_version (data : string) :
  data <> EmptyString ->
  let data_length := Z.of_nat (String.length data) in
  let mode := _determine_data_mode isdigit upper data in
  let table := _get_capacity_table mode in
  exists version ec va stego compatible recommendations,
    analyze_qr_requirements isdigit upper round1 data
    = Requirements data_length mode (Some version) ec va stego compatible recommendations /\
    (1 <= version <= 10)%Z /\
    has_recommended_version (analyze_qr_requirements isdigit upper round1 data) = true /\
    match ec with
    | Some level =>
        level ∈ levels /\ _find_minimum_version data_length level table = Some version
    | None =>
        version = 1%Z /\
        forall level v c, level ∈ levels -> (1 <= v <= 10)%Z ->
                          capacity_at table v level = Some c -> (c < data_length)%Z
    end.
Proof.
  intros Hdata data_length mode table.
  destruct (analysis_cases data Hdata)
    as (version & ec & va & stego & compatible & recommendations & Hrun & Hrange & Hhas & Hec).
  exists version, ec, va, stego, compatible, recommendations.
  split; [exact Hrun|]. split; [exact Hrange|]. split; [exact Hhas|]. exact Hec.
Qed.

(** The capacity check of [generate_bound_qr] succeeds on any text that is
    not empty. *)
Lemma nonempty_has_version (data : string) :
  data <> EmptyString ->
  has_recommended_version (analyze_qr_requirements isdigit upper round1 data) = true.
Proof.
  intros Hdata. by destruct (analysis_cases data Hdata) as (? & ? & ? & ? & ? & ? & _ & _ & ? & _).
Qed.


(** X24. The capacity check of [generate_bound_qr] (lines 73-92 of
    secure_qr_utils.py) with the real [analyze_qr_requirements]: whenever
    the envelope made by [create_secure_qr_data] is not the empty string,
    the text put into the QR code is that envelope, however long it is. The
    compact format is never used, and "Document binding data too large for
    QR code" is never raised. *)
Theorem bound_qr_is_never_compact `{Binder.Runtime} (data binding_token env : string)
    (now : Z) :
  Binder.create_secure_qr_data data binding_token now = Return env ->
  env <> EmptyString ->
  Binder.bound_qr_payload
    (fun s => has_recommended_version (analyze_qr_requirements isdigit upper round1 s))
    data binding_token now
  = Return env.
Proof.
  intros Hcreate Henv. unfold Binder.bound_qr_payload. rewrite Hcreate. simpl.
  by rewrite nonempty_has_version.
Qed.

Lemma recommended_at_80_checked :
  forallb (fun table =>
             forallb (fun ec => forallb (recommended_at_80 round1 table ec) (seqZ 1 652)) levels)
          [QR_CAPACITY_NUMERIC; QR_CAPACITY_ALPHANUMERIC; QR_CAPACITY_BYTE]
  = true.
Proof. vm_compute. reflexivity. Qed.

(** X25. The [recommended] flag of [analyze_qr_requirements] (lines
    176-186), computed in floating point as
    [(data_length / capacity) * 100 <= 80]: for the three capacity tables,
    the four levels and every length from 1 on, a level is recommended
    exactly when a version from 1 to 10 holds the data and the least such
    version is filled to at most four fifths, [5 * data_length <= 4 *
    capacity] in integers. The rounding of the division and of the product
    never moves a value across 80. *)
Theorem recommended_is_four_fifths (data_mode ec : string) (data_length : Z) :
  ec ∈ levels -> (1 <= data_length)%Z ->
  let e := analyze_level round1 data_length ec (_get_capacity_table data_mode) in
  minimum_version e = _find_minimum_version data_length ec (_get_capacity_table data_mode) /\
  (recommended e = true <->
   exists v, minimum_version e = Some v /\ (5 * data_length <= 4 * capacity e)%Z).
Proof.
  intros Hec Hlen e.
  destruct (analyze_level_version data_length ec (_get_capacity_table data_mode))
    as (Hmin & Hrec & _).
  fold e in Hmin, Hrec. split; [exact Hmin|].
  destruct (decide (data_length <= 652)%Z) as [Hsmall|Hlarge].
  - pose proof recommended_at_80_checked as Hall.
    rewrite forallb_forall in Hall.
    assert (recommended_at_80 round1 (_get_capacity_table data_mode) ec data_length = true) as Hone.
    { assert (In (_get_capacity_table data_mode)
                 [QR_CAPACITY_NUMERIC; QR_CAPACITY_ALPHANUMERIC; QR_CAPACITY_BYTE]) as Htable.
      { simpl. destruct (capacity_table_cases data_mode) as [->|[->| ->]];
          [by left|by right; left|by right; right; left]. }
      specialize (Hall _ Htable). rewrite forallb_forall in Hall.
      apply list_elem_of_In in Hec. specialize (Hall _ Hec).
      rewrite forallb_forall in Hall. apply Hall.
      apply list_elem_of_In, elem_of_seqZ. lia. }
    unfold recommended_at_80 in Hone. fold e in Hone.
    apply bool_decide_eq_true in Hone. rewrite Hone.
    destruct (minimum_version e) as [v|].
    + rewrite bool_decide_eq_true. split; [by eauto|]. by intros (_ & _ & ?).
    + split; [done|]. by intros (v & [=] & _).
  - rewrite no_version_above_652 in Hmin by (done || lia). split.
    + intros Hr. apply Hrec in Hr as [v Hv]. congruence.
    + intros (v & Hv & _). congruence.
Qed.

End WithPython.

End QrFacts.

(** * The further facts at concrete inputs *)

Module ConcreteMore.
Import Lsb Binder Examples MoreExamples.

(** The field ["101"] is the number 5 in three digits. *)
Lemma binary_decode_encode_witness :
  exists n : nat,
    _binary_to_int (list_ascii_of_string "101") = Some n /\
    n < 2 ^ 3 /\
    _int_to_binary n 3 = list_ascii_of_string "101".
Proof.
  apply (LsbMore.binary_decode_encode (list_ascii_of_string "101")).
  - discriminate.
  - simpl. repeat (apply Forall_cons_2; [unfold is_bit; auto|]). apply Forall_nil_2.
Defined.

(** The sample 200 takes the bit ['1'] and becomes 201. *)
Lemma embed_bit_distortion_witness :
  channel_ok (_embed_bit 200 "1") /\
  (Z.abs (_embed_bit 200 "1" - 200) <= 1)%Z /\
  _embed_bit (_embed_bit 200 "1") "1" = _embed_bit 200 "1" /\
  (_extract_lsb 200 = (if decide ("1"%char = "0"%char) then "0"%char else "1"%char) ->
   _embed_bit 200 "1" = 200%Z).
Proof.
  apply (LsbMore.embed_bit_distortion 200 "1"). unfold channel_ok. lia.
Defined.

Lemma cover_wf_image (w h : nat) : wf_image (cover w h).
Proof. unfold wf_image, cover. cbn [pixels width height]. by rewrite length_replicate. Qed.

Lemma payload_wf : wf_bilevel payload.
Proof.
  split; [done|]. simpl. repeat (apply Forall_cons_2; [auto|]). apply Forall_nil_2.
Qed.

Lemma small_u16 (n : nat) : (n <? 2 ^ 16) = true -> u16 n.
Proof. intros Hn. by apply Nat.ltb_lt. Qed.

(** A 43 x 1 cover and the 2 x 1 payload: 42 bits for 43 pixels. *)
Lemma spare_pixel_round_trip_witness :
  exists stego : image (Z * Z * Z),
    width stego = 43 /\ height stego = 1 /\
    embed_qr_to_image Reference.resample Reference.dither (folder 43 1)
                      "cover.png" "qr.png" "stego.png" true
    = (Return (), <["stego.png" := ImageFile (PicRGB stego)]> (folder 43 1)) /\
    extract_qr_from_image Reference.splitext_root
      (<["stego.png" := ImageFile (PicRGB stego)]> (folder 43 1)) "stego.png" "out.bmp"
    = (Return (), <["out.png" := ImageFile (Pic1 payload)]>
                    (<["stego.png" := ImageFile (PicRGB stego)]> (folder 43 1))).
Proof.
  apply (LsbMore.spare_pixel_round_trip Reference.resample Reference.dither
           Reference.splitext_root (folder 43 1) "cover.png" "qr.png" "stego.png" "out.bmp"
           true (PicRGB (cover 43 1)) (Pic1 payload)).
  - reflexivity.
  - reflexivity.
  - vm_compute; reflexivity.
  - apply cover_wf_image.
  - apply payload_wf.
  - apply small_u16; vm_compute; reflexivity.
  - apply small_u16; vm_compute; reflexivity.
  - simpl; lia.
  - simpl; lia.
  - apply Nat.ltb_lt. vm_compute. reflexivity.
Defined.

(** A 44 x 10 cover and a 30 x 30 payload: the resize makes it 20 x 20,
    [400 + 40 = 440], and nothing is saved. *)
Lemma exact_fit_returns_without_saving_witness :
  let qr := Image 30 30 (replicate 900 0%Z) in
  let fs : gmap string file :=
    <["cover.png" := ImageFile (PicRGB (cover 44 10))]>
      (<["qr.png" := ImageFile (Pic1 qr)]> ∅) in
  embed_qr_to_image Reference.resample Reference.dither fs
                    "cover.png" "qr.png" "stego.png" true
  = (Return (), fs).
Proof.
  intros qr fs.
  apply (LsbMore.exact_fit_returns_without_saving Reference.resample Reference.dither
           fs "cover.png" "qr.png" "stego.png" true (PicRGB (cover 44 10)) (Pic1 qr)
           (resize Reference.resample qr 20 20 NEAREST)).
  - reflexivity.
  - reflexivity.
  - vm_compute; reflexivity.
  - apply cover_wf_image.
  - vm_compute; reflexivity.
  - vm_compute; reflexivity.
  - apply small_u16; vm_compute; reflexivity.
  - apply small_u16; vm_compute; reflexivity.
  - vm_compute; reflexivity.
Defined.

Lemma reference_resample_length (img : image Z) (d : nat) :
  length (Reference.resample img d d NEAREST) = d * d.
Proof. unfold Reference.resample. by rewrite length_fmap, LsbFacts.scan_length. Qed.

(** The same cover file with one pixel more, 45 x 10: the call returns. *)
Lemma resize_enabled_outcome_witness :
  let qr := Image 30 30 (replicate 900 0%Z) in
  let fs : gmap string file :=
    <["cover.png" := ImageFile (PicRGB (cover 45 10))]>
      (<["qr.png" := ImageFile (Pic1 qr)]> ∅) in
  (embed_qr_to_image Reference.resample Reference.dither fs
                     "cover.png" "qr.png" "stego.png" true).1 = Return ().
Proof.
  intros qr fs.
  apply (LsbMore.resize_enabled_outcome Reference.resample Reference.dither
           fs "cover.png" "qr.png" "stego.png" (PicRGB (cover 45 10)) (Pic1 qr)).
  - reflexivity.
  - reflexivity.
  - vm_compute; reflexivity.
  - apply cover_wf_image.
  - unfold wf_image, qr. cbn [pixels width height convert_1]. by rewrite length_replicate.
  - apply small_u16; vm_compute; reflexivity.
  - apply small_u16; vm_compute; reflexivity.
  - intros d. apply reference_resample_length.
  - apply Nat.ltb_lt. vm_compute. reflexivity.
Defined.

(** With a side of 65536 pixels the bound of the theorem is not met, and
    the embedding with the resize option does fail: a payload of 65536 x 1
    in a cover of 65576 x 1 passes the first capacity check with
    [40 + 65536] bits, its header has 41 bits, and the check of line 163
    raises. *)
Lemma wide_payload_fails_the_second_check :
  let qr := Image (2 ^ 16) 1 (replicate (2 ^ 16) 255%Z) in
  let cover := cover (2 ^ 16 + 40) 1 in
  let fs : gmap string file :=
    <["cover.png" := ImageFile (PicRGB cover)]> (<["qr.png" := ImageFile (Pic1 qr)]> ∅) in
  embed_qr_to_image Reference.resample Reference.dither fs
                    "cover.png" "qr.png" "stego.png" true
  = (Raise (CapacityInsufficientAfterResize (41 + 2 ^ 16) (2 ^ 16 + 40)), fs).
Proof.
  intros qr cover fs.
  assert (length (header (width qr) (height qr)) = 41) as Hh by (vm_compute; reflexivity).
  assert (length (header (width qr) (height qr) ++ (pixel_bit <$> pixels qr))
          = 41 + 2 ^ 16) as Hbits.
  { rewrite length_app, Hh, length_fmap. unfold qr. cbn [pixels].
    by rewrite length_replicate. }
  assert (width cover * height cover = 2 ^ 16 + 40) as HP by apply Nat.mul_1_r.
  assert (width qr * height qr = 2 ^ 16) as Hq by apply Nat.mul_1_r.
  rewrite (LsbFacts.embed_outcome Reference.resample Reference.dither fs
             "cover.png" "qr.png" "stego.png" true (PicRGB cover) (Pic1 qr) qr).
  - cbn [convert_RGB]. rewrite HP, Hbits. by rewrite decide_True by lia.
  - reflexivity.
  - reflexivity.
  - reflexivity.
  - apply cover_wf_image.
  - unfold wf_image, qr. cbn [pixels width height].
    by rewrite length_replicate, Nat.mul_1_l.
  - unfold fit_qr. cbn [convert_RGB convert_1].
    change (16 + 16 + HEADER_TERMINATOR_LEN) with 40.
    rewrite HP, Hq. by rewrite decide_False by lia.
Qed.

(** The carrier image holds a 2 x 1 payload, black then white. *)
Lemma extract_decodes_witness :
  let fs : gmap string file := <["s.png" := ImageFile (PicRGB carrier)]> ∅ in
  exists w h : nat,
    _binary_to_int (take 16 (lsbs (pixels carrier))) = Some w /\
    _binary_to_int (take 16 (drop 16 (lsbs (pixels carrier)))) = Some h /\
    (w * h + 40 <= length (pixels carrier) -> 0 < w -> 0 < h ->
     extract_qr_from_image Reference.splitext_root fs "s.png" "q.png"
     = (Return (),
        <["q.png" := ImageFile
            (Pic1 (Image w h (bit_pixel <$> take (w * h)
                                (drop 40 (lsbs (pixels carrier))))))]> fs) /\
     bit_pixel "1" = 0%Z /\ bit_pixel "0" = 255%Z) /\
    (w = 0 \/ h = 0 ->
     extract_qr_from_image Reference.splitext_root fs "s.png" "q.png"
     = (Raise EmptyImage,
        match fs !! "q.png" with
        | Some _ => <["q.png" := OtherFile]> fs
        | None => fs
        end) /\
     error_class EmptyImage = ValueError) /\
    (length (pixels carrier) < w * h + 40 ->
     extract_qr_from_image Reference.splitext_root fs "s.png" "q.png"
     = (Raise (InsufficientData (length (pixels carrier) - 40) (w * h)), fs) /\
     error_class (InsufficientData (length (pixels carrier) - 40) (w * h)) = ValueError).
Proof.
  intros fs.
  apply (LsbMore.extract_decodes Reference.splitext_root fs "s.png" "q.png" (PicRGB carrier)).
  - reflexivity.
  - vm_compute; reflexivity.
  - apply Nat.leb_le. vm_compute. reflexivity.
  - vm_compute; reflexivity.
Defined.

(** The carrier read at run time: its payload is saved. An image of 40
    pixels with even blue samples reads as a payload of 0 x 0 pixels: the
    save fails, and no file appears. *)
Lemma extraction_examples :
  let fs : gmap string file :=
    <["s.png" := ImageFile (PicRGB carrier)]>
      (<["blank.png" := ImageFile (PicRGB (Image 40 1 (replicate 40 (10, 20, 30)%Z)))]> ∅) in
  extract_qr_from_image Reference.splitext_root fs "s.png" "q.png"
  = (Return (), <["q.png" := ImageFile (Pic1 payload)]> fs) /\
  extract_qr_from_image Reference.splitext_root fs "blank.png" "q.png"
  = (Raise EmptyImage, fs).
Proof. split; vm_compute; reflexivity. Qed.

(** A 7 x 6 image whose blue samples are all odd: no terminator. *)
Lemma extract_without_header_witness :
  exists e : lsb_error,
    extract_qr_from_image Reference.splitext_root (folder 7 6) "cover.png" "q.png"
    = (Raise e, folder 7 6) /\
    error_class e = ValueError /\
    (e = HeaderNotFound \/ e = HeaderLengthMismatch \/ e = TerminatorNotFound) /\
    (length (pixels (cover 7 6)) < 40 -> e = HeaderNotFound).
Proof.
  apply (LsbMore.extract_without_header Reference.splitext_root (folder 7 6)
           "cover.png" "q.png" (PicRGB (cover 7 6))).
  - reflexivity.
  - apply cover_wf_image.
  - right. vm_compute. discriminate.
Defined.

(** ** Tokens *)

(** The token for ["hello"], issued at second 1000 for 24 hours for the
    example fingerprint, verified at second 2000 against a fingerprint
    with the same hash and another [document_id]. *)
Lemma genuine_token_verification_witness :
  exists token,
    generate_binding_token secret_key fingerprint "hello" 24 1000 1000 = Return token /\
    verify_binding_token secret_key (JStr token)
      [("document_id", JStr uuid_b);
       ("fingerprint_hash", get fingerprint "fingerprint_hash")] 2000
    = Return [("valid", JBool true);
              ("qr_data", JStr "hello");
              ("issued_at", JInt 1000);
              ("expires_at", JInt (1000 + 24 * 3600));
              ("document_id", JStr uuid_b);
              ("document_uuid", JStr uuid_a);
              ("verification_time", JInt 2000)].
Proof.
  eexists.
  edestruct (BinderMore.genuine_token_verification secret_key fingerprint
               [("document_id", JStr uuid_b);
                ("fingerprint_hash", get fingerprint "fingerprint_hash")]
               "hello" 24 1000 1000 2000 (JStr uuid_a) (JStr uuid_b))
    as (Hgen & _ & _ & Hvalid).
  - reflexivity.
  - reflexivity.
  - vm_compute; reflexivity.
  - vm_compute; reflexivity.
  - eexists _, _, _, _. split_and!.
    + vm_compute; reflexivity.
    + vm_compute; reflexivity.
    + vm_compute; reflexivity.
    + vm_compute; reflexivity.
    + vm_compute; reflexivity.
  - eexists. split.
    + vm_compute; reflexivity.
    + vm_compute; reflexivity.
  - intros k. cbn [lookup_key binding_payload].
    repeat (destruct (decide (_ = k)) as [<-|?]; [done|]). done.
  - reflexivity.
  - split; [exact Hgen|]. apply Hvalid; [lia | reflexivity].
Defined.

(** The example document is fingerprinted under [uuid_a], a token for
    ["hello"] is issued and wrapped; the quick verification, which draws
    [uuid_b] for its fresh fingerprint, rejects the envelope although
    the document is the same. *)
Lemma requick_verification_mismatch_witness :
  exists (fp1 : dict) (token env : string) (details : dict),
    generate_document_fingerprint docs "/tmp/report.txt" uuid_a 1700000100 = Return fp1 /\
    generate_binding_token secret_key fp1 "hello" 24 1000 1000 = Return token /\
    create_secure_qr_data "hello" token 1001 = Return env /\
    quick_binding_verification secret_key docs env "/tmp/report.txt" uuid_b 1700000200 2000
    = Return [("binding_verified", JBool false);
              ("is_legacy", JBool false);
              ("verification_details", JDict details);
              ("document_id", JStr uuid_b)].
Proof.
  eexists _, _, _, _.
  edestruct (BinderMore.requick_verification_mismatch secret_key docs "/tmp/report.txt"
               uuid_a uuid_b "hello" 1700000100 1700000200 1001 24 1000 1000 2000)
    as [Hgen Hquick].
  - vm_compute; reflexivity.
  - vm_compute; reflexivity.
  - vm_compute; reflexivity.
  - vm_compute; reflexivity.
  - vm_compute; reflexivity.
  - eexists _, _, _, _. split_and!.
    + vm_compute; reflexivity.
    + vm_compute; reflexivity.
    + vm_compute; reflexivity.
    + vm_compute; reflexivity.
    + vm_compute; reflexivity.
  - eexists. split.
    + vm_compute; reflexivity.
    + vm_compute; reflexivity.
  - intros k. cbn [lookup_key binding_payload].
    repeat (destruct (decide (_ = k)) as [<-|?]; [done|]). done.
  - vm_compute; reflexivity.
  - vm_compute. discriminate.
  - lia.
  - split_and!.
    + vm_compute; reflexivity.
    + exact Hgen.
    + vm_compute; reflexivity.
    + exact Hquick.
Defined.

(** The envelope of ["hello"] and the token ["tok"], made at second 1001,
    is parsed back. *)
Lemma envelope_round_trip_witness :
  exists env : string,
    create_secure_qr_data "hello" "tok" 1001 = Return env /\
    parse_secure_qr_data env
    = Return [("is_secure", JBool true);
              ("original_data", JStr "hello");
              ("binding_token", JStr "tok");
              ("version", JStr "2.0");
              ("created_at", JInt 1001);
              ("is_uuid_based", JBool true)].
Proof.
  destruct (BinderMore.envelope_round_trip "hello" "tok" 1001) as (env & Hc & Hp).
  exists env. split; [exact Hc|]. apply Hp.
  assert (Return env = Return (E := exn) (json_dumps false true
            (JDict [("version", JStr QR_BINDING_VERSION);
                    ("type", JStr "secure");
                    ("data", JStr "hello");
                    ("binding", JStr "tok");
                    ("created_at", JInt 1001)]))) as [= ->].
  { rewrite <- Hc. vm_compute. reflexivity. }
  vm_compute. reflexivity.
Defined.

(** A fingerprint with no field, and one with a [document_id] only. *)
Lemma binding_token_errors_witness :
  generate_binding_token secret_key [] "hello" 24 1000 1000
  = Raise (Exn DocumentSecurityError "Failed to generate binding token: 'document_id'") /\
  generate_binding_token secret_key [("document_id", JStr uuid_a)] "hello" 24 1000 1000
  = Raise (Exn DocumentSecurityError "Failed to generate binding token: 'fingerprint_hash'").
Proof.
  split.
  - apply (BinderMore.binding_token_errors secret_key [] "hello" 24 1000 1000).
    reflexivity.
  - apply (BinderMore.binding_token_errors secret_key [("document_id", JStr uuid_a)]
             "hello" 24 1000 1000).
    + by eexists.
    + reflexivity.
Defined.

(** ** The key file and the binding storage *)

Import Storage.

(** No key file yet: the draw becomes the key, and the next start reads it. *)
Lemma key_generated_once_witness :
  let fs' : key_files := <["security_key.bin" := KeyFile secret_key]> ∅ in
  _load_or_generate_key ReferenceDisk.open_wb ∅ "security_key.bin" secret_key
  = (Return secret_key, fs') /\
  _load_or_generate_key ReferenceDisk.open_wb fs' "security_key.bin" [] = (Return secret_key, fs').
Proof.
  intros fs'. split; [reflexivity|].
  destruct (StorageFacts.key_generated_once ReferenceDisk.open_wb ∅ fs' "security_key.bin"
              secret_key [] secret_key) as (_ & _ & _ & Hlater).
  - reflexivity.
  - reflexivity.
  - exact Hlater.
Defined.

(** A key file of two bytes that cannot be written. *)
Lemma key_file_failure_witness :
  let denied (path : string) : outcome string () := Raise "[Errno 13] Permission denied" in
  let fs : key_files := <["security_key.bin" := KeyFile ["x"; "y"]%byte]> ∅ in
  exists e, (_load_or_generate_key denied fs "security_key.bin" secret_key).1 = Raise e.
Proof.
  intros denied fs.
  apply (StorageFacts.key_file_failure denied fs "security_key.bin" secret_key).
  right. split.
  - intros k. unfold fs. rewrite lookup_insert_eq. intros [= <-]. vm_compute. discriminate.
  - by eexists.
Defined.

Lemma reference_lists_records : @lists_records ReferenceDisk.disk.
Proof.
  intros dir. simpl. unfold ReferenceDisk.glob_json. split.
  - apply NoDup_filter, NoDup_fst_map_to_list.
  - intros name. rewrite list_elem_of_filter, list_elem_of_fmap. split.
    + intros [Hname ([n text] & -> & Hin)]. apply elem_of_map_to_list in Hin.
      split; [by exists text|done].
    + intros [[text Htext] Hname]. split; [done|]. exists (name, text).
      split; [done|]. by apply elem_of_map_to_list.
Qed.

Lemma read_only_lists_records : @lists_records ReferenceDisk.read_only.
Proof. exact reference_lists_records. Qed.

Local Existing Instance ReferenceDisk.disk.

(** A record saved under [uuid_a] in the example directory. *)
Lemma saved_record_is_loaded_witness :
  let record : dict := [("qr_data", JStr "hello"); ("expires_at", JInt 5000)] in
  exists dir',
    save_binding_record ReferenceDisk.records uuid_a record = (true, dir') /\
    load_binding_record dir' uuid_a = Some (JDict record).
Proof.
  intros record.
  destruct (StorageFacts.saved_record_is_loaded ReferenceDisk.records uuid_a record
              (JDict record)) as (dir' & Hsave & Hload & _).
  - reflexivity.
  - vm_compute; reflexivity.
  - by exists dir'.
Defined.

(** A record of the old format, stored under its hash, is found by the
    [fingerprint_id] of its fingerprint. *)
Lemma load_scans_for_the_id_witness :
  let record : json :=
    JDict [("document_fingerprint", JDict [("fingerprint_id", JStr "abc")])] in
  let dir : storage :=
    <["0123abcd.json" := ReferenceDisk.json_dump_indent record]> ReferenceDisk.records in
  load_binding_record dir "abc" = Some record /\
  exists name, is_json_name name = true /\ load_json dir name = Return record.
Proof.
  intros record dir.
  pose proof (StorageFacts.load_scans_for_the_id dir "abc" reference_lists_records) as Hscan.
  assert (load_binding_record dir "abc" = Some record) as Hload by (vm_compute; reflexivity).
  rewrite Hload in Hscan. split; [done|]. apply Hscan. vm_compute; reflexivity.
Defined.

(** The example directory at second 5000: the record that expired at 4000
    and the one without a date are removed, the others are kept. *)
Lemma cleanup_removes_the_expired_witness :
  let run := cleanup_expired_records ReferenceDisk.records 5000 in
  run.1 = 2%Z /\
  run.2 !! "old.json" = None /\
  run.2 !! "undated.json" = None /\
  run.2 !! "new.json" = ReferenceDisk.records !! "new.json" /\
  run.2 !! "notes.txt" = ReferenceDisk.records !! "notes.txt" /\
  run.2 !! "broken.json" = ReferenceDisk.records !! "broken.json".
Proof.
  intros run.
  destruct (StorageFacts.cleanup_removes_the_expired ReferenceDisk.records 5000
              reference_lists_records) as (Hrem & Hkeep & Hcount).
  fold run in Hrem, Hkeep, Hcount. split_and!.
  - rewrite Hcount. vm_compute. reflexivity.
  - apply Hrem; vm_compute; reflexivity.
  - apply Hrem; vm_compute; reflexivity.
  - apply Hkeep. intros [_ Hr]. vm_compute in Hr. discriminate.
  - apply Hkeep. intros [Hn _]. vm_compute in Hn. discriminate.
  - apply Hkeep. intros [_ Hr]. vm_compute in Hr. discriminate.
Defined.

(** The record without a date at second 5000, and the one dated 5000. *)
Lemma cleanup_by_expiry_witness :
  (cleanup_expired_records ReferenceDisk.records 5000).2 !! "undated.json" = None /\
  (cleanup_expired_records ReferenceDisk.records 5000).2 !! "new.json"
  = ReferenceDisk.records !! "new.json".
Proof.
  split.
  - destruct (StorageFacts.cleanup_by_expiry ReferenceDisk.records 5000 "undated.json"
                (ReferenceDisk.json_dump_indent (JDict [("qr_data", JStr "x")])))
      as (_ & Hundated & _).
    + exact reference_lists_records.
    + vm_compute; reflexivity.
    + vm_compute; reflexivity.
    + reflexivity.
    + rewrite (Hundated [("qr_data", JStr "x")]).
      * reflexivity.
      * vm_compute; reflexivity.
      * reflexivity.
  - destruct (StorageFacts.cleanup_by_expiry ReferenceDisk.records 5000 "new.json"
                (ReferenceDisk.json_dump_indent (JDict [("expires_at", JInt 5000)])))
      as (_ & _ & Hdated & _).
    + exact reference_lists_records.
    + vm_compute; reflexivity.
    + vm_compute; reflexivity.
    + reflexivity.
    + rewrite (Hdated [("expires_at", JInt 5000)] 5000%Z).
      * vm_compute; reflexivity.
      * vm_compute; reflexivity.
      * reflexivity.
Defined.

(** The example document is pre-registered in an empty directory. *)
Lemma pre_registration_is_found_witness :
  let run := pre_register_document secret_key docs ∅ "/tmp/report.txt" "hello" 24 uuid_a
               1700000100 1000 1000 1001 1002 in
  lookup_key run.1 "success" = Some (JBool true) /\
  lookup_key run.1 "expires_at" = Some (JInt (1002 + 24 * 3600)) /\
  exists found, load_binding_record run.2 uuid_a = Some found.
Proof.
  intros run.
  edestruct (StorageFacts.pre_registration_is_found secret_key docs ∅ "/tmp/report.txt"
               "hello" 24 uuid_a 1700000100 1000 1000 1001 1002)
    as (Hok & _ & _ & Hexp & _ & found & d & fp & Hfound & _).
  - exact reference_lists_records.
  - vm_compute; reflexivity.
  - vm_compute; reflexivity.
  - reflexivity.
  - vm_compute; reflexivity.
  - vm_compute; reflexivity.
  - reflexivity.
  - fold run in Hok, Hexp, Hfound. split_and!; [exact Hok|exact Hexp|by exists found].
Defined.

(** The same pre-registration on a read-only directory. *)
Lemma pre_registration_without_record_witness :
  let run := @pre_register_document Reference.runtime ReferenceDisk.read_only
               secret_key docs ∅ "/tmp/report.txt" "hello" 24 uuid_a
               1700000100 1000 1000 1001 1002 in
  lookup_key run.1 "success" = Some (JBool true) /\ run.2 = ∅.
Proof.
  intros run.
  edestruct (@StorageFacts.pre_registration_without_record Reference.runtime
               ReferenceDisk.read_only secret_key docs ∅ "/tmp/report.txt"
               "hello" 24 uuid_a 1700000100 1000 1000 1001 1002)
    as (Hok & _ & Hdir & _).
  - vm_compute; reflexivity.
  - vm_compute; reflexivity.
  - reflexivity.
  - fold run in Hok, Hdir. by split.
Defined.

(** ** The capacity analysis *)

(** Twelve characters in byte mode fill version 1 at level M to more than
    80 %, and level Q at version 2 is recommended.
    Three hundred braces, in byte mode, fit no version up to 10, and
    version 1 is reported. *)
Lemma analysis_recommends_a_version_witness :
  let analyze := QrUtils.analyze_qr_requirements ReferenceQr.isdigit ReferenceQr.upper
                   ReferenceQr.round1 in
  (exists va stego compatible recommendations,
     analyze "Hello World!"
     = QrUtils.Requirements 12 "byte" (Some 2%Z) (Some "Q") va stego compatible
                            recommendations) /\
  (exists va stego compatible recommendations,
     analyze (string_of_list_ascii (replicate 300 "{"%char))
     = QrUtils.Requirements 300 "byte" (Some 1%Z) None va stego compatible
                            recommendations).
Proof.
  intros analyze. split.
  - destruct (QrFacts.analysis_recommends_a_version ReferenceQr.isdigit ReferenceQr.upper
                ReferenceQr.round1 "Hello World!")
      as (version & ec & va & stego & compatible & recommendations & Hrun & _);
      [discriminate|].
    exists va, stego, compatible, recommendations.
    assert (QrUtils.Requirements
              (Z.of_nat (String.length "Hello World!"))
              (QrUtils._determine_data_mode ReferenceQr.isdigit ReferenceQr.upper
                 "Hello World!") (Some version) ec va stego compatible recommendations
            = analyze "Hello World!") as Heq by (by rewrite <- Hrun).
    unfold analyze. rewrite Hrun.
    vm_compute in Heq. injection Heq as -> -> _ _ _ _. reflexivity.
  - destruct (QrFacts.analysis_recommends_a_version ReferenceQr.isdigit ReferenceQr.upper
                ReferenceQr.round1 (string_of_list_ascii (replicate 300 "{"%char)))
      as (version & ec & va & stego & compatible & recommendations & Hrun & _);
      [discriminate|].
    exists va, stego, compatible, recommendations.
    assert (QrUtils.Requirements
              (Z.of_nat (String.length (string_of_list_ascii (replicate 300 "{"%char))))
              (QrUtils._determine_data_mode ReferenceQr.isdigit ReferenceQr.upper
                 (string_of_list_ascii (replicate 300 "{"%char)))
              (Some version) ec va stego compatible recommendations
            = analyze (string_of_list_ascii (replicate 300 "{"%char))) as Heq
        by (by rewrite <- Hrun).
    unfold analyze. rewrite Hrun.
    vm_compute in Heq. injection Heq as -> -> _ _ _ _. reflexivity.
Defined.

(** The envelope of ["hello"] and a token of 600 characters is longer than
    any capacity of the tables, and it is what goes into the QR code. *)
Lemma bound_qr_is_never_compact_witness :
  let token := string_of_list_ascii (replicate 600 "A"%char) in
  exists env,
    create_secure_qr_data "hello" token 1001 = Return env /\
    (271 < String.length env) /\
    bound_qr_payload
      (fun s => QrUtils.has_recommended_version
                  (QrUtils.analyze_qr_requirements ReferenceQr.isdigit ReferenceQr.upper
                     ReferenceQr.round1 s))
      "hello" token 1001
    = Return env.
Proof.
  intros token. eexists. split; [vm_compute; reflexivity|]. split.
  - vm_compute. lia.
  - apply (QrFacts.bound_qr_is_never_compact ReferenceQr.isdigit ReferenceQr.upper
             ReferenceQr.round1).
    + vm_compute; reflexivity.
    + discriminate.
Defined.

(** Eleven bytes fill version 1 at level M (14 bytes) to less than four
    fifths. *)
Lemma recommended_is_four_fifths_witness :
  QrUtils.recommended
    (QrUtils.analyze_level ReferenceQr.round1 11 "M" (QrUtils._get_capacity_table "byte"))
  = true.
Proof.
  apply (QrFacts.recommended_is_four_fifths ReferenceQr.round1 "byte" "M" 11).
  - vm_compute. apply list_elem_of_In. simpl. tauto.
  - lia.
  - exists 1%Z. split; [reflexivity|]. vm_compute. discriminate.
Defined.

End ConcreteMore.
